(** * The sync protocol engine of realm-core: codec, progress tracker, session

    A shallow embedding of
      - [src/realm/sync/noinst/protocol_codec.cpp] (the wire message builders),
      - [src/realm/object-store/sync/sync_session.cpp] (the progress notifier
        and the session state machine),
    followed by the properties proved about them.

    Conventions.  Unsigned C++ integers ([version_type], [timestamp_type],
    [file_ident_type], [session_ident_type], [std::size_t], [uint64_t]) are
    values of [N]; where the code increments one, the wrap-around at 2^64 is
    written out.  [int] is [Z].  A [std::string], a [BinaryData] and the
    contents of an output buffer are a [string] (a sequence of bytes).  A
    [std::map] keyed by a counter is a [gmap N _], iterated in key order. *)

From Stdlib Require Import NArith ZArith String Ascii Lia.
From stdpp Require Import gmap strings list fin_maps sorting pretty.

Local Open Scope string_scope.
Local Open Scope list_scope.

(** ** The message codec ([protocol_codec.cpp]) *)

Module Codec.

(** [util::ResettableExpandableBufferOutputStream]: the bytes written so far. *)
Definition OutputBuffer := string.

(** [std::string::size()], [BinaryData::size()], [ChunkedBinaryData::size()]. *)
Definition size (s : string) : N := N.of_nat (String.length s).

(** [int(b)] for a [bool] [b]. *)
Definition int_of_bool (b : bool) : Z := if b then 1%Z else 0%Z.

(** [out << "literal"]. *)
Definition put_str (out : OutputBuffer) (s : string) : OutputBuffer := out +:+ s.
(** [out << n] for an unsigned integer: its decimal digits. *)
Definition put_uint (out : OutputBuffer) (n : N) : OutputBuffer := out +:+ pretty n.
(** [out << i] for an [int]. *)
Definition put_int (out : OutputBuffer) (i : Z) : OutputBuffer := out +:+ pretty i.
(** [out.write(data, n)]: the first [n] bytes at [data]. *)
Definition write (out : OutputBuffer) (data : string) (n : N) : OutputBuffer :=
  out +:+ substring 0 (N.to_nat n) data.

Declare Scope out_scope.
Delimit Scope out_scope with out.
Notation "o <<s x" := (put_str o x) (at level 50, left associativity) : out_scope.
Notation "o <<u x" := (put_uint o x) (at level 50, left associativity) : out_scope.
Notation "o <<i x" := (put_int o x) (at level 50, left associativity) : out_scope.
Local Open Scope out_scope.

(** *** Client protocol *)

Definition make_bind_message (protocol_version : Z) (out : OutputBuffer)
    (session_ident : N) (server_path signed_user_token : string)
    (need_client_file_ident is_subserver : bool) : OutputBuffer :=
  let out := out <<s "bind " <<u session_ident <<s " " <<u size server_path <<s " "
                 <<u size signed_user_token <<s " " <<i int_of_bool need_client_file_ident in
  let out := out <<s " " <<i int_of_bool is_subserver in
  let out := out <<s String "010" "" in
  let out := write out server_path (size server_path) in
  write out signed_user_token (size signed_user_token).

(** The state of an [UploadMessageBuilder]: the body buffer and the compression
    buffer it holds by reference, and its changeset counter.  [compress_log]
    is a ghost field: the bodies handed to the compression collaborator, in
    call order. *)
Record UploadMessageBuilder := mkBuilder {
  m_body_buffer : OutputBuffer;
  m_compression_buffer : string;
  m_num_changesets : N;
  compress_log : list string
}.

(** The constructor: [m_body_buffer.reset()]. *)
Definition make_upload_message_builder (compression_buffer : string) : UploadMessageBuilder :=
  mkBuilder "" compression_buffer 0 [].

Definition add_changeset (b : UploadMessageBuilder)
    (client_version server_version origin_timestamp origin_file_ident : N)
    (changeset : string) : UploadMessageBuilder :=
  let body := m_body_buffer b <<u client_version <<s " " <<u server_version <<s " "
                <<u origin_timestamp <<s " " <<u origin_file_ident
                <<s " " <<u size changeset <<s " " in
  let body := write body changeset (size changeset) in
  mkBuilder body (m_compression_buffer b)
            ((m_num_changesets b + 1) mod 2 ^ 64) (compress_log b).

Definition g_max_uncompressed : N := 1024.

Section Compression.

(** [_impl::compression::allocate_and_compress], the byte-compression
    collaborator: from the body and the previous contents of the compression
    buffer to the compressed size and the new contents of the buffer. *)
Variable allocate_and_compress : string -> string -> N * string.

Definition make_upload_message (b : UploadMessageBuilder) (protocol_version : Z)
    (out : OutputBuffer) (session_ident : N)
    (progress_client_version progress_server_version locked_server_version : N)
    : OutputBuffer * UploadMessageBuilder :=
  let body := m_body_buffer b in
  let compressed_body_size := size body in
  let '(compressed_body_size, b) :=
    if (g_max_uncompressed <? size body)%N then
      let '(sz, buf) := allocate_and_compress body (m_compression_buffer b) in
      (sz, mkBuilder (m_body_buffer b) buf (m_num_changesets b) (compress_log b ++ [body]))
    else (compressed_body_size, b) in
  let is_body_compressed := (compressed_body_size <? size body)%N in
  let compressed_body_size := if negb is_body_compressed then 0%N else compressed_body_size in
  let out := out <<s "upload " <<u session_ident <<s " " <<i int_of_bool is_body_compressed
                 <<s " " <<u size body <<s " " <<u compressed_body_size in
  let out := out <<s " " <<u progress_client_version <<s " " <<u progress_server_version
                 <<s " " <<u locked_server_version in
  let out := out <<s String "010" "" in
  let out := if is_body_compressed
             then write out (m_compression_buffer b) compressed_body_size
             else write out body (size body) in
  (out, b).

End Compression.

(** *** Server protocol *)

(** [sync::HistoryEntry] and [ServerProtocol::ChangesetInfo], with the fields
    the encoder reads. *)
Record HistoryEntry := mkEntry {
  origin_timestamp : N;
  origin_file_ident : N;
  changeset : string
}.

Record ChangesetInfo := mkInfo {
  server_version : N;
  client_version : N;
  entry : HistoryEntry;
  original_size : N
}.

(** The logger: whether it would log at trace level, and the lines logged.  A
    trace line of the download encoder is kept as its arguments. *)
Record Logger := mkLogger {
  would_log_trace : bool;
  trace_lines : list (N * N * N * N * N * N * string)
}.

Definition insert_single_changeset_download_message (out : OutputBuffer)
    (changeset_info : ChangesetInfo) (logger : Logger) : OutputBuffer * Logger :=
  let entry := entry changeset_info in
  let out := out <<u server_version changeset_info <<s " " <<u client_version changeset_info
                 <<s " " <<u origin_timestamp entry
                 <<s " " <<u origin_file_ident entry <<s " " <<u original_size changeset_info
                 <<s " " <<u size (changeset entry) <<s " " in
  let out := write out (changeset entry) (size (changeset entry)) in
  let logger :=
    if would_log_trace logger then
      mkLogger (would_log_trace logger)
        (trace_lines logger ++
           [(server_version changeset_info, client_version changeset_info,
             origin_timestamp entry, origin_file_ident entry,
             original_size changeset_info, size (changeset entry), changeset entry)])
    else logger in
  (out, logger).

(** *** The wire grammar, as the protocol description words it *)

(** A per-changeset record: five decimal fields, each followed by a space,
    then the changeset bytes. *)
Definition changeset_record (v1 v2 timestamp file_ident : N) (bytes : string) : string :=
  pretty v1 +:+ " " +:+ pretty v2 +:+ " " +:+ pretty timestamp +:+ " " +:+
  pretty file_ident +:+ " " +:+ pretty (size bytes) +:+ " " +:+ bytes.

(** The header line of [bind] and its payload. *)
Definition bind_header (session_ident path_len token_len : N) (need_ident subserver : bool) : string :=
  "bind " +:+ pretty session_ident +:+ " " +:+ pretty path_len +:+ " " +:+ pretty token_len +:+
  " " +:+ (if need_ident then "1" else "0") +:+ " " +:+ (if subserver then "1" else "0") +:+
  String "010" "".

(** The header line of [upload]. *)
Definition upload_header (session_ident : N) (is_body_compressed : bool)
    (uncompressed_body_size compressed_body_size : N)
    (progress_client_version progress_server_version locked_server_version : N) : string :=
  "upload " +:+ pretty session_ident +:+ " " +:+ (if is_body_compressed then "1" else "0") +:+
  " " +:+ pretty uncompressed_body_size +:+ " " +:+ pretty compressed_body_size +:+
  " " +:+ pretty progress_client_version +:+ " " +:+ pretty progress_server_version +:+
  " " +:+ pretty locked_server_version +:+ String "010" "".

(** The per-changeset record of a download body, as the trace line of the
    encoder names its fields: six decimal fields, then the bytes. *)
Definition download_changeset_record (server_version client_version timestamp
    file_ident original_changeset_size : N) (bytes : string) : string :=
  pretty server_version +:+ " " +:+ pretty client_version +:+ " " +:+
  pretty timestamp +:+ " " +:+ pretty file_ident +:+ " " +:+
  pretty original_changeset_size +:+ " " +:+ pretty (size bytes) +:+ " " +:+ bytes.

Definition a_changeset : ChangesetInfo := mkInfo 3 2 (mkEntry 10 1 "abc") 7.

(** *** The other messages of the client *)

Definition make_refresh_message (out : OutputBuffer) (session_ident : N)
    (signed_user_token : string) : OutputBuffer :=
  let out := out <<s "refresh " <<u session_ident <<s " " <<u size signed_user_token
                 <<s String "010" "" in
  write out signed_user_token (size signed_user_token).

Definition make_unbind_message (out : OutputBuffer) (session_ident : N) : OutputBuffer :=
  out <<s "unbind " <<u session_ident <<s String "010" "".

Definition make_mark_message (out : OutputBuffer) (session_ident request_ident : N)
    : OutputBuffer :=
  out <<s "mark " <<u session_ident <<s " " <<u request_ident <<s String "010" "".

Definition make_alloc_message (out : OutputBuffer) (session_ident : N) : OutputBuffer :=
  out <<s "alloc " <<u session_ident <<s String "010" "".

(** *** The other messages of the server *)

(** A line logged at detail level by [make_download_message], kept as its
    arguments. *)
Record DownloadDetail := mkDetail {
  d_download_server_version : N;
  d_download_client_version : N;
  d_latest_server_version : N;
  d_latest_server_version_salt : Z;
  d_upload_client_version : N;
  d_upload_server_version : N;
  d_num_changesets : N;
  d_body_is_compressed : bool;
  d_uncompressed_body_size : N;
  d_compressed_body_size : N
}.

Definition make_download_message (protocol_version : Z) (out : OutputBuffer)
    (session_ident download_server_version download_client_version
     latest_server_version : N) (latest_server_version_salt : Z)
    (upload_client_version upload_server_version downloadable_bytes num_changesets : N)
    (body : string) (uncompressed_body_size compressed_body_size : N)
    (body_is_compressed : bool) : OutputBuffer * DownloadDetail :=
  let out := out <<s "download " <<u session_ident <<s " " <<u download_server_version
                 <<s " " <<u download_client_version <<s " " <<u latest_server_version
                 <<s " " <<i latest_server_version_salt <<s " " <<u upload_client_version
                 <<s " " <<u upload_server_version <<s " " <<u downloadable_bytes
                 <<s " " <<i int_of_bool body_is_compressed
                 <<s " " <<u uncompressed_body_size <<s " " <<u compressed_body_size
                 <<s String "010" "" in
  let body_size := if body_is_compressed then compressed_body_size
                   else uncompressed_body_size in
  let out := write out body body_size in
  (out, mkDetail download_server_version download_client_version latest_server_version
                 latest_server_version_salt upload_client_version upload_server_version
                 num_changesets body_is_compressed uncompressed_body_size
                 compressed_body_size).

Definition make_unbound_message (out : OutputBuffer) (session_ident : N) : OutputBuffer :=
  out <<s "unbound " <<u session_ident <<s String "010" "".

(** [make_error_message]; [error_code] is [int(error_code_2)]. *)
Definition make_error_message (protocol_version : Z) (out : OutputBuffer) (error_code : Z)
    (message : string) (message_size : N) (try_again : bool) (session_ident : N)
    : OutputBuffer :=
  let out := out <<s "error " <<i error_code <<s " " <<u message_size
                 <<s " " <<i int_of_bool try_again <<s " " <<u session_ident
                 <<s String "010" "" in
  write out message message_size.

(** *** The authorization header *)

Definition make_authorization_header (signed_user_token : string) : string :=
  "Bearer " +:+ signed_user_token.

Definition parse_authorization_header (authorization_header : string) : option string :=
  let prefix := "Bearer " in
  if (size authorization_header <? size prefix + 4)%N then None
  else if negb (String.eqb (substring 0 (String.length prefix) authorization_header) prefix)
  then None
  else
    let token_size := (String.length authorization_header - String.length prefix)%nat in
    Some (substring (String.length prefix) token_size authorization_header).

(** The changesets of an upload added one after another. *)
Definition add_changesets (b : UploadMessageBuilder)
    (changesets : list (N * N * N * N * string)) : UploadMessageBuilder :=
  foldl (fun b c => add_changeset b c.1.1.1.1 c.1.1.1.2 c.1.1.2 c.1.2 c.2) b changesets.

(** The position of the first line feed of a message, where its header ends. *)
Definition first_newline (message : string) : option nat :=
  index 0 (String "010" "") message.

(** A compressor for the examples, and bodies of a given size. *)
Definition squeeze (body buffer : string) : N * string := (3%N, "zip").

Fixpoint filler (n : nat) : string :=
  match n with
  | O => ""
  | S n => String "a" (filler n)
  end.

End Codec.

(** ** Ordered maps *)

(** The entries of a [std::map<uint64_t, V>] in iteration order: by increasing key. *)
Definition key_le {V} (a b : N * V) : Prop := (a.1 <= b.1)%N.

Global Instance key_le_dec {V} (a b : N * V) : Decision (key_le a b) :=
  decide (a.1 <= b.1)%N.

Definition map_iter {V} (m : gmap N V) : list (N * V) := merge_sort key_le (map_to_list m).

(** [m.emplace(k, v)]: inserts unless the key is taken. *)
Definition emplace {V} (k : N) (v : V) (m : gmap N V) : gmap N V :=
  match m !! k with
  | Some _ => m
  | None => <[k:=v]> m
  end.

(** [++x] on a 64-bit unsigned counter. *)
Definition incr64 (x : N) : N := ((x + 1) mod 2 ^ 64)%N.

(** A [std::function] handed in by the application: an opaque handle. *)
Definition Callback := N.

Inductive NotifierType := upload | download.

Global Instance NotifierType_eq_dec : EqDecision NotifierType.
Proof. solve_decision. Defined.

(** ** The progress tracker ([SyncProgressNotifier] in [sync_session.cpp]) *)

Module Progress.

Record Progress := mkProgress {
  uploadable : N;
  downloadable : N;
  uploaded : N;
  downloaded : N;
  snapshot_version : N
}.

Record NotifierPackage := mkPackage {
  notifier : Callback;
  captured_transferrable : option N;
  pkg_snapshot_version : N;
  is_streaming : bool;
  is_download : bool
}.

Definition capture (p : NotifierPackage) (v : N) : NotifierPackage :=
  mkPackage (notifier p) (Some v) (pkg_snapshot_version p) (is_streaming p) (is_download p).

(** The closure [create_invocation] returns: [None] is the empty closure
    [[] {}], [Some (f, transferred, transferrable)] is the closure that calls
    [f(transferred, transferrable)]. *)
Definition Invocation := option (Callback * N * N).

(** [NotifierPackage::create_invocation(current_progress, is_expired)]: the
    closure, the package (whose [captured_transferrable] it may set) and the
    value left in the in-out parameter [is_expired]. *)
Definition create_invocation (p : NotifierPackage) (current_progress : Progress)
    (is_expired : bool) : Invocation * NotifierPackage * bool :=
  let finish (p : NotifierPackage) (transferrable : N) :=
    let transferred :=
      if is_download p then downloaded current_progress else uploaded current_progress in
    let is_expired := negb (is_streaming p) && (transferrable <=? transferred)%N in
    (Some (notifier p, transferred, transferrable), p, is_expired) in
  if is_streaming p then
    finish p (if is_download p then downloadable current_progress
              else uploadable current_progress)
  else
    match captured_transferrable p with
    | Some c => finish p c
    | None =>
        if is_download p then
          finish (capture p (downloadable current_progress)) (downloadable current_progress)
        else if (snapshot_version current_progress <? pkg_snapshot_version p)%N then
          (None, p, is_expired)
        else
          finish (capture p (uploadable current_progress)) (uploadable current_progress)
    end.

Record SyncProgressNotifier := mkNotifier {
  m_packages : gmap N NotifierPackage;
  m_current_progress : option Progress;
  m_local_transaction_version : N;
  m_progress_notifier_token : N
}.

(** A call of a user progress callback: [f(transferred, transferrable)].  The
    first component is a ghost tag, the token of the registration the call was
    made for. *)
Definition Call : Type := N * (Callback * N * N).

(** Running the closures collected for the registrations. *)
Definition run_invocations (invocations : list (N * Invocation)) : list Call :=
  omap (fun ti : N * Invocation =>
          match ti.2 with Some c => Some (ti.1, c) | None => None end) invocations.

Definition register_callback (n : SyncProgressNotifier) (f : Callback)
    (direction : NotifierType) (streaming : bool) : N * SyncProgressNotifier * list Call :=
  let token_value := m_progress_notifier_token n in
  let next := incr64 token_value in
  let package := mkPackage f None (m_local_transaction_version n) streaming
                           (bool_decide (direction = download)) in
  match m_current_progress n with
  | None =>
      (token_value,
       mkNotifier (emplace token_value package (m_packages n)) None
                  (m_local_transaction_version n) next, [])
  | Some current =>
      let '(invocation, package, skip_registration) :=
        create_invocation package current false in
      if skip_registration then
        (0%N, mkNotifier (m_packages n) (Some current) (m_local_transaction_version n) next,
         run_invocations [(token_value, invocation)])
      else
        (token_value,
         mkNotifier (emplace token_value package (m_packages n)) (Some current)
                    (m_local_transaction_version n) next,
         run_invocations [(token_value, invocation)])
  end.

Definition unregister_callback (n : SyncProgressNotifier) (token : N) : SyncProgressNotifier :=
  mkNotifier (delete token (m_packages n)) (m_current_progress n)
             (m_local_transaction_version n) (m_progress_notifier_token n).

Definition set_local_version (n : SyncProgressNotifier) (v : N) : SyncProgressNotifier :=
  mkNotifier (m_packages n) (m_current_progress n) v (m_progress_notifier_token n).

(** One turn of the loop of [update] over [m_packages]: the package under the
    iterator is asked for its closure, and is erased or stays, as changed. *)
Definition update_step (current : Progress)
    (acc : gmap N NotifierPackage * list (N * Invocation)) (kp : N * NotifierPackage)
    : gmap N NotifierPackage * list (N * Invocation) :=
  let '(invocation, p, should_delete) := create_invocation kp.2 current false in
  (if should_delete then delete kp.1 acc.1 else <[kp.1:=p]> acc.1,
   acc.2 ++ [(kp.1, invocation)]).

(** The arguments of one [update] call. *)
Record UpdateArgs := mkUpdate {
  u_downloaded : N;
  u_downloadable : N;
  u_uploaded : N;
  u_uploadable : N;
  u_download_version : N;
  u_snapshot_version : N
}.

Definition update (n : SyncProgressNotifier) (u : UpdateArgs)
    : SyncProgressNotifier * list Call :=
  if (u_download_version u =? 0)%N then (n, [])
  else
    let current := mkProgress (u_uploadable u) (u_downloadable u) (u_uploaded u)
                              (u_downloaded u) (u_snapshot_version u) in
    let '(packages, invocations) :=
      foldl (update_step current) (m_packages n, []) (map_iter (m_packages n)) in
    (mkNotifier packages (Some current) (m_local_transaction_version n)
                (m_progress_notifier_token n),
     run_invocations invocations).

(** A sequence of [update] calls: the calls made to user callbacks, in order. *)
Fixpoint run_updates (n : SyncProgressNotifier) (us : list UpdateArgs)
    : SyncProgressNotifier * list Call :=
  match us with
  | [] => (n, [])
  | u :: us =>
      let '(n1, calls1) := update n u in
      let '(n2, calls2) := run_updates n1 us in
      (n2, calls1 ++ calls2)
  end.

(** The (transferred, transferrable) pairs reported to one registration. *)
Definition calls_of (token : N) (calls : list Call) : list (N * N) :=
  omap (fun c : Call => if decide (c.1 = token) then Some (c.2.1.2, c.2.2) else None) calls.




(** A notifier with one streaming download registration, and two updates of
    which the second reports less than the first. *)
Definition registered_streaming : SyncProgressNotifier :=
  mkNotifier {[ 1%N := mkPackage 100%N None 0 true true ]} None 0 2.

Definition shrinking_download : list UpdateArgs :=
  [mkUpdate 5 9 0 0 1 1; mkUpdate 3 9 0 0 1 1].

End Progress.

(** ** The session state machine ([SyncSession] in [sync_session.cpp]) *)

Module Session.

Inductive State := Active | Dying | Inactive | WaitingForAccessToken.
Inductive ConnectionState := Disconnected | Connecting | Connected.
Inductive SyncSessionStopPolicy := Immediately | LiveIndefinitely | AfterChangesUploaded.
Inductive ClientResyncMode := Manual | DiscardLocal | Recover.

Global Instance State_eq_dec : EqDecision State.
Proof. solve_decision. Defined.
Global Instance ConnectionState_eq_dec : EqDecision ConnectionState.
Proof. solve_decision. Defined.
Global Instance ClientResyncMode_eq_dec : EqDecision ClientResyncMode.
Proof. solve_decision. Defined.

(** The enumerators of [realm::sync::ProtocolError] that the switch of
    [handle_error] names. *)
Module ProtocolError.
Inductive t :=
  | connection_closed | other_error | unknown_message | bad_syntax | limits_exceeded
  | wrong_protocol_version | bad_session_ident | reuse_of_session_ident
  | bound_in_other_session | bad_message_order | bad_client_version | illegal_realm_path
  | no_such_realm | bad_changeset | bad_changeset_header_syntax | bad_changeset_size
  | bad_changesets | bad_decompression | unsupported_session_feature
  | transact_before_upload | partial_sync_disabled | user_mismatch | too_many_sessions
  | session_closed | other_session_error | disabled_session
  | token_expired | bad_authentication | permission_denied
  | bad_client_file | bad_client_file_ident | bad_origin_file_ident | bad_server_file_ident
  | bad_server_version | client_file_blacklisted | diverging_histories | server_file_deleted
  | user_blacklisted | client_file_expired | invalid_schema_change.
End ProtocolError.

(** The enumerators of [realm::sync::Client::Error] that the switch names. *)
Module ClientError.
Inductive t :=
  | connection_closed | pong_timeout
  | bad_changeset | bad_changeset_header_syntax | bad_changeset_size | bad_client_file_ident
  | bad_client_file_ident_salt | bad_client_version | bad_compression | bad_error_code
  | bad_file_ident | bad_message_order | bad_origin_file_ident | bad_progress
  | bad_protocol_from_server | bad_request_ident | bad_server_version | bad_session_ident
  | bad_state_message | bad_syntax | bad_timestamp | client_too_new_for_server
  | client_too_old_for_server | connect_timeout | limits_exceeded | protocol_mismatch
  | ssl_server_cert_rejected | missing_protocol_feature | unknown_message
  | http_tunnel_failed.
End ClientError.

(** A [std::error_code].  In the two sync categories the value is an
    enumerator, or [None] for a value that is none of them.  The other named
    codes are the ones the file compares against or makes;
    [other_error_code] is any code that is none of the above. *)
Inductive error_code :=
  | protocol_error_code (e : option ProtocolError.t)
  | client_error_code (e : option ClientError.t)
  | websocket_bad_response_401_unauthorized
  | operation_aborted
  | app_deallocated
  | no_error
  | other_error_code (category : string) (value : Z).

Record SyncError := mkSyncError {
  error_code_of : error_code;
  message : string;
  is_fatal : bool;
  user_info : gmap string string;
  is_unrecognized_by_client : bool
}.

(** The constructor [SyncError{error_code, message, is_fatal}]. *)
Definition make_SyncError (ec : error_code) (msg : string) (fatal : bool) : SyncError :=
  mkSyncError ec msg fatal ∅ false.

(** [app::AppError], as [handle_refresh] reads it. *)
Record AppError := mkAppError {
  app_error_code : error_code;
  http_status_code : option Z
}.

(** The user object, as the session reads it.  [access_token_refresh_required]
    and [refresh_token_expired] stand for the results of
    [user->access_token_refresh_required()] and of the comparison of
    [refresh_jwt().expires_at] with the clock. *)
Record SyncUser := mkUser {
  identity : string;
  access_token : string;
  access_token_refresh_required : bool;
  refresh_token_expired : bool;
  is_logged_in : bool
}.

Record SyncConfig := mkConfig {
  user : option SyncUser;
  partition_value : string;
  stop_policy : SyncSessionStopPolicy;
  error_handler : option Callback;
  client_resync_mode : ClientResyncMode;
  cancel_waits_on_nonfatal_error : bool
}.

(** The waiters the session registers with its [sync::Session]: the closure
    of [Dying::enter_state], which holds a death count, and the closure of
    [add_completion_callback], which holds a request id. *)
Inductive Waiter := DyingWaiter (death_count : N) | CompletionWaiter (id : N).

(** The calls a [sync::Session] receives from the session that owns it. *)
Inductive WireCall :=
  | bind
  | refresh (signed_access_token : string)
  | async_wait_for_upload_completion (w : Waiter)
  | async_wait_for_download_completion (w : Waiter)
  | wire_nonsync_transact_notify (version : N)
  | cancel_reconnect_delay.

(** [sync::Session::Config::ClientReset]; [recover_local_changes] is [None]
    where the code leaves the member at its default. *)
Record ClientReset := mkClientReset {
  metadata_dir : string;
  recover_local_changes : option bool
}.

(** The underlying [sync::Session]: what it was made with, and the calls made
    on it since. *)
Record WireSession := mkWire {
  ws_realm_path : string;
  ws_signed_user_token : string;
  ws_realm_identifier : string;
  ws_client_reset_config : option ClientReset;
  ws_calls : list WireCall
}.

Inductive FileAction := DeleteRealm | BackUpThenDeleteRealm.

(** What the session does to its collaborators and to the callbacks of the
    application, in order. *)
Inductive Event :=
  | EvCompletion (id : N) (direction : NotifierType) (callback : Callback) (ec : error_code)
  | EvErrorHandler (handler : Callback) (error : SyncError)
  | EvConnectionChange (old_state new_state : ConnectionState)
  | EvUnregisterSession (path : string)
  | EvRefreshCustomData
  | EvUserInvalidate
  | EvUserLogOut
  | EvFileAction (original_path partition identity : string) (action : FileAction)
                 (recovery_path : string)
  | EvTryMakeDir (dir : string)
  | EvProgress (call : Progress.Call)
  | EvSleep (milliseconds : N)
  | EvWaitForSessionTerminations.

(** Selecting events of a trace. *)
Definition is_completion (e : Event) : bool :=
  match e with EvCompletion _ _ _ _ => true | _ => false end.

Definition is_completion_of (id : N) (e : Event) : bool :=
  match e with EvCompletion id' _ _ _ => bool_decide (id' = id) | _ => false end.

Definition is_error_handler_call (e : Event) : bool :=
  match e with EvErrorHandler _ _ => true | _ => false end.

(** The number of calls of the error handler of the application in a trace. *)
Definition handler_calls (evs : list Event) : nat :=
  length (List.filter is_error_handler_call evs).

(** What is outside the session: the route of the sync manager, whether
    [decompose_server_url] accepts it, and whether [REALM_ASSERT] is compiled
    in ([REALM_ASSERT_RELEASE] always is). *)
Record Environment := mkEnv {
  sync_route : string;
  server_url_ok : bool;
  debug_assertions : bool
}.

(** The sync manager that [m_sync_manager] points to; what it answers when
    asked (its route) is in the environment. *)
Inductive SyncManager := the_sync_manager.

(** The members of [SyncSession], followed by [lock_owned], the state of the
    [std::unique_lock] on [m_state_mutex] in scope, by the trace [events] and
    by the environment.  [m_sync_manager] is [None] where the pointer is
    null. *)
Record SyncSession := mkSession {
  m_state : State;
  m_connection_state : ConnectionState;
  m_config : SyncConfig;
  m_force_client_resync : bool;
  m_realm_path : string;
  m_session : option WireSession;
  m_completion_callbacks : gmap N (NotifierType * Callback);
  m_completion_request_counter : N;
  m_death_count : N;
  m_server_url : string;
  m_progress_notifier : Progress.SyncProgressNotifier;
  m_sync_manager : option SyncManager;
  lock_owned : bool;
  events : list Event;
  env : Environment
}.

Definition set_m_state (v : State) (s : SyncSession) : SyncSession :=
  mkSession v (m_connection_state s) (m_config s) (m_force_client_resync s)
    (m_realm_path s) (m_session s) (m_completion_callbacks s)
    (m_completion_request_counter s) (m_death_count s) (m_server_url s)
    (m_progress_notifier s) (m_sync_manager s) (lock_owned s) (events s) (env s).

Definition set_m_connection_state (v : ConnectionState) (s : SyncSession) : SyncSession :=
  mkSession (m_state s) v (m_config s) (m_force_client_resync s) (m_realm_path s)
    (m_session s) (m_completion_callbacks s) (m_completion_request_counter s)
    (m_death_count s) (m_server_url s) (m_progress_notifier s) (m_sync_manager s)
    (lock_owned s) (events s) (env s).

Definition set_m_config (v : SyncConfig) (s : SyncSession) : SyncSession :=
  mkSession (m_state s) (m_connection_state s) v (m_force_client_resync s) (m_realm_path
    s) (m_session s) (m_completion_callbacks s) (m_completion_request_counter s)
    (m_death_count s) (m_server_url s) (m_progress_notifier s) (m_sync_manager s)
    (lock_owned s) (events s) (env s).

Definition set_m_force_client_resync (v : bool) (s : SyncSession) : SyncSession :=
  mkSession (m_state s) (m_connection_state s) (m_config s) v (m_realm_path s)
    (m_session s) (m_completion_callbacks s) (m_completion_request_counter s)
    (m_death_count s) (m_server_url s) (m_progress_notifier s) (m_sync_manager s)
    (lock_owned s) (events s) (env s).

Definition set_m_session (v : option WireSession) (s : SyncSession) : SyncSession :=
  mkSession (m_state s) (m_connection_state s) (m_config s) (m_force_client_resync s)
    (m_realm_path s) v (m_completion_callbacks s) (m_completion_request_counter s)
    (m_death_count s) (m_server_url s) (m_progress_notifier s) (m_sync_manager s)
    (lock_owned s) (events s) (env s).

Definition set_m_completion_callbacks (v : gmap N (NotifierType * Callback)) (s : SyncSession) : SyncSession :=
  mkSession (m_state s) (m_connection_state s) (m_config s) (m_force_client_resync s)
    (m_realm_path s) (m_session s) v (m_completion_request_counter s) (m_death_count s)
    (m_server_url s) (m_progress_notifier s) (m_sync_manager s) (lock_owned s) (events
    s) (env s).

Definition set_m_completion_request_counter (v : N) (s : SyncSession) : SyncSession :=
  mkSession (m_state s) (m_connection_state s) (m_config s) (m_force_client_resync s)
    (m_realm_path s) (m_session s) (m_completion_callbacks s) v (m_death_count s)
    (m_server_url s) (m_progress_notifier s) (m_sync_manager s) (lock_owned s) (events
    s) (env s).

Definition set_m_death_count (v : N) (s : SyncSession) : SyncSession :=
  mkSession (m_state s) (m_connection_state s) (m_config s) (m_force_client_resync s)
    (m_realm_path s) (m_session s) (m_completion_callbacks s)
    (m_completion_request_counter s) v (m_server_url s) (m_progress_notifier s)
    (m_sync_manager s) (lock_owned s) (events s) (env s).

Definition set_m_server_url (v : string) (s : SyncSession) : SyncSession :=
  mkSession (m_state s) (m_connection_state s) (m_config s) (m_force_client_resync s)
    (m_realm_path s) (m_session s) (m_completion_callbacks s)
    (m_completion_request_counter s) (m_death_count s) v (m_progress_notifier s)
    (m_sync_manager s) (lock_owned s) (events s) (env s).

Definition set_m_progress_notifier (v : Progress.SyncProgressNotifier) (s : SyncSession) : SyncSession :=
  mkSession (m_state s) (m_connection_state s) (m_config s) (m_force_client_resync s)
    (m_realm_path s) (m_session s) (m_completion_callbacks s)
    (m_completion_request_counter s) (m_death_count s) (m_server_url s) v
    (m_sync_manager s) (lock_owned s) (events s) (env s).

Definition set_m_sync_manager (v : option SyncManager) (s : SyncSession) : SyncSession :=
  mkSession (m_state s) (m_connection_state s) (m_config s) (m_force_client_resync s)
    (m_realm_path s) (m_session s) (m_completion_callbacks s)
    (m_completion_request_counter s) (m_death_count s) (m_server_url s)
    (m_progress_notifier s) v (lock_owned s) (events s) (env s).

Definition set_lock_owned (v : bool) (s : SyncSession) : SyncSession :=
  mkSession (m_state s) (m_connection_state s) (m_config s) (m_force_client_resync s)
    (m_realm_path s) (m_session s) (m_completion_callbacks s)
    (m_completion_request_counter s) (m_death_count s) (m_server_url s)
    (m_progress_notifier s) (m_sync_manager s) v (events s) (env s).

Definition set_events (v : list Event) (s : SyncSession) : SyncSession :=
  mkSession (m_state s) (m_connection_state s) (m_config s) (m_force_client_resync s)
    (m_realm_path s) (m_session s) (m_completion_callbacks s)
    (m_completion_request_counter s) (m_death_count s) (m_server_url s)
    (m_progress_notifier s) (m_sync_manager s) (lock_owned s) v (env s).

Definition set_env (v : Environment) (s : SyncSession) : SyncSession :=
  mkSession (m_state s) (m_connection_state s) (m_config s) (m_force_client_resync s)
    (m_realm_path s) (m_session s) (m_completion_callbacks s)
    (m_completion_request_counter s) (m_death_count s) (m_server_url s)
    (m_progress_notifier s) (m_sync_manager s) (lock_owned s) (events s) v.

(** *** Outcomes *)

Inductive AbortReason := assertion_failed | null_dereference.
Inductive Exception := BadServerUrl.

(** A call returns, terminates the process, or throws; the session is as the
    call left it. *)
Inductive Outcome (A : Type) :=
  | Ok (a : A) (s : SyncSession)
  | Aborted (r : AbortReason) (s : SyncSession)
  | Thrown (ex : Exception) (s : SyncSession).
Arguments Ok {A} a s.
Arguments Aborted {A} r s.
Arguments Thrown {A} ex s.

Definition final {A} (o : Outcome A) : SyncSession :=
  match o with Ok _ s | Aborted _ s | Thrown _ s => s end.

Definition M (A : Type) : Type := SyncSession -> Outcome A.

Definition ret {A} (a : A) : M A := fun s => Ok a s.

Definition bind_m {A B} (m : M A) (k : A -> M B) : M B := fun s =>
  match m s with
  | Ok a s' => k a s'
  | Aborted r s' => Aborted r s'
  | Thrown ex s' => Thrown ex s'
  end.

Global Instance M_ret : MRet M := @ret.
Global Instance M_bind : MBind M := fun A B k m => bind_m m k.

Definition get : M SyncSession := fun s => Ok s s.
Definition modify (f : SyncSession -> SyncSession) : M unit := fun s => Ok tt (f s).
Definition emit (e : Event) : M unit := modify (fun s => set_events (events s ++ [e]) s).
Definition abort {A} (r : AbortReason) : M A := fun s => Aborted r s.
Definition throw {A} (ex : Exception) : M A := fun s => Thrown ex s.
Definition when (c : bool) (m : M unit) : M unit := if c then m else ret tt.

Fixpoint for_each {X} (l : list X) (body : X -> M unit) : M unit :=
  match l with
  | [] => ret tt
  | x :: l => body x ;; for_each l body
  end.

(** [REALM_ASSERT(c)], compiled in or out. *)
Definition REALM_ASSERT (c : SyncSession -> bool) : M unit := fun s =>
  if c s then Ok tt s
  else if debug_assertions (env s) then Aborted assertion_failed s
  else Ok tt s.

(** [REALM_ASSERT_RELEASE(c)]. *)
Definition REALM_ASSERT_RELEASE (c : SyncSession -> bool) : M unit := fun s =>
  if c s then Ok tt s else Aborted assertion_failed s.

(** A block that opens with [std::unique_lock<std::mutex> lock(m_state_mutex)]:
    the lock is taken, and released when the block is left, also by an
    exception. *)
Definition scoped_lock {A} (body : M A) : M A := fun s =>
  match body (set_lock_owned true s) with
  | Ok a s' => Ok a (set_lock_owned false s')
  | Aborted r s' => Aborted r s'
  | Thrown ex s' => Thrown ex (set_lock_owned false s')
  end.

(** [lock.unlock()]. *)
Definition unlock : M unit := modify (set_lock_owned false).

Arguments ret {A} a s /.
Arguments bind_m {A B} m k s /.
Arguments get s /.
Arguments modify f s /.
Arguments emit e s /.
Arguments abort {A} r s /.
Arguments throw {A} ex s /.
Arguments when c m /.
Arguments REALM_ASSERT c s /.
Arguments REALM_ASSERT_RELEASE c s /.
Arguments scoped_lock {A} body s /.
Arguments unlock s /.

(** What the file reads of declarations that lie outside it:
    [SyncError::is_client_reset_requested()], the two keys of
    [SyncError::user_info], and the path that [get_recovery_file_path]
    reserves in the file system. *)
Class Externals := {
  is_client_reset_requested : SyncError -> bool;
  c_original_file_path_key : string;
  c_recovery_file_path_key : string;
  recovery_file_path : SyncSession -> string
}.

Inductive NextStateAfterError := NS_none | NS_inactive | NS_error.

(** How the classification of [handle_error] ends: by [return], or by
    reaching the delivery with a next state and the annotated error. *)
Inductive Classified :=
  | Return
  | Continue (next_state : NextStateAfterError) (error : SyncError).

Section WithExternals.
Context `{Externals}.

(** *** Helpers of the session *)

(** [m_session->call(...)]. *)
Definition wire_call (c : WireCall) : M unit :=
  s ← get;
  match m_session s with
  | Some ws =>
      modify (set_m_session
                (Some (mkWire (ws_realm_path ws) (ws_signed_user_token ws)
                              (ws_realm_identifier ws) (ws_client_reset_config ws)
                              (ws_calls ws ++ [c]))))
  | None => abort null_dereference
  end.

(** [if (session.m_session) session.m_session->refresh(token)]. *)
Definition refresh_if_session (signed_access_token : string) : M unit :=
  s ← get;
  match m_session s with
  | Some _ => wire_call (refresh signed_access_token)
  | None => mret tt
  end.

(** [m_sync_manager->...]: the pointer is dereferenced. *)
Definition sync_manager_call : M unit :=
  s ← get;
  match m_sync_manager s with
  | Some _ => mret tt
  | None => abort null_dereference
  end.

Definition unregister : M unit :=
  REALM_ASSERT lock_owned ;;
  REALM_ASSERT (fun s => bool_decide (m_state s = Inactive)) ;;
  unlock ;;
  sync_manager_call ;;
  s ← get;
  emit (EvUnregisterSession (m_realm_path s)).

Definition cancel_pending_waits (error : error_code) : M unit :=
  s ← get;
  let callbacks := m_completion_callbacks s in
  modify (set_m_completion_callbacks ∅) ;;
  unlock ;;
  for_each (map_iter callbacks)
           (fun w => emit (EvCompletion w.1 w.2.1 w.2.2 error)).

Definition do_create_sync_session : M unit :=
  s ← get;
  match user (m_config s) with
  | None => abort null_dereference
  | Some u =>
      let signed_user_token := access_token u in
      let realm_identifier := partition_value (m_config s) in
      sync_manager_call ;;
      if negb (server_url_ok (env s)) then throw BadServerUrl
      else
        modify (set_m_server_url (sync_route (env s))) ;;
        client_reset_config ←
          (if m_force_client_resync s then
             let metadata_dir := m_realm_path s +:+ ".resync" in
             emit (EvTryMakeDir metadata_dir) ;;
             mret (Some (mkClientReset metadata_dir
                           (if bool_decide (client_resync_mode (m_config s) ≠ Recover)
                            then Some false else None)))
           else mret None);
        modify (set_m_session
                  (Some (mkWire (m_realm_path s) signed_user_token realm_identifier
                                client_reset_config [])))
  end.

Definition create_sync_session : M unit :=
  s ← get;
  match m_session s with
  | Some _ => mret tt
  | None =>
      REALM_ASSERT (fun s => bool_decide (is_Some (user (m_config s)))) ;;
      do_create_sync_session
  end.

Definition initiate_access_token_refresh : M unit :=
  s ← get;
  match user (m_config s) with
  | Some _ => emit EvRefreshCustomData
  | None => mret tt
  end.

Definition add_completion_callback (callback : Callback) (direction : NotifierType)
    : M unit :=
  let is_download := bool_decide (direction = download) in
  modify (fun s => set_m_completion_request_counter
                     (incr64 (m_completion_request_counter s)) s) ;;
  modify (fun s => set_m_completion_callbacks
                     (emplace (m_completion_request_counter s) (direction, callback)
                              (m_completion_callbacks s)) s) ;;
  s ← get;
  match m_session s with
  | None => mret tt
  | Some _ =>
      let id := m_completion_request_counter s in
      wire_call (if is_download
                 then async_wait_for_download_completion (CompletionWaiter id)
                 else async_wait_for_upload_completion (CompletionWaiter id))
  end.

(** *** The states *)

(** The body of [advance_state] for a state whose [enter_state] is given. *)
Definition advance_to (state : State) (enter_state : M unit) : M unit :=
  REALM_ASSERT lock_owned ;;
  REALM_ASSERT (fun s => bool_decide (state ≠ m_state s)) ;;
  modify (set_m_state state) ;;
  enter_state.

Definition Inactive_enter_state : M unit :=
  s ← get;
  let old_state := m_connection_state s in
  let new_state := Disconnected in
  modify (set_m_connection_state new_state) ;;
  let waits := m_completion_callbacks s in
  modify (set_m_completion_callbacks ∅) ;;
  modify (set_m_session None) ;;
  unregister ;;
  s' ← get;
  when (bool_decide (old_state ≠ new_state))
       (emit (EvConnectionChange old_state (m_connection_state s'))) ;;
  for_each (map_iter waits)
           (fun w => emit (EvCompletion w.1 w.2.1 w.2.2 operation_aborted)).

Definition WaitingForAccessToken_enter_state : M unit := mret tt.

Definition Dying_enter_state : M unit :=
  s ← get;
  match m_session s with
  | None => advance_to Inactive Inactive_enter_state
  | Some _ =>
      let current_death_count := incr64 (m_death_count s) in
      modify (set_m_death_count current_death_count) ;;
      wire_call (async_wait_for_upload_completion (DyingWaiter current_death_count))
  end.

Definition Active_enter_state : M unit :=
  s ← get;
  if match user (m_config s) with
     | Some u => access_token_refresh_required u
     | None => false
     end
  then
    advance_to WaitingForAccessToken WaitingForAccessToken_enter_state ;;
    REALM_ASSERT lock_owned ;;
    unlock ;;
    initiate_access_token_refresh
  else
    (match m_session s with
     | None => create_sync_session ;; wire_call bind
     | Some _ => mret tt
     end) ;;
    s ← get;
    let callbacks_to_register := m_completion_callbacks s in
    modify (set_m_completion_callbacks ∅) ;;
    for_each (map_iter callbacks_to_register)
             (fun w => add_completion_callback w.2.2 w.2.1).

(** [SyncSession::advance_state].  An [enter_state] calls [advance_state]
    again only towards [Inactive] and [WaitingForAccessToken], whose
    [enter_state] advance no further: the recursion is unfolded once. *)
Definition advance_state (state : State) : M unit :=
  advance_to state
    match state with
    | Active => Active_enter_state
    | Dying => Dying_enter_state
    | Inactive => Inactive_enter_state
    | WaitingForAccessToken => WaitingForAccessToken_enter_state
    end.

(** *** The hooks of the states, dispatched on [m_state] *)

Definition state_log_out : M unit :=
  s ← get;
  match m_state s with
  | Active | Dying | WaitingForAccessToken => advance_state Inactive
  | Inactive => mret tt
  end.

Definition state_close : M unit :=
  s ← get;
  match m_state s with
  | Active =>
      match stop_policy (m_config s) with
      | Immediately => advance_state Inactive
      | LiveIndefinitely => mret tt
      | AfterChangesUploaded => advance_state Dying
      end
  | Dying => mret tt
  | Inactive => unregister
  | WaitingForAccessToken => advance_state Inactive
  end.

Definition state_revive_if_needed : M bool :=
  s ← get;
  match m_state s with
  | Dying => advance_state Active ;; mret false
  | Inactive => advance_state Active ;; mret true
  | Active | WaitingForAccessToken => mret false
  end.

Definition state_handle_error (error : SyncError) : M unit :=
  s ← get;
  match m_state s with
  | Dying => when (is_fatal error) (advance_state Inactive)
  | Active | Inactive | WaitingForAccessToken => mret tt
  end.

Definition state_shutdown_and_wait : M unit :=
  s ← get;
  match m_state s with
  | Active | Dying => advance_state Inactive
  | Inactive | WaitingForAccessToken => mret tt
  end.

Definition state_access_token_updated (signed_access_token : string) : M unit :=
  s ← get;
  match m_state s with
  | Active | Dying | Inactive => refresh_if_session signed_access_token
  | WaitingForAccessToken =>
      refresh_if_session signed_access_token ;;
      advance_state Active
  end.

Definition state_nonsync_transact_notify (version : N) : M unit :=
  s ← get;
  match m_state s with
  | Active => wire_call (wire_nonsync_transact_notify version)
  | WaitingForAccessToken =>
      match m_session s with
      | Some _ => wire_call (wire_nonsync_transact_notify version)
      | None => mret tt
      end
  | Dying | Inactive => mret tt
  end.

Definition state_handle_reconnect : M unit :=
  s ← get;
  match m_state s with
  | Active => wire_call cancel_reconnect_delay
  | Dying | Inactive | WaitingForAccessToken => mret tt
  end.

(** *** The operations of the session *)

Definition revive_if_needed : M unit := scoped_lock (state_revive_if_needed ;; mret tt).
Definition handle_reconnect : M unit := scoped_lock state_handle_reconnect.
Definition log_out : M unit := scoped_lock state_log_out.
Definition close : M unit := scoped_lock state_close.

Definition shutdown_and_wait : M unit :=
  scoped_lock state_shutdown_and_wait ;;
  emit EvWaitForSessionTerminations.

Definition update_access_token (signed_token : string) : M unit :=
  scoped_lock (state_access_token_updated signed_token).

Definition detach_from_sync_manager : M unit :=
  shutdown_and_wait ;;
  scoped_lock (modify (set_m_sync_manager None)).

Definition nonsync_transact_notify (version : N) : M unit :=
  modify (fun s => set_m_progress_notifier
                     (Progress.set_local_version (m_progress_notifier s) version) s) ;;
  scoped_lock (state_nonsync_transact_notify version).

Definition wait_for_upload_completion (callback : Callback) : M unit :=
  scoped_lock (add_completion_callback callback upload).

Definition wait_for_download_completion (callback : Callback) : M unit :=
  scoped_lock (add_completion_callback callback download).

Definition handle_progress_update (u : Progress.UpdateArgs) : M unit :=
  s ← get;
  let '(n, calls) := Progress.update (m_progress_notifier s) u in
  modify (set_m_progress_notifier n) ;;
  for_each calls (fun c => emit (EvProgress c)).

(** [did_drop_external_reference]; [expired] is whether the weak reference
    [m_external_reference] has expired. *)
Definition did_drop_external_reference (expired : bool) : M unit :=
  scoped_lock (if negb expired then mret tt else state_close).

(** [update_configuration].  Its loop advances to [Inactive] until the state
    is found to be [Inactive] when the lock is taken; nothing else runs in
    between here, so the second turn finds it so. *)
Definition update_configuration (new_config : SyncConfig) : M unit :=
  s ← get;
  when (bool_decide (m_state s ≠ Inactive)) (scoped_lock (advance_state Inactive)) ;;
  scoped_lock (
    REALM_ASSERT (fun s => bool_decide (m_state s = Inactive)) ;;
    REALM_ASSERT (fun s => bool_decide (m_session s = None)) ;;
    REALM_ASSERT (fun s => bool_decide (identity <$> user (m_config s)
                                        = identity <$> user new_config)) ;;
    modify (set_m_config new_config)) ;;
  revive_if_needed.

(** *** Error handling *)

Definition set_user_info (k v : string) (error : SyncError) : SyncError :=
  mkSyncError (error_code_of error) (message error) (is_fatal error)
              (<[k:=v]> (user_info error)) (is_unrecognized_by_client error).

Definition set_unrecognized (error : SyncError) : SyncError :=
  mkSyncError (error_code_of error) (message error) (is_fatal error)
              (user_info error) true.

(** [update_error_and_mark_file_for_deletion]; the update of the metadata is
    taken to run the closure it is given. *)
Definition update_error_and_mark_file_for_deletion (error : SyncError)
    (should_backup : bool) : M SyncError :=
  s ← get;
  let original_path := m_realm_path s in
  let error := set_user_info c_original_file_path_key original_path error in
  let recovery_path := if should_backup then recovery_file_path s else "" in
  let error := if should_backup
               then set_user_info c_recovery_file_path_key recovery_path error
               else error in
  let action := if should_backup then BackUpThenDeleteRealm else DeleteRealm in
  sync_manager_call ;;
  match user (m_config s) with
  | None => abort null_dereference
  | Some u =>
      emit (EvFileAction original_path (partition_value (m_config s)) (identity u)
                         action recovery_path) ;;
      mret error
  end.

(** The case [ProtocolError::bad_authentication]. *)
Definition classify_bad_authentication (error : SyncError) : M Classified :=
  user_to_invalidate ← scoped_lock (
     s ← get;
     cancel_pending_waits (error_code_of error) ;;
     mret (user (m_config s)));
  when (bool_decide (is_Some user_to_invalidate)) (emit EvUserInvalidate) ;;
  mret (Continue NS_none error).

(** The switch over [ProtocolError]; [None] is a value with no [case]. *)
Definition classify_protocol_error (next_state : NextStateAfterError) (error : SyncError)
    (e : option ProtocolError.t) : M Classified :=
  match e with
  | Some ProtocolError.connection_closed
  | Some ProtocolError.other_error => mret Return
  | Some ProtocolError.unknown_message
  | Some ProtocolError.bad_syntax
  | Some ProtocolError.limits_exceeded
  | Some ProtocolError.wrong_protocol_version
  | Some ProtocolError.bad_session_ident
  | Some ProtocolError.reuse_of_session_ident
  | Some ProtocolError.bound_in_other_session
  | Some ProtocolError.bad_message_order
  | Some ProtocolError.bad_client_version
  | Some ProtocolError.illegal_realm_path
  | Some ProtocolError.no_such_realm
  | Some ProtocolError.bad_changeset
  | Some ProtocolError.bad_changeset_header_syntax
  | Some ProtocolError.bad_changeset_size
  | Some ProtocolError.bad_changesets
  | Some ProtocolError.bad_decompression
  | Some ProtocolError.unsupported_session_feature
  | Some ProtocolError.transact_before_upload
  | Some ProtocolError.partial_sync_disabled
  | Some ProtocolError.user_mismatch
  | Some ProtocolError.too_many_sessions => mret (Continue next_state error)
  | Some ProtocolError.session_closed
  | Some ProtocolError.other_session_error
  | Some ProtocolError.disabled_session => mret Return
  | Some ProtocolError.token_expired =>
      REALM_ASSERT_RELEASE (fun _ => false) ;;
      classify_bad_authentication error
  | Some ProtocolError.bad_authentication => classify_bad_authentication error
  | Some ProtocolError.permission_denied =>
      error ← update_error_and_mark_file_for_deletion error false;
      mret (Continue NS_inactive error)
  | Some ProtocolError.bad_client_file
  | Some ProtocolError.bad_client_file_ident
  | Some ProtocolError.bad_origin_file_ident
  | Some ProtocolError.bad_server_file_ident
  | Some ProtocolError.bad_server_version
  | Some ProtocolError.client_file_blacklisted
  | Some ProtocolError.diverging_histories
  | Some ProtocolError.server_file_deleted
  | Some ProtocolError.user_blacklisted
  | Some ProtocolError.client_file_expired
  | Some ProtocolError.invalid_schema_change =>
      error ← update_error_and_mark_file_for_deletion error true;
      mret (Continue NS_inactive error)
  | None => mret (Continue next_state error)
  end.

(** The switch over [Client::Error]. *)
Definition classify_client_error (next_state : NextStateAfterError) (error : SyncError)
    (e : option ClientError.t) : M Classified :=
  match e with
  | Some ClientError.connection_closed
  | Some ClientError.pong_timeout => mret Return
  | Some _ | None => mret (Continue next_state error)
  end.

(** The classification by category: lines 515 to 642 of [handle_error]. *)
Definition classify (next_state : NextStateAfterError) (error : SyncError) : M Classified :=
  match error_code_of error with
  | protocol_error_code e => classify_protocol_error next_state error e
  | client_error_code e => classify_client_error next_state error e
  | ec =>
      s ← get;
      match ec, user (m_config s) with
      | websocket_bad_response_401_unauthorized, Some _ =>
          emit EvRefreshCustomData ;; mret Return
      | _, _ => mret (Continue next_state (set_unrecognized error))
      end
  end.

(** The block of [handle_error] for [DiscardLocal] and [Recover]. *)
Definition handle_error_client_resync : M unit :=
  scoped_lock (
    modify (set_m_force_client_resync true) ;;
    s ← get;
    let callbacks := m_completion_callbacks s in
    modify (set_m_completion_callbacks ∅) ;;
    advance_state Inactive ;;
    modify (set_m_completion_callbacks callbacks)) ;;
  revive_if_needed.

(** [handle_error] up to the end of the classification (line 642). *)
Definition handle_error_classification (error : SyncError) : M Classified :=
  let next_state := if is_fatal error then NS_error else NS_none in
  scoped_lock (state_handle_error error) ;;
  s ← get;
  if is_client_reset_requested error
     && bool_decide (client_resync_mode (m_config s) ≠ Manual)
  then handle_error_client_resync ;; mret Return
  else classify next_state error.

(** [handle_error] from line 644: the check of the state, the next state, and
    the error handler of the application. *)
Definition handle_error_delivery (next_state : NextStateAfterError) (error : SyncError)
    : M unit :=
  s ← get;
  if bool_decide (m_state s = Inactive) then mret tt
  else
    match next_state with
    | NS_none =>
        when (cancel_waits_on_nonfatal_error (m_config s))
             (scoped_lock (cancel_pending_waits (error_code_of error)))
    | NS_inactive =>
        when (is_client_reset_requested error)
             (scoped_lock (cancel_pending_waits (error_code_of error))) ;;
        scoped_lock (advance_state Inactive)
    | NS_error => scoped_lock (cancel_pending_waits (error_code_of error))
    end ;;
    s ← get;
    match error_handler (m_config s) with
    | Some h => emit (EvErrorHandler h error)
    | None => mret tt
    end.

Definition handle_error (error : SyncError) : M unit :=
  c ← handle_error_classification error;
  match c with
  | Return => mret tt
  | Continue next_state error => handle_error_delivery next_state error
  end.

(** *** The closures the session hands out *)

(** The closure [handle_refresh(session)] applied to the result of a refresh. *)
Definition handle_refresh (error : option AppError) : M unit :=
  s ← get;
  let ec := match error with Some e => app_error_code e | None => no_error end in
  match user (m_config s) with
  | None => scoped_lock (cancel_pending_waits ec)
  | Some u =>
      if refresh_token_expired u then
        scoped_lock (cancel_pending_waits ec) ;;
        match error_handler (m_config s) with
        | Some h =>
            emit (EvErrorHandler h
                    (make_SyncError (protocol_error_code (Some ProtocolError.bad_authentication))
                                    "expired refresh token" true))
        | None => mret tt
        end
      else
        match error with
        | Some e =>
            if match app_error_code e with app_deallocated => true | _ => false end
            then mret tt
            else if bool_decide (http_status_code e = Some 401%Z
                                 ∨ http_status_code e = Some 403%Z) then
              scoped_lock (
                cancel_pending_waits (app_error_code e) ;;
                when (is_logged_in u) (emit EvUserLogOut) ;;
                match error_handler (m_config s) with
                | Some h =>
                    emit (EvErrorHandler h
                            (make_SyncError
                               (protocol_error_code (Some ProtocolError.permission_denied))
                               "Unable to refresh the user access token." true))
                | None => mret tt
                end)
            else
              emit (EvSleep 10000) ;;
              emit EvRefreshCustomData
        | None => update_access_token (access_token u)
        end
  end.

(** The closure given to [async_wait_for_upload_completion] by
    [Dying::enter_state], when the wait completes. *)
Definition dying_wait_completed (current_death_count : N) : M unit :=
  scoped_lock (
    s ← get;
    if bool_decide (m_state s = Dying) && bool_decide (m_death_count s = current_death_count)
    then advance_state Inactive
    else mret tt).

(** The closure given to the waiter by [add_completion_callback], when the
    wait completes with [ec]. *)
Definition completion_wait_completed (id : N) (ec : error_code) : M unit :=
  callback_node ← scoped_lock (
    s ← get;
    modify (set_m_completion_callbacks (delete id (m_completion_callbacks s))) ;;
    unlock ;;
    mret (m_completion_callbacks s !! id));
  match callback_node with
  | Some (direction, callback) => emit (EvCompletion id direction callback ec)
  | None => mret tt
  end.

(** The connection state listener set by [do_create_sync_session]. *)
Definition connection_state_changed (state : ConnectionState)
    (error : option (error_code * string * bool)) : M unit :=
  old_new ← scoped_lock (
    s ← get;
    modify (set_m_connection_state state) ;;
    unlock ;;
    mret (m_connection_state s, state));
  emit (EvConnectionChange old_new.1 old_new.2) ;;
  match error with
  | Some (ec, detailed_message, fatal) => handle_error (make_SyncError ec detailed_message fatal)
  | None => mret tt
  end.

(** *** Runs of the session *)

(** What can happen to a session: a call of one of its operations, one of
    the closures it handed out being called, or the world around it changing
    (the environment, and the state of the user object it shares). *)
Inductive Op :=
  | op_close
  | op_log_out
  | op_revive_if_needed
  | op_handle_reconnect
  | op_shutdown_and_wait
  | op_detach_from_sync_manager
  | op_update_access_token (signed_token : string)
  | op_nonsync_transact_notify (version : N)
  | op_wait_for_upload_completion (callback : Callback)
  | op_wait_for_download_completion (callback : Callback)
  | op_handle_progress_update (u : Progress.UpdateArgs)
  | op_did_drop_external_reference (expired : bool)
  | op_update_configuration (new_config : SyncConfig)
  | op_handle_error (error : SyncError)
  | op_handle_refresh (error : option AppError)
  | op_dying_wait_completed (death_count : N)
  | op_completion_wait_completed (id : N) (ec : error_code)
  | op_connection_state_changed (state : ConnectionState)
                                (error : option (error_code * string * bool))
  | op_world (e : Environment) (u : option SyncUser).

Definition set_user (u : option SyncUser) (c : SyncConfig) : SyncConfig :=
  mkConfig u (partition_value c) (stop_policy c) (error_handler c)
           (client_resync_mode c) (cancel_waits_on_nonfatal_error c).

Definition apply_op (op : Op) : M unit :=
  match op with
  | op_close => close
  | op_log_out => log_out
  | op_revive_if_needed => revive_if_needed
  | op_handle_reconnect => handle_reconnect
  | op_shutdown_and_wait => shutdown_and_wait
  | op_detach_from_sync_manager => detach_from_sync_manager
  | op_update_access_token t => update_access_token t
  | op_nonsync_transact_notify v => nonsync_transact_notify v
  | op_wait_for_upload_completion f => wait_for_upload_completion f
  | op_wait_for_download_completion f => wait_for_download_completion f
  | op_handle_progress_update u => handle_progress_update u
  | op_did_drop_external_reference expired => did_drop_external_reference expired
  | op_update_configuration c => update_configuration c
  | op_handle_error e => handle_error e
  | op_handle_refresh e => handle_refresh e
  | op_dying_wait_completed n => dying_wait_completed n
  | op_completion_wait_completed id ec => completion_wait_completed id ec
  | op_connection_state_changed st e => connection_state_changed st e
  | op_world e u =>
      modify (fun s => set_env e (set_m_config (set_user u (m_config s)) s))
  end.

(** A run: the events one after another.  An exception leaves the session to
    its caller, and the run goes on; an abort ends it. *)
Fixpoint run (ops : list Op) (s : SyncSession) : Outcome unit :=
  match ops with
  | [] => Ok tt s
  | op :: ops =>
      match apply_op op s with
      | Ok _ s' | Thrown _ s' => run ops s'
      | Aborted r s' => Aborted r s'
      end
  end.

End WithExternals.

(** The constructor [SyncSession(client, realm_path, config,
    force_client_resync, sync_manager)]; the members it does not name start at
    their in-class values. *)
Definition make_SyncSession (realm_path : string) (config : SyncConfig)
    (force_client_resync : bool) (sync_manager : option SyncManager) (e : Environment)
    : SyncSession :=
  mkSession Inactive Disconnected config force_client_resync realm_path None ∅ 0 0 ""
            (Progress.mkNotifier ∅ None 0 1) sync_manager false [] e.

(** *** A session to run *)

(** An instance of what lies outside the file: the codes that ask for a
    client reset, the two keys, and a recovery path derived from the path of
    the Realm. *)
Definition example_externals : Externals := {|
  is_client_reset_requested e :=
    match error_code_of e with
    | protocol_error_code (Some ProtocolError.bad_server_file_ident)
    | protocol_error_code (Some ProtocolError.bad_client_file_ident)
    | protocol_error_code (Some ProtocolError.bad_server_version)
    | protocol_error_code (Some ProtocolError.diverging_histories)
    | protocol_error_code (Some ProtocolError.client_file_expired)
    | protocol_error_code (Some ProtocolError.invalid_schema_change) => true
    | _ => false
    end;
  c_original_file_path_key := "ORIGINAL_FILE_PATH";
  c_recovery_file_path_key := "RECOVERY_FILE_PATH";
  recovery_file_path s := m_realm_path s +:+ ".recovered"
|}.

Definition a_user (refresh_required : bool) : SyncUser :=
  mkUser "user-1" "signed-token" refresh_required false true.

Definition a_config (refresh_required : bool) (mode : ClientResyncMode) : SyncConfig :=
  mkConfig (Some (a_user refresh_required)) "partition" AfterChangesUploaded (Some 77%N)
           mode false.

Definition an_environment : Environment := mkEnv "ws://server/route" true true.

(** A session in a given state (with its wire session, unless [Inactive]),
    attached to its sync manager, an upload waiter and a download waiter
    pending. *)
Definition a_session (st : State) (refresh_required : bool) (mode : ClientResyncMode)
    : SyncSession :=
  mkSession st Connected (a_config refresh_required mode) false "/data/realm"
            (if bool_decide (st = Inactive) then None
             else Some (mkWire "/data/realm" "signed-token" "partition" None [bind]))
            {[ 1%N := (upload, 5%N); 2%N := (download, 6%N) ]} 2 0 "ws://server/route"
            (Progress.mkNotifier ∅ None 0 1) (Some the_sync_manager) false []
            an_environment.

Definition an_error (e : ProtocolError.t) (fatal : bool) : SyncError :=
  make_SyncError (protocol_error_code (Some e)) "error" fatal.

End Session.

(** ** The connection change notifier ([SyncSession::ConnectionChangeNotifier]) *)

Module ConnectionNotifier.

(** [npos], the [size_t] that is all ones. *)
Definition npos : N := (2 ^ 64 - 1)%N.

(** [--x] on a 64-bit unsigned counter. *)
Definition decr64 (x : N) : N := ((x + (2 ^ 64 - 1)) mod 2 ^ 64)%N.

(** The members of the notifier; an element of [m_callbacks] is the pair of
    [fn] and [token]. *)
Record ConnectionChangeNotifier := mkNotifier {
  m_callbacks : list (Callback * N);
  m_next_token : N;
  m_callback_index : N;
  m_callback_count : N
}.

Definition add_callback (n : ConnectionChangeNotifier) (callback : Callback)
    : N * ConnectionChangeNotifier :=
  let token := m_next_token n in
  (token,
   mkNotifier (m_callbacks n ++ [(callback, token)]) (incr64 token)
              (m_callback_index n) (m_callback_count n)).

(** [distance(begin, find_if(begin, end, c.token == token))], or [None] for
    [end]. *)
Fixpoint find_token (token : N) (l : list (Callback * N)) : option nat :=
  match l with
  | [] => None
  | c :: l => if decide (c.2 = token) then Some 0%nat else S <$> find_token token l
  end.

Definition remove_callback (n : ConnectionChangeNotifier) (token : N)
    : ConnectionChangeNotifier :=
  match find_token token (m_callbacks n) with
  | None => n
  | Some idx =>
      let index :=
        if decide (m_callback_index n <> npos) then
          if (N.of_nat idx <=? m_callback_index n)%N then decr64 (m_callback_index n)
          else m_callback_index n
        else m_callback_index n in
      mkNotifier (delete idx (m_callbacks n)) (m_next_token n) index
                 (decr64 (m_callback_count n))
  end.

(** What a callback does to the notifier while it runs, the lock released:
    it may register callbacks and remove callbacks. *)
Inductive Action := act_add (callback : Callback) | act_remove (token : N).

Definition apply_action (n : ConnectionChangeNotifier) (a : Action)
    : ConnectionChangeNotifier :=
  match a with
  | act_add callback => (add_callback n callback).2
  | act_remove token => remove_callback n token
  end.

(** How the loop of [invoke_callbacks] ends: it is left, the callbacks called
    in order; or it reads [m_callbacks] out of range; or the turns given to
    the model are used up. *)
Inductive Dispatch :=
  | Done (n : ConnectionChangeNotifier) (calls : list Callback)
  | OutOfRange
  | OutOfFuel.

(** The loop [for (++m_callback_index; m_callback_index < m_callback_count;
    ++m_callback_index)], from the increment on; [behaviour] is what each
    callback does when called. *)
Fixpoint dispatch (fuel : nat) (behaviour : Callback -> list Action)
    (n : ConnectionChangeNotifier) (calls : list Callback) : Dispatch :=
  match fuel with
  | O => OutOfFuel
  | S fuel =>
      let index := incr64 (m_callback_index n) in
      if (index <? m_callback_count n)%N then
        match m_callbacks n !! N.to_nat index with
        | None => OutOfRange
        | Some cb =>
            let n := mkNotifier (m_callbacks n) (m_next_token n) index
                                (m_callback_count n) in
            dispatch fuel behaviour (foldl apply_action n (behaviour cb.1))
                     (calls ++ [cb.1])
        end
      else
        Done (mkNotifier (m_callbacks n) (m_next_token n) npos (m_callback_count n)) calls
  end.

Definition invoke_callbacks (fuel : nat) (behaviour : Callback -> list Action)
    (n : ConnectionChangeNotifier) : Dispatch :=
  dispatch fuel behaviour
           (mkNotifier (m_callbacks n) (m_next_token n) (m_callback_index n)
                       (N.of_nat (length (m_callbacks n))))
           [].

End ConnectionNotifier.

(** * Properties *)

(** ** Byte strings *)

Ltac unroll_append := lazy beta iota zeta delta [append substring String.length]; fold append; fold substring; fold String.length.

Lemma string_app_assoc' (a b c : string) : (a +:+ b) +:+ c = a +:+ (b +:+ c).
Proof. induction a as [|x a IH]; [reflexivity|]. unroll_append. f_equal. exact IH. Qed.

Lemma string_app_nil_r (a : string) : a +:+ "" = a.
Proof. induction a as [|x a IH]; [reflexivity|]. unroll_append. f_equal. exact IH. Qed.

Lemma substring_0_all (s : string) : substring 0 (String.length s) s = s.
Proof. induction s as [|x s IH]; [reflexivity|]. unroll_append. f_equal. exact IH. Qed.

Lemma substring_0_app (s t : string) :
  substring 0 (String.length s) (s +:+ t) = s.
Proof.
  induction s as [|x s IH].
  - destruct t; reflexivity.
  - unroll_append. f_equal. exact IH.
Qed.

Lemma substring_skip_app (s t : string) :
  substring (String.length s) (String.length t) (s +:+ t) = t.
Proof.
  induction s as [|x s IH]; [apply substring_0_all|].
  unroll_append. exact IH.
Qed.

(** ** The message codec *)

Module CodecSpec.
Import Codec.

Lemma write_all (out data : string) : write out data (size data) = out +:+ data.
Proof. unfold write, size. rewrite Nat2N.id. now rewrite substring_0_all. Qed.

Lemma pretty_int_of_bool (b : bool) :
  pretty (int_of_bool b) = if b then "1" else "0".
Proof. destruct b; vm_compute; reflexivity. Qed.

Ltac flatten_out :=
  unfold put_str, put_uint, put_int;
  rewrite ?write_all, ?pretty_int_of_bool;
  rewrite ?string_app_assoc'.

(** C3.  [make_bind_message] appends the header line
    [bind <session_ident> <path length> <token length> <0/1> <0/1>\n], then
    the bytes of the path, then the bytes of the token with nothing in
    between; for session 7, path "/realm", token "tok", true, false, the
    message is "bind 7 6 3 1 0\n/realmtok". *)
Theorem make_bind_message_wire (protocol_version : Z) (out : OutputBuffer)
    (session_ident : N) (server_path signed_user_token : string)
    (need_client_file_ident is_subserver : bool) :
  make_bind_message protocol_version out session_ident server_path signed_user_token
                    need_client_file_ident is_subserver
  = out +:+ bind_header session_ident (size server_path) (size signed_user_token)
                        need_client_file_ident is_subserver
        +:+ server_path +:+ signed_user_token
  /\ make_bind_message 1 "" 7 "/realm" "tok" true false
     = "bind 7 6 3 1 0" +:+ String "010" "" +:+ "/realmtok".
Proof.
  split; [| vm_compute; reflexivity].
  unfold make_bind_message, bind_header. flatten_out. reflexivity.
Qed.

(** C1.  The comment above [insert_single_changeset_download_message] gives
    the format of the record as the five fields server version, client
    version, timestamp, client file ident, changeset size, and then the
    changeset.  The record the function writes for the changeset above is
    "3 2 10 1 7 3 abc": six fields, the original size of the changeset (7)
    before its size (3); it is not the five-field record in either order of
    the two versions. *)
Theorem download_record_is_not_upload_shaped :
  let out := (insert_single_changeset_download_message "" a_changeset (mkLogger false [])).1 in
  out = "3 2 10 1 7 3 abc"
  /\ out <> changeset_record 3 2 10 1 "abc"
  /\ out <> changeset_record 2 3 10 1 "abc".
Proof. vm_compute. repeat split; discriminate. Qed.

(** What the two functions write.  An upload record is the five fields client
    version, server version, origin timestamp, origin file ident, changeset
    size and then the changeset; a download record is server version, client
    version, origin timestamp, origin file ident, the original changeset size,
    the changeset size and then the changeset: the fields of the upload
    record, the two versions exchanged, with one more field before the
    changeset size. *)
Lemma changeset_record_shapes (b : UploadMessageBuilder)
    (cv sv ts fid : N) (bytes : string)
    (out : OutputBuffer) (info : ChangesetInfo) (logger : Logger) :
  m_body_buffer (add_changeset b cv sv ts fid bytes)
  = m_body_buffer b +:+ changeset_record cv sv ts fid bytes
  /\ (insert_single_changeset_download_message out info logger).1
     = out +:+ download_changeset_record
                 (server_version info) (client_version info)
                 (origin_timestamp (entry info)) (origin_file_ident (entry info))
                 (original_size info) (changeset (entry info)).
Proof.
  split.
  - unfold add_changeset, changeset_record; simpl. flatten_out. reflexivity.
  - unfold insert_single_changeset_download_message, download_changeset_record; simpl.
    flatten_out. reflexivity.
Qed.

(** C2.  A body of at most 1024 bytes is not handed to the compressor and goes
    out with [is_body_compressed] 0 and [compressed_body_size] 0; a larger one
    is handed to it once, and goes out compressed exactly when the compressed
    size is smaller than the size of the body, and as it is, with both fields
    0, otherwise. *)
Theorem make_upload_message_compression_policy
    (allocate_and_compress : string -> string -> N * string)
    (b : UploadMessageBuilder) (protocol_version : Z) (out : OutputBuffer)
    (session_ident pcv psv lsv : N) :
  let body := m_body_buffer b in
  let r := make_upload_message allocate_and_compress b protocol_version out
                               session_ident pcv psv lsv in
  let c := allocate_and_compress body (m_compression_buffer b) in
  ((size body <= 1024)%N ->
     r.2 = b
     /\ r.1 = out +:+ upload_header session_ident false (size body) 0 pcv psv lsv +:+ body)
  /\ ((1024 < size body)%N ->
        compress_log r.2 = compress_log b ++ [body]
        /\ m_compression_buffer r.2 = c.2
        /\ ((c.1 < size body)%N ->
              r.1 = out +:+ upload_header session_ident true (size body) c.1 pcv psv lsv
                        +:+ substring 0 (N.to_nat c.1) c.2)
        /\ ((size body <= c.1)%N ->
              r.1 = out +:+ upload_header session_ident false (size body) 0 pcv psv lsv
                        +:+ body)).
Proof.
  intros body r c. subst r. unfold make_upload_message, g_max_uncompressed.
  fold body. split.
  - intros Hle. apply N.ltb_ge in Hle. rewrite Hle.
    rewrite N.ltb_irrefl. simpl. split; [reflexivity|].
    unfold upload_header. flatten_out. reflexivity.
  - intros Hgt. apply N.ltb_lt in Hgt. rewrite Hgt.
    subst c. destruct (allocate_and_compress body (m_compression_buffer b)) as [sz buf].
    simpl. repeat split.
    + intros Hlt. apply N.ltb_lt in Hlt. rewrite Hlt. simpl.
      unfold upload_header, write. flatten_out. reflexivity.
    + intros Hge. apply N.ltb_ge in Hge. rewrite Hge. simpl.
      unfold upload_header. flatten_out. reflexivity.
Qed.

Lemma make_upload_message_compression_policy_witness :
  (make_upload_message squeeze (mkBuilder (filler 1024) "" 1 []) 1 "" 7 1 2 3).2
  = mkBuilder (filler 1024) "" 1 []
  /\ compress_log (make_upload_message squeeze (mkBuilder (filler 1025) "" 1 []) 1 "" 7 1 2 3).2
     = [filler 1025].
Proof.
  split.
  - apply (proj1 (make_upload_message_compression_policy
                    squeeze (mkBuilder (filler 1024) "" 1 []) 1 "" 7 1 2 3)).
    vm_compute. discriminate.
  - apply (proj2 (make_upload_message_compression_policy
                    squeeze (mkBuilder (filler 1025) "" 1 []) 1 "" 7 1 2 3)).
    vm_compute. reflexivity.
Defined.

End CodecSpec.

(** ** Iteration over an ordered map *)

Section MapIter.
Context {V : Type}.
Implicit Types (m : gmap N V) (l : list (N * V)).

Lemma map_iter_perm m : map_iter m ≡ₚ map_to_list m.
Proof. apply merge_sort_Permutation. Qed.

Lemma map_iter_empty : map_iter (∅ : gmap N V) = [].
Proof. unfold map_iter. rewrite map_to_list_empty. reflexivity. Qed.

Lemma elem_of_map_iter m k v : (k, v) ∈ map_iter m <-> m !! k = Some v.
Proof. rewrite map_iter_perm. apply elem_of_map_to_list. Qed.

Lemma NoDup_fst_map_iter m : NoDup (map_iter m).*1.
Proof. rewrite map_iter_perm. apply NoDup_fst_map_to_list. Qed.

Lemma length_map_iter m : length (map_iter m) = size m.
Proof. rewrite map_iter_perm. apply length_map_to_list. Qed.

Lemma not_elem_of_map_iter m k : m !! k = None -> k ∉ (map_iter m).*1.
Proof.
  intros Hk Hin. apply list_elem_of_fmap in Hin as [[k' v] [-> Hin]].
  apply elem_of_map_iter in Hin. simpl in Hk. congruence.
Qed.

End MapIter.

(** ** The progress tracker *)

Module ProgressSpec.
Import Progress.

Definition progress_of (u : UpdateArgs) : Progress :=
  mkProgress (u_uploadable u) (u_downloadable u) (u_uploaded u) (u_downloaded u)
             (u_snapshot_version u).

(** What one [update] leaves of a package, and the closure it makes for it. *)
Definition after (current : Progress) (p : NotifierPackage) : option NotifierPackage :=
  let r := create_invocation p current false in
  if r.2 then None else Some r.1.2.

Definition invocation_of (current : Progress) (p : NotifierPackage) : Invocation :=
  (create_invocation p current false).1.1.

Definition report (i : Invocation) : list (N * N) :=
  match i with Some c => [(c.1.2, c.2)] | None => [] end.

Lemma update_step_eq current acc kp :
  update_step current acc kp
  = (match after current kp.2 with
     | None => delete kp.1 acc.1
     | Some p => <[kp.1:=p]> acc.1
     end,
     acc.2 ++ [(kp.1, invocation_of current kp.2)]).
Proof.
  unfold update_step, after, invocation_of.
  destruct (create_invocation kp.2 current false) as [[i p] d]. simpl.
  destruct d; reflexivity.
Qed.

Lemma update_loop_invocations current l m acc :
  (foldl (update_step current) (m, acc) l).2
  = acc ++ map (fun kp => (kp.1, invocation_of current kp.2)) l.
Proof.
  revert m acc. induction l as [|kp l IH]; intros m acc; simpl.
  - by rewrite app_nil_r.
  - rewrite update_step_eq. simpl. rewrite IH. by rewrite <- app_assoc.
Qed.

Lemma update_loop_other current l m acc k :
  k ∉ l.*1 -> (foldl (update_step current) (m, acc) l).1 !! k = m !! k.
Proof.
  revert m acc. induction l as [|[k' p] l IH]; intros m acc Hk; [reflexivity|].
  simpl in *. apply not_elem_of_cons in Hk as [Hne Hk].
  rewrite update_step_eq. simpl. rewrite IH by assumption.
  destruct (after current p).
  - by rewrite lookup_insert_ne.
  - by rewrite lookup_delete_ne.
Qed.

Lemma update_loop_visited current l m acc k p :
  NoDup l.*1 -> (k, p) ∈ l ->
  (foldl (update_step current) (m, acc) l).1 !! k = after current p.
Proof.
  revert m acc. induction l as [|[k' p'] l IH]; intros m acc Hnd Hin;
    [by apply elem_of_nil in Hin|].
  simpl in *. apply NoDup_cons in Hnd as [Hk' Hnd].
  rewrite update_step_eq. simpl.
  apply elem_of_cons in Hin as [Heq|Hin].
  - inversion Heq; subst k' p'. rewrite update_loop_other by assumption.
    destruct (after current p).
    + by rewrite lookup_insert_eq.
    + by rewrite lookup_delete_eq.
  - by apply IH.
Qed.

Lemma calls_of_cons token k (i : Invocation) (invs : list (N * Invocation)) :
  calls_of token (run_invocations ((k, i) :: invs))
  = (if decide (k = token) then report i else [])
    ++ calls_of token (run_invocations invs).
Proof.
  unfold calls_of, run_invocations. simpl.
  destruct i as [c|]; simpl; destruct (decide (k = token)); reflexivity.
Qed.

Lemma calls_absent current token (l : list (N * NotifierPackage)) :
  token ∉ l.*1 ->
  calls_of token (run_invocations (map (fun kp => (kp.1, invocation_of current kp.2)) l))
  = [].
Proof.
  induction l as [|[k p] l IH]; intros Hk; [reflexivity|].
  rewrite fmap_cons in Hk. apply not_elem_of_cons in Hk as [Hne Hk].
  rewrite map_cons, calls_of_cons. simpl in *.
  destruct (decide (k = token)); [congruence|]. by apply IH.
Qed.

Lemma calls_present current token p (l : list (N * NotifierPackage)) :
  NoDup l.*1 -> (token, p) ∈ l ->
  calls_of token (run_invocations (map (fun kp => (kp.1, invocation_of current kp.2)) l))
  = report (invocation_of current p).
Proof.
  induction l as [|[k p'] l IH]; intros Hnd Hin; [by apply elem_of_nil in Hin|].
  rewrite fmap_cons in Hnd. apply NoDup_cons in Hnd as [Hk Hnd].
  rewrite map_cons, calls_of_cons. simpl in *.
  apply elem_of_cons in Hin as [Heq|Hin].
  - inversion Heq; subst k p'.
    destruct (decide (token = token)); [|congruence].
    rewrite calls_absent by assumption. by rewrite app_nil_r.
  - destruct (decide (k = token)) as [->|Hne]; [|by apply IH].
    exfalso. apply Hk. apply list_elem_of_fmap. exists (token, p). auto.
Qed.

(** One [update], seen from one registration. *)
Lemma update_lookup (n : SyncProgressNotifier) (u : UpdateArgs) (token : N) :
  u_download_version u <> 0%N ->
  m_packages (update n u).1 !! token = m_packages n !! token ≫= after (progress_of u)
  /\ calls_of token (update n u).2
     = match m_packages n !! token with
       | Some p => report (invocation_of (progress_of u) p)
       | None => []
       end.
Proof.
  intros Hv. unfold update. apply N.eqb_neq in Hv. rewrite Hv.
  fold (progress_of u).
  destruct (foldl (update_step (progress_of u)) (m_packages n, []) (map_iter (m_packages n)))
    as [packages invocations] eqn:Hloop.
  assert (Hp : packages
               = (foldl (update_step (progress_of u)) (m_packages n, [])
                        (map_iter (m_packages n))).1) by (by rewrite Hloop).
  assert (Hi : invocations
               = (foldl (update_step (progress_of u)) (m_packages n, [])
                        (map_iter (m_packages n))).2) by (by rewrite Hloop).
  rewrite update_loop_invocations in Hi. simpl in Hi. simpl.
  destruct (m_packages n !! token) as [p|] eqn:Hlook; simpl.
  - split.
    + rewrite Hp. apply update_loop_visited; [apply NoDup_fst_map_iter|].
      by apply elem_of_map_iter.
    + rewrite Hi. apply calls_present; [apply NoDup_fst_map_iter|].
      by apply elem_of_map_iter.
  - split.
    + rewrite Hp, update_loop_other; [done|]. by apply not_elem_of_map_iter.
    + rewrite Hi. apply calls_absent. by apply not_elem_of_map_iter.
Qed.

Lemma update_ignored (n : SyncProgressNotifier) (u : UpdateArgs) :
  u_download_version u = 0%N -> update n u = (n, []).
Proof. intros Hv. unfold update. by rewrite Hv. Qed.

(** C8.  For a non-streaming upload registration without a captured baseline
    whose snapshot version is above that of the progress, [create_invocation]
    returns the empty closure and leaves the package and [is_expired] as they
    were; an [update] with such a progress calls no callback for the
    registration and leaves it registered, unchanged. *)
Theorem upload_registration_waits_for_local_writes
    (p : NotifierPackage) (n : SyncProgressNotifier) (u : UpdateArgs) (token : N) :
  is_streaming p = false ->
  is_download p = false ->
  captured_transferrable p = None ->
  (u_snapshot_version u < pkg_snapshot_version p)%N ->
  (forall b, create_invocation p (progress_of u) b = (None, p, b))
  /\ (m_packages n !! token = Some p ->
      u_download_version u <> 0%N ->
      calls_of token (update n u).2 = []
      /\ m_packages (update n u).1 !! token = Some p).
Proof.
  intros Hs Hd Hc Hv.
  assert (Hci : forall b, create_invocation p (progress_of u) b = (None, p, b)).
  { intros b. unfold create_invocation. rewrite Hs, Hc, Hd. simpl.
    apply N.ltb_lt in Hv. by rewrite Hv. }
  split; [exact Hci|].
  intros Hlook Hdv. destruct (update_lookup n u token Hdv) as [Hp Hcalls].
  rewrite Hlook in Hp, Hcalls. simpl in Hp.
  unfold invocation_of in Hcalls. unfold after in Hp. rewrite Hci in Hp, Hcalls.
  split; assumption.
Qed.

(** *** A registration followed through a sequence of updates *)

Definition transferred_of (is_download : bool) (u : UpdateArgs) : N :=
  if is_download then u_downloaded u else u_uploaded u.

Definition transferrable_of (is_download : bool) (u : UpdateArgs) : N :=
  if is_download then u_downloadable u else u_uploadable u.





(** What [create_invocation] reports and leaves, by the kind of package. *)
Lemma create_invocation_streaming p u :
  is_streaming p = true ->
  report (invocation_of (progress_of u) p)
  = [(transferred_of (is_download p) u, transferrable_of (is_download p) u)]
  /\ after (progress_of u) p = Some p.
Proof.
  intros Hs. unfold invocation_of, after, create_invocation. rewrite Hs. simpl.
  unfold transferred_of, transferrable_of. by destruct (is_download p).
Qed.

Lemma create_invocation_captured p u c :
  is_streaming p = false -> captured_transferrable p = Some c ->
  report (invocation_of (progress_of u) p) = [(transferred_of (is_download p) u, c)]
  /\ after (progress_of u) p
     = if (c <=? transferred_of (is_download p) u)%N then None else Some p.
Proof.
  intros Hs Hc. unfold invocation_of, after, create_invocation. rewrite Hs, Hc. simpl.
  unfold transferred_of. by destruct (is_download p).
Qed.











(** The baseline of a non-streaming registration that has captured none:
    what the first update that is not ignored has as transferrable, for an
    upload registration the first whose snapshot version is not below that of
    the registration. *)
Fixpoint first_capture (p : NotifierPackage) (us : list UpdateArgs) : option N :=
  match us with
  | [] => None
  | u :: us =>
      if (u_download_version u =? 0)%N then first_capture p us
      else if negb (is_download p) && (u_snapshot_version u <? pkg_snapshot_version p)%N
      then first_capture p us
      else Some (transferrable_of (is_download p) u)
  end.

(** The baseline of a non-streaming registration over a sequence of updates:
    the one it has captured, or else the one it captures. *)
Definition baseline (p : NotifierPackage) (us : list UpdateArgs) : option N :=
  match captured_transferrable p with
  | Some c => Some c
  | None => first_capture p us
  end.




Lemma upload_registration_waits_for_local_writes_witness :
  create_invocation (mkPackage 100%N None 5 false false)
                    (progress_of (mkUpdate 0 0 0 10 1 3)) false
  = (None, mkPackage 100%N None 5 false false, false)
  /\ calls_of 1 (update (mkNotifier {[ 1%N := mkPackage 100%N None 5 false false ]} None 0 2)
                        (mkUpdate 0 0 0 10 1 3)).2 = [].
Proof.
  pose proof (upload_registration_waits_for_local_writes
                (mkPackage 100%N None 5 false false)
                (mkNotifier {[ 1%N := mkPackage 100%N None 5 false false ]} None 0 2)
                (mkUpdate 0 0 0 10 1 3) 1%N eq_refl eq_refl eq_refl eq_refl) as [H1 H2].
  split; [apply H1|]. apply H2; [reflexivity|discriminate].
Defined.


End ProgressSpec.

(** ** The session state machine *)

Module SessionSpec.
Import Session.

Section WithExternals.
Context `{Externals}.

(** *** Running the monad *)

Ltac unfold_m := unfold mbind, mret, M_bind, M_ret in *.
Ltac run_m := unfold_m; simpl.
Ltac unfold_setters :=
  cbv [set_m_state set_m_connection_state set_m_config set_m_force_client_resync
       set_m_session set_m_completion_callbacks set_m_completion_request_counter
       set_m_death_count set_m_server_url set_m_progress_notifier set_m_sync_manager
       set_lock_owned set_events set_env m_state m_connection_state m_config
       m_force_client_resync m_realm_path m_session m_completion_callbacks
       m_completion_request_counter m_death_count m_server_url m_progress_notifier
       m_sync_manager lock_owned events env].

Lemma for_each_emit {X} (f : X -> Event) (l : list X) (s : SyncSession) :
  for_each l (fun x => emit (f x)) s = Ok tt (set_events (events s ++ map f l) s).
Proof.
  revert s. induction l as [|x l IH]; intros s; simpl.
  - rewrite app_nil_r. by destruct s.
  - run_m. rewrite IH. simpl. by rewrite <- app_assoc.
Qed.

(** The completion callbacks of a map called with an error code, in the order
    of the map. *)
Definition completions (ec : error_code) (m : gmap N (NotifierType * Callback))
    : list Event :=
  map (fun w => EvCompletion w.1 w.2.1 w.2.2 ec) (map_iter m).

Definition connection_change (old_state : ConnectionState) : list Event :=
  if decide (old_state = Disconnected) then []
  else [EvConnectionChange old_state Disconnected].

(** The session that [Inactive::enter_state] leaves. *)
Definition entered_inactive (s : SyncSession) : SyncSession :=
  mkSession Inactive Disconnected (m_config s) (m_force_client_resync s) (m_realm_path s)
            None ∅ (m_completion_request_counter s) (m_death_count s) (m_server_url s)
            (m_progress_notifier s) (m_sync_manager s) false
            (events s ++ [EvUnregisterSession (m_realm_path s)]
                    ++ connection_change (m_connection_state s)
                    ++ completions operation_aborted (m_completion_callbacks s))
            (env s).

(** The session that [Inactive::enter_state] leaves where [unregister] finds
    the pointer to the sync manager null: the map is swapped out, and nothing
    has been called. *)
Definition detached_inactive (s : SyncSession) : SyncSession :=
  mkSession Inactive Disconnected (m_config s) (m_force_client_resync s) (m_realm_path s)
            None ∅ (m_completion_request_counter s) (m_death_count s) (m_server_url s)
            (m_progress_notifier s) None false (events s) (env s).

Lemma advance_state_Inactive_eq (s : SyncSession) :
  lock_owned s = true ->
  (debug_assertions (env s) = true -> m_state s <> Inactive) ->
  is_Some (m_sync_manager s) ->
  advance_state Inactive s = Ok tt (entered_inactive s).
Proof.
  intros Hlock Hstate [m Hmgr].
  unfold advance_state, advance_to, Inactive_enter_state, unregister, sync_manager_call,
    entered_inactive, connection_change, completions.
  destruct s as [st cs cfg frc path ws cbs cnt dc url pn mgr lk ev en]. simpl in *.
  subst lk mgr.
  run_m.
  assert (Hassert : (if bool_decide (Inactive <> st) then true
                     else negb (debug_assertions en)) = true).
  { case_bool_decide as Hst; [done|]. destruct (debug_assertions en); [|done].
    exfalso. apply Hstate; [done|]. by destruct st. }
  destruct (bool_decide (Inactive <> st)); [|destruct (debug_assertions en); [done|]];
    simpl; destruct cs; simpl; rewrite for_each_emit; simpl;
    rewrite <- ?app_assoc; reflexivity.
Qed.

Lemma advance_state_Inactive_detached (s : SyncSession) :
  lock_owned s = true ->
  (debug_assertions (env s) = true -> m_state s <> Inactive) ->
  m_sync_manager s = None ->
  advance_state Inactive s = Aborted null_dereference (detached_inactive s).
Proof.
  intros Hlock Hstate Hmgr.
  unfold advance_state, advance_to, Inactive_enter_state, unregister, sync_manager_call,
    detached_inactive.
  destruct s as [st cs cfg frc path ws cbs cnt dc url pn mgr lk ev en]. simpl in *.
  subst lk mgr.
  run_m.
  assert (Hassert : (if bool_decide (Inactive <> st) then true
                     else negb (debug_assertions en)) = true).
  { case_bool_decide as Hst; [done|]. destruct (debug_assertions en); [|done].
    exfalso. apply Hstate; [done|]. by destruct st. }
  destruct (bool_decide (Inactive <> st)); [|destruct (debug_assertions en); [done|]];
    simpl; reflexivity.
Qed.

(** *** Completion callbacks in a trace *)

Lemma filter_completions_all ec (m : gmap N (NotifierType * Callback)) :
  List.filter is_completion (completions ec m) = completions ec m.
Proof.
  unfold completions. induction (map_iter m) as [|w l IH]; simpl; [done|]. by rewrite IH.
Qed.

Lemma length_completions ec (m : gmap N (NotifierType * Callback)) :
  length (completions ec m) = size m.
Proof. unfold completions. by rewrite length_map, length_map_iter. Qed.

Lemma filter_completion_absent ec id (l : list (N * (NotifierType * Callback))) :
  id ∉ l.*1 ->
  List.filter (is_completion_of id) (map (fun w => EvCompletion w.1 w.2.1 w.2.2 ec) l) = [].
Proof.
  induction l as [|[k v] l IH]; intros Hk; [done|].
  rewrite fmap_cons in Hk. apply not_elem_of_cons in Hk as [Hne Hk]. simpl in *.
  rewrite bool_decide_false by congruence. by apply IH.
Qed.

Lemma filter_completion_present ec id v (l : list (N * (NotifierType * Callback))) :
  NoDup l.*1 -> (id, v) ∈ l ->
  List.filter (is_completion_of id) (map (fun w => EvCompletion w.1 w.2.1 w.2.2 ec) l)
  = [EvCompletion id v.1 v.2 ec].
Proof.
  induction l as [|[k v'] l IH]; intros Hnd Hin; [by apply elem_of_nil in Hin|].
  rewrite fmap_cons in Hnd. apply NoDup_cons in Hnd as [Hk Hnd]. simpl in *.
  apply elem_of_cons in Hin as [Heq|Hin].
  - inversion Heq; subst k v'. rewrite bool_decide_true by done.
    by rewrite filter_completion_absent.
  - rewrite bool_decide_false; [by apply IH|].
    intros ->. apply Hk. apply list_elem_of_fmap. exists (id, v). auto.
Qed.

Lemma completions_of ec (m : gmap N (NotifierType * Callback)) id direction callback :
  m !! id = Some (direction, callback) ->
  List.filter (is_completion_of id) (completions ec m)
  = [EvCompletion id direction callback ec].
Proof.
  intros Hm. unfold completions.
  rewrite (filter_completion_present ec id (direction, callback));
    [done|apply NoDup_fst_map_iter|by apply elem_of_map_iter].
Qed.

Lemma completions_empty ec : completions ec ∅ = [].
Proof. unfold completions. by rewrite map_iter_empty. Qed.

(** Entering [Inactive] with the lock held (and from another state, where
    assertions are compiled in), for a session whose pointer to the sync
    manager is not null, returns; the trace grows by events of which the calls
    of completion callbacks are as many as the entries of the map, one for
    each entry, with [operation_aborted]; and the map is left empty. *)
Theorem entering_Inactive_cancels_every_wait (s : SyncSession) :
  lock_owned s = true ->
  (debug_assertions (env s) = true -> m_state s <> Inactive) ->
  is_Some (m_sync_manager s) ->
  exists s' evs,
    advance_state Inactive s = Ok tt s'
    /\ m_state s' = Inactive
    /\ events s' = events s ++ evs
    /\ m_completion_callbacks s' = ∅
    /\ length (List.filter is_completion evs) = size (m_completion_callbacks s)
    /\ (forall id direction callback,
          m_completion_callbacks s !! id = Some (direction, callback) ->
          List.filter (is_completion_of id) evs
          = [EvCompletion id direction callback operation_aborted])
    /\ (forall e, e ∈ evs -> is_completion e = true ->
          exists id direction callback,
            e = EvCompletion id direction callback operation_aborted
            /\ m_completion_callbacks s !! id = Some (direction, callback)).
Proof.
  intros Hlock Hstate Hmgr.
  exists (entered_inactive s),
         ([EvUnregisterSession (m_realm_path s)]
            ++ connection_change (m_connection_state s)
            ++ completions operation_aborted (m_completion_callbacks s)).
  split; [by apply advance_state_Inactive_eq|].
  split; [done|]. split; [done|]. split; [done|].
  assert (Hcc : forall f, (forall o n, f (EvConnectionChange o n) = false) ->
            List.filter f (connection_change (m_connection_state s)) = []).
  { intros f Hf. unfold connection_change. destruct (decide _); simpl; [done|].
    by rewrite Hf. }
  split; [|split].
  - rewrite !List.filter_app, Hcc by done. simpl.
    by rewrite filter_completions_all, length_completions.
  - intros id direction callback Hm.
    rewrite !List.filter_app, Hcc by done. simpl. by apply completions_of.
  - intros e He Hc. apply elem_of_app in He as [He|He].
    { apply list_elem_of_singleton in He. by subst e. }
    apply elem_of_app in He as [He|He].
    { unfold connection_change in He. destruct (decide _); [by apply elem_of_nil in He|].
      apply list_elem_of_singleton in He. by subst e. }
    unfold completions in He. apply list_elem_of_fmap in He as [[id [d cb]] [-> Hin]].
    exists id, d, cb. split; [done|]. by apply elem_of_map_iter.
Qed.

(** *** Frames: what a computation leaves related to the session it started from *)

Definition frames {A} (R : relation SyncSession) (m : M A) : Prop :=
  forall s, R s (final (m s)).

(** A preorder on sessions that the lock, the events other than calls of the
    error handler, and the members other than the state and the wire session
    (the pointer to the sync manager among them) do not leave. *)
Class Frame (R : relation SyncSession) := {
  frame_preorder :: PreOrder R;
  frame_lock s b : R s (set_lock_owned b s);
  frame_events s e :
    is_error_handler_call e = false -> R s (set_events (events s ++ [e]) s);
  frame_callbacks s v : R s (set_m_completion_callbacks v s);
  frame_counter s v : R s (set_m_completion_request_counter v s);
  frame_death_count s v : R s (set_m_death_count v s);
  frame_connection s v : R s (set_m_connection_state v s);
  frame_server_url s v : R s (set_m_server_url v s);
  frame_progress s v : R s (set_m_progress_notifier v s);
  frame_manager s v : R s (set_m_sync_manager v s);
  frame_force s v : R s (set_m_force_client_resync v s);
  frame_config s v : R s (set_m_config v s);
  frame_env s v : R s (set_env v s)
}.

(** ... nor a call on the wire session, ... *)
Class FrameWire (R : relation SyncSession) := {
  frame_wire_frame :: Frame R;
  frame_wire s ws ws' : m_session s = Some ws -> R s (set_m_session (Some ws') s)
}.

(** ... nor any change of the wire session, ... *)
Class FrameSession (R : relation SyncSession) := {
  frame_session_wire :: FrameWire R;
  frame_session s v : R s (set_m_session v s)
}.

(** ... nor any change of the state. *)
Class FrameState (R : relation SyncSession) := {
  frame_state_session :: FrameSession R;
  frame_state s v : R s (set_m_state v s)
}.

Section Frames.
Context (R : relation SyncSession) `{!Frame R}.

Lemma frames_ret {A} (a : A) : frames R (mret a).
Proof. intros s. simpl. reflexivity. Qed.

Lemma frames_get : frames R get.
Proof. intros s. simpl. reflexivity. Qed.

Lemma frames_abort {A} r : frames R (abort r : M A).
Proof. intros s. simpl. reflexivity. Qed.

Lemma frames_throw {A} ex : frames R (throw ex : M A).
Proof. intros s. simpl. reflexivity. Qed.

Lemma frames_assert c : frames R (REALM_ASSERT c).
Proof. intros s. simpl. destruct (c s), (debug_assertions (env s)); reflexivity. Qed.

Lemma frames_assert_release c : frames R (REALM_ASSERT_RELEASE c).
Proof. intros s. simpl. destruct (c s); reflexivity. Qed.

Lemma frames_modify f : (forall s, R s (f s)) -> frames R (modify f).
Proof. intros Hf s. simpl. apply Hf. Qed.

Lemma frames_emit e : is_error_handler_call e = false -> frames R (emit e).
Proof. intros He s. simpl. by apply frame_events. Qed.

Lemma frames_unlock : frames R unlock.
Proof. intros s. simpl. apply frame_lock. Qed.

Lemma frames_bind {A B} (m : M A) (k : A -> M B) :
  frames R m -> (forall a, frames R (k a)) -> frames R (m ≫= k).
Proof.
  intros Hm Hk s. unfold_m. simpl. specialize (Hm s).
  destruct (m s) as [a s'|r s'|ex s']; simpl in *; [|done..].
  etrans; [exact Hm|apply Hk].
Qed.

Lemma frames_scoped_lock {A} (m : M A) : frames R m -> frames R (scoped_lock m).
Proof.
  intros Hm s. simpl. specialize (Hm (set_lock_owned true s)).
  destruct (m (set_lock_owned true s)) as [a s'|r s'|ex s']; simpl in *.
  - etrans; [apply frame_lock|]. etrans; [exact Hm|apply frame_lock].
  - etrans; [apply frame_lock|exact Hm].
  - etrans; [apply frame_lock|]. etrans; [exact Hm|apply frame_lock].
Qed.

Lemma frames_for_each {X} (l : list X) (f : X -> M unit) :
  (forall x, frames R (f x)) -> frames R (for_each l f).
Proof.
  intros Hf. induction l as [|x l IH]; simpl; [apply frames_ret|].
  apply frames_bind; [apply Hf|]. intros _. exact IH.
Qed.

End Frames.

Ltac tc := try (solve [typeclasses eauto]).

Ltac frame_leaf :=
  simpl;
  first [ reflexivity
        | apply frame_lock | apply frame_callbacks | apply frame_counter
        | apply frame_death_count | apply frame_connection | apply frame_server_url
        | apply frame_progress | apply frame_force | apply frame_config | apply frame_env
        | apply frame_manager
        | apply frame_session | apply frame_state
        | (apply frame_events; reflexivity)
        | (eapply frame_wire; eassumption) ].

Ltac frame_step :=
  lazymatch goal with
  | |- frames _ (mbind _ _) => apply frames_bind; tc; [|intros ?]
  | |- frames _ (mret _) => apply frames_ret; tc
  | |- frames _ (ret _) => apply frames_ret; tc
  | |- frames _ get => apply frames_get; tc
  | |- frames _ unlock => apply frames_unlock; tc
  | |- frames _ (modify _) => apply frames_modify; tc; intros ?; frame_leaf
  | |- frames _ (emit _) => apply frames_emit; tc; reflexivity
  | |- frames _ (when ?c _) => destruct c; simpl
  | |- frames _ (scoped_lock _) => apply frames_scoped_lock; tc
  | |- frames _ (for_each _ _) => apply frames_for_each; tc; intros ?
  | |- frames _ (REALM_ASSERT _) => apply frames_assert; tc
  | |- frames _ (REALM_ASSERT_RELEASE _) => apply frames_assert_release; tc
  | |- frames _ (abort _) => apply frames_abort; tc
  | |- frames _ (throw _) => apply frames_throw; tc
  | |- frames _ (if ?c then _ else _) => destruct c eqn:?
  | |- frames _ (match ?x with _ => _ end) => destruct x eqn:?
  end.

Create HintDb frames.

Ltac frame_auto := repeat first [ solve [eauto with frames typeclass_instances] | frame_step ].

Section FrameLemmas.
Context (R : relation SyncSession).

Lemma frames_sync_manager_call `{!Frame R} : frames R sync_manager_call.
Proof. unfold sync_manager_call. frame_auto. Qed.

Hint Resolve frames_sync_manager_call : frames.

Lemma frames_unregister `{!Frame R} : frames R unregister.
Proof. unfold unregister. frame_auto. Qed.

Lemma frames_cancel_pending_waits `{!Frame R} ec : frames R (cancel_pending_waits ec).
Proof. unfold cancel_pending_waits. frame_auto. Qed.

Lemma frames_initiate_access_token_refresh `{!Frame R} :
  frames R initiate_access_token_refresh.
Proof. unfold initiate_access_token_refresh. frame_auto. Qed.

Lemma frames_update_error_and_mark_file_for_deletion `{!Frame R} e b :
  frames R (update_error_and_mark_file_for_deletion e b).
Proof. unfold update_error_and_mark_file_for_deletion. frame_auto. Qed.

Lemma frames_wire_call `{!FrameWire R} c : frames R (wire_call c).
Proof.
  unfold wire_call. intros s. run_m. destruct (m_session s) eqn:Hs; simpl; [|reflexivity].
  by eapply frame_wire.
Qed.

Hint Resolve frames_unregister frames_cancel_pending_waits
  frames_initiate_access_token_refresh frames_update_error_and_mark_file_for_deletion
  frames_wire_call : frames.

Lemma frames_refresh_if_session `{!FrameWire R} t : frames R (refresh_if_session t).
Proof. unfold refresh_if_session. frame_auto. Qed.

Lemma frames_add_completion_callback `{!FrameWire R} f d :
  frames R (add_completion_callback f d).
Proof. unfold add_completion_callback. frame_auto. Qed.

Lemma frames_classify_bad_authentication `{!FrameWire R} e :
  frames R (classify_bad_authentication e).
Proof. unfold classify_bad_authentication. frame_auto. Qed.

Hint Resolve frames_refresh_if_session frames_add_completion_callback
  frames_classify_bad_authentication : frames.

Lemma frames_classify `{!FrameWire R} ns e : frames R (classify ns e).
Proof.
  unfold classify, classify_protocol_error, classify_client_error.
  destruct (error_code_of e) as [[c|]|[c|]| | | | |]; try destruct c; frame_auto.
Qed.

Lemma frames_do_create_sync_session `{!FrameSession R} : frames R do_create_sync_session.
Proof. unfold do_create_sync_session. frame_auto. Qed.

Hint Resolve frames_classify frames_do_create_sync_session : frames.

Lemma frames_create_sync_session `{!FrameSession R} : frames R create_sync_session.
Proof. unfold create_sync_session. frame_auto. Qed.

Lemma frames_Inactive_enter_state `{!FrameSession R} : frames R Inactive_enter_state.
Proof. unfold Inactive_enter_state. frame_auto. Qed.

Hint Resolve frames_create_sync_session frames_Inactive_enter_state : frames.

Lemma frames_advance_to `{!FrameState R} st enter :
  frames R enter -> frames R (advance_to st enter).
Proof. intros He. unfold advance_to. frame_auto. Qed.

Lemma frames_advance_state `{!FrameState R} st : frames R (advance_state st).
Proof.
  unfold advance_state. apply frames_advance_to; tc.
  destruct st; unfold Active_enter_state, Dying_enter_state,
    WaitingForAccessToken_enter_state;
    repeat first [ solve [eauto with frames typeclass_instances]
                 | (apply frames_advance_to; tc)
                 | frame_step ].
Qed.

Hint Resolve frames_advance_state : frames.

Lemma frames_revive_if_needed `{!FrameState R} : frames R revive_if_needed.
Proof. unfold revive_if_needed, state_revive_if_needed. frame_auto. Qed.

Lemma frames_state_handle_error `{!FrameState R} e : frames R (state_handle_error e).
Proof. unfold state_handle_error. frame_auto. Qed.

Hint Resolve frames_revive_if_needed frames_state_handle_error : frames.

Lemma frames_handle_error_client_resync `{!FrameState R} :
  frames R handle_error_client_resync.
Proof. unfold handle_error_client_resync. frame_auto. Qed.

Hint Resolve frames_handle_error_client_resync : frames.

Lemma frames_handle_error_classification `{!FrameState R} e :
  frames R (handle_error_classification e).
Proof. unfold handle_error_classification. frame_auto. Qed.

End FrameLemmas.

Hint Resolve frames_unregister frames_cancel_pending_waits
  frames_initiate_access_token_refresh frames_update_error_and_mark_file_for_deletion
  frames_wire_call frames_refresh_if_session frames_add_completion_callback
  frames_classify_bad_authentication frames_classify frames_do_create_sync_session
  frames_create_sync_session frames_Inactive_enter_state frames_advance_state
  frames_revive_if_needed frames_state_handle_error frames_handle_error_client_resync
  frames_handle_error_classification frames_sync_manager_call : frames.

(** *** Calls of the error handler *)

(** The trace grows, by no call of the error handler. *)
Definition quiet (s s' : SyncSession) : Prop :=
  exists evs, events s' = events s ++ evs /\ handler_calls evs = 0%nat.

Lemma handler_calls_app evs1 evs2 :
  handler_calls (evs1 ++ evs2) = (handler_calls evs1 + handler_calls evs2)%nat.
Proof. unfold handler_calls. by rewrite List.filter_app, length_app. Qed.

Lemma quiet_same_events s s' : events s' = events s -> quiet s s'.
Proof. intros He. exists []. by rewrite app_nil_r. Qed.

Global Instance quiet_preorder : PreOrder quiet.
Proof.
  split.
  - intros s. by apply quiet_same_events.
  - intros s1 s2 s3 (e1 & H1 & Hc1) (e2 & H2 & Hc2). exists (e1 ++ e2). split.
    + by rewrite H2, H1, app_assoc.
    + rewrite handler_calls_app. lia.
Qed.

Global Instance quiet_frame : FrameState quiet.
Proof.
  repeat split; try apply quiet_preorder;
    try (intros; apply quiet_same_events; by destruct s).
  intros s e He. exists [e]. split; [by destruct s|].
  unfold handler_calls. simpl. by rewrite He.
Qed.


(** The trace grows, by at most one call of the error handler. *)
Definition at_most_once (s s' : SyncSession) : Prop :=
  exists evs, events s' = events s ++ evs /\ (handler_calls evs <= 1)%nat.

Lemma quiet_at_most_once s1 s2 s3 : quiet s1 s2 -> at_most_once s2 s3 -> at_most_once s1 s3.
Proof.
  intros (e1 & H1 & Hc1) (e2 & H2 & Hc2). exists (e1 ++ e2). split.
  - by rewrite H2, H1, app_assoc.
  - rewrite handler_calls_app. lia.
Qed.

Lemma frames_quiet_then {A B} (m : M A) (k : A -> M B) :
  frames quiet m -> (forall a, frames at_most_once (k a)) ->
  frames at_most_once (m ≫= k).
Proof.
  intros Hm Hk s. unfold_m. simpl. specialize (Hm s).
  destruct (m s) as [a s'|r s'|ex s']; simpl in *.
  - eapply quiet_at_most_once; [exact Hm|apply Hk].
  - destruct Hm as (e & He & Hc). exists e. split; [done|lia].
  - destruct Hm as (e & He & Hc). exists e. split; [done|lia].
Qed.

Lemma frames_at_most_once_emit e : frames at_most_once (emit e).
Proof.
  intros s. exists [e]. split; [by destruct s|].
  unfold handler_calls. simpl. destruct (is_error_handler_call e); simpl; lia.
Qed.

Lemma frames_at_most_once_ret {A} (a : A) : frames at_most_once (mret a).
Proof. intros s. exists []. simpl. rewrite app_nil_r. split; [done|]. unfold handler_calls. simpl. lia. Qed.

Lemma frames_handle_error_delivery ns e : frames at_most_once (handle_error_delivery ns e).
Proof.
  unfold handle_error_delivery.
  apply frames_quiet_then; [apply frames_get; tc|]. intros s.
  destruct (bool_decide (m_state s = Inactive)); [apply frames_at_most_once_ret|].
  apply frames_quiet_then.
  { destruct ns; frame_auto. }
  intros _. apply frames_quiet_then; [apply frames_get; tc|]. intros s'.
  destruct (error_handler (m_config s')).
  - apply frames_at_most_once_emit.
  - apply frames_at_most_once_ret.
Qed.

Lemma handle_error_delivery_Inactive ns e s :
  m_state s = Inactive -> handle_error_delivery ns e s = Ok tt s.
Proof.
  intros Hs. unfold handle_error_delivery. run_m. by rewrite bool_decide_true.
Qed.

(** C6.  [handle_error] lets the trace grow by at most one call of the error
    handler; and where the classification ends, without returning, in a
    session whose state is [Inactive], [handle_error] returns there, with no
    call of the error handler. *)
Theorem handle_error_calls_handler_at_most_once (error : SyncError) (s : SyncSession) :
  exists evs,
    events (final (handle_error error s)) = events s ++ evs
    /\ (handler_calls evs <= 1)%nat
    /\ (forall ns e' s1,
          handle_error_classification error s = Ok (Continue ns e') s1 ->
          m_state s1 = Inactive ->
          handle_error error s = Ok tt s1 /\ handler_calls evs = 0%nat).
Proof.
  pose proof (frames_handle_error_classification quiet error s) as (e1 & He1 & Hc1).
  unfold handle_error. unfold_m. simpl.
  destruct (handle_error_classification error s) as [[|ns e'] s1|r s1|ex s1] eqn:Hcl;
    simpl in *.
  - exists e1. split; [done|]. split; [lia|]. intros ???; discriminate.
  - destruct (frames_handle_error_delivery ns e' s1) as (e2 & He2 & Hc2).
    destruct (decide (m_state s1 = Inactive)) as [Hin|Hact].
    + rewrite handle_error_delivery_Inactive by done. simpl.
      exists e1. split; [done|]. split; [lia|]. intros ns0 e0 s0 [= <- <- <-] _. done.
    + exists (e1 ++ e2). split; [by rewrite He2, He1, app_assoc|].
      split; [rewrite handler_calls_app; lia|].
      intros ns0 e0 s0 [= <- <- <-] Hin. done.
  - exists e1. split; [done|]. split; [lia|]. intros ???; discriminate.
  - exists e1. split; [done|]. split; [lia|]. intros ???; discriminate.
Qed.


(** *** The classification *)

(** The classes of errors, and what the classification of an error of each
    class returns and does. *)
Inductive ErrorClass :=
  | class_silently_ignored
  | class_authentication_failure
  | class_permission_denied
  | class_destructive_file_error
  | class_generic.

Definition classified_as (c : ErrorClass) (s : SyncSession) (ns : NextStateAfterError)
    (e : SyncError) (r : Classified) (s' : SyncSession) : Prop :=
  match c with
  | class_silently_ignored => r = Return /\ s' = s
  | class_authentication_failure =>
      r = Continue NS_none e
      /\ m_completion_callbacks s' = ∅
      /\ events s' = events s ++ completions (error_code_of e) (m_completion_callbacks s)
                              ++ [EvUserInvalidate]
  | class_permission_denied =>
      exists e' u,
        user (m_config s) = Some u
        /\ r = Continue NS_inactive e'
        /\ events s' = events s ++ [EvFileAction (m_realm_path s)
                                      (partition_value (m_config s)) (identity u)
                                      DeleteRealm ""]
  | class_destructive_file_error =>
      exists e' u,
        user (m_config s) = Some u
        /\ r = Continue NS_inactive e'
        /\ events s' = events s ++ [EvFileAction (m_realm_path s)
                                      (partition_value (m_config s)) (identity u)
                                      BackUpThenDeleteRealm (recovery_file_path s)]
  | class_generic => r = Continue ns e /\ s' = s
  end.

Lemma classify_bad_authentication_eq e s u :
  user (m_config s) = Some u ->
  exists s', classify_bad_authentication e s = Ok (Continue NS_none e) s'
             /\ classified_as class_authentication_failure s NS_none e
                              (Continue NS_none e) s'.
Proof.
  intros Hu. unfold classify_bad_authentication, cancel_pending_waits.
  destruct s as [st cs cfg frc path ws cbs cnt dc url pn mgr lk ev en]. simpl in *.
  run_m. rewrite for_each_emit. simpl. rewrite Hu. simpl.
  eexists. split; [reflexivity|]. simpl. split; [done|]. split; [done|].
  rewrite <- app_assoc. reflexivity.
Qed.

(** The codes at which [handle_error] marks the Realm file for deletion: with
    a backup ([true]) or without ([false]). *)
Definition marks_file (ec : error_code) : option bool :=
  match ec with
  | protocol_error_code (Some ProtocolError.permission_denied) => Some false
  | protocol_error_code (Some ProtocolError.bad_client_file)
  | protocol_error_code (Some ProtocolError.bad_client_file_ident)
  | protocol_error_code (Some ProtocolError.bad_origin_file_ident)
  | protocol_error_code (Some ProtocolError.bad_server_file_ident)
  | protocol_error_code (Some ProtocolError.bad_server_version)
  | protocol_error_code (Some ProtocolError.client_file_blacklisted)
  | protocol_error_code (Some ProtocolError.diverging_histories)
  | protocol_error_code (Some ProtocolError.server_file_deleted)
  | protocol_error_code (Some ProtocolError.user_blacklisted)
  | protocol_error_code (Some ProtocolError.client_file_expired)
  | protocol_error_code (Some ProtocolError.invalid_schema_change) => Some true
  | _ => None
  end.

(** C9, as stated, fails: classifying [token_expired] aborts. *)
Lemma token_expired_aborts :
  @handle_error example_externals (an_error ProtocolError.token_expired true)
                (a_session Active false Manual)
  = Aborted assertion_failed (a_session Active false Manual).
Proof. vm_compute. reflexivity. Qed.

(** C9, amended.  For a session that has a user, the classification of every
    protocol error code but [token_expired] and of every client error code
    returns, as one of the five classes, where the code is not one that marks
    the file or the pointer to the sync manager, which marking the file
    dereferences, is not null; the classification of [token_expired] aborts
    on its assertion. *)
Theorem classification_is_total_but_for_token_expired
    (s : SyncSession) (ns : NextStateAfterError) (e : SyncError) :
  is_Some (user (m_config s)) ->
  ((exists c, error_code_of e = protocol_error_code (Some c)
              /\ c <> ProtocolError.token_expired)
   \/ (exists c, error_code_of e = client_error_code (Some c)) ->
   marks_file (error_code_of e) = None \/ is_Some (m_sync_manager s) ->
   exists cl r s', classify ns e s = Ok r s' /\ classified_as cl s ns e r s')
  /\ (error_code_of e = protocol_error_code (Some ProtocolError.token_expired) ->
      classify ns e s = Aborted assertion_failed s).
Proof.
  intros [u Hu]. split.
  - intros [(c & Hc & Hne)|(c & Hc)] Hmgr; unfold classify; rewrite Hc in *.
    + destruct (classify_bad_authentication_eq e s u Hu) as (s' & Heq & Hcl).
      destruct c; try done; unfold classify_protocol_error;
        first
          [ by (exists class_silently_ignored, Return, s; split)
          | by (exists class_generic, (Continue ns e), s; split)
          | by (exists class_authentication_failure, (Continue NS_none e), s'; split)
          | solve [ destruct Hmgr as [Hnone|[m Hm]]; [discriminate Hnone|];
                    exists class_permission_denied;
                    unfold update_error_and_mark_file_for_deletion, sync_manager_call;
                    run_m; rewrite Hm, Hu; simpl; do 2 eexists; split; [reflexivity|];
                    simpl; do 2 eexists; split; [reflexivity|]; split; [reflexivity|];
                    by destruct s ]
          | solve [ destruct Hmgr as [Hnone|[m Hm]]; [discriminate Hnone|];
                    exists class_destructive_file_error;
                    unfold update_error_and_mark_file_for_deletion, sync_manager_call;
                    run_m; rewrite Hm, Hu; simpl; do 2 eexists; split; [reflexivity|];
                    simpl; do 2 eexists; split; [reflexivity|]; split; [reflexivity|];
                    by destruct s ] ].
    + unfold classify_client_error.
      destruct c;
        first [ by (exists class_silently_ignored, Return, s; split)
              | by (exists class_generic, (Continue ns e), s; split) ].
  - intros Hc. unfold classify. rewrite Hc. reflexivity.
Qed.


(** *** Registering completion callbacks again *)

Lemma incr64_small (c : N) : (c + 1 < 2 ^ 64)%N -> incr64 c = (c + 1)%N.
Proof. intros Hc. unfold incr64. by apply N.mod_small. Qed.




(** *** The transparent client resync *)

Lemma first_refusal_declined (e : SyncError) (s : SyncSession) :
  (m_state s = Dying -> is_fatal e = false) ->
  scoped_lock (state_handle_error e) s = Ok tt (set_lock_owned false s).
Proof.
  intros Hd. unfold state_handle_error.
  destruct s as [st cs cfg frc path ws cbs cnt dc url pn mgr lk ev en]. simpl in *.
  run_m. destruct st; simpl; try done. rewrite Hd by done. done.
Qed.








(** *** The dying state and the wire session *)

(** A dying session has its wire session. *)
Definition dying_has_session (s : SyncSession) : Prop :=
  m_state s = Dying -> is_Some (m_session s).

(** Neither the state nor the presence of the wire session changes. *)
Definition stable (s s' : SyncSession) : Prop :=
  m_state s' = m_state s /\ (is_Some (m_session s') <-> is_Some (m_session s)).

(** The state does not change. *)
Definition same_state (s s' : SyncSession) : Prop := m_state s' = m_state s.

Global Instance stable_preorder : PreOrder stable.
Proof.
  split.
  - intros s. by split.
  - intros s1 s2 s3 [H1 H1'] [H2 H2']. split; [congruence|]. by rewrite H2', H1'.
Qed.

Global Instance stable_frame_base : Frame stable.
Proof. split; [apply stable_preorder|..]; intros; by destruct s. Qed.

Global Instance stable_frame : FrameWire stable.
Proof.
  split; [apply _|]. intros s ws ws' Hs. destruct s; simpl in *; subst.
  split; [done|]. simpl. split; eauto.
Qed.

Global Instance same_state_preorder : PreOrder same_state.
Proof. split; [by intros s|]. intros s1 s2 s3 H1 H2. unfold same_state in *. congruence. Qed.

Global Instance same_state_frame_base : Frame same_state.
Proof. split; [apply same_state_preorder|..]; intros; by destruct s. Qed.

Global Instance same_state_frame_wire : FrameWire same_state.
Proof. split; [apply _|]. intros; by destruct s. Qed.

Global Instance same_state_frame : FrameSession same_state.
Proof. split; [apply _|]. intros; by destruct s. Qed.

(** Where the computation does not abort, from a session in [P] it leaves a
    session in [Q], whether it returns or throws. *)
Definition hoare {A} (P : SyncSession -> Prop) (m : M A) (Q : SyncSession -> Prop) : Prop :=
  forall s, P s -> match m s with Aborted _ _ => True | o => Q (final o) end.

Lemma hoare_bind {A B} (P R Q : SyncSession -> Prop) (m : M A) (k : A -> M B) :
  hoare P m R -> (forall s, R s -> Q s) -> (forall a, hoare R (k a) Q) ->
  hoare P (m ≫= k) Q.
Proof.
  intros Hm HRQ Hk s HP. unfold_m. simpl. specialize (Hm s HP).
  destruct (m s) as [a s'|r s'|ex s']; simpl in *; [|done|by apply HRQ].
  apply Hk. exact Hm.
Qed.

Lemma hoare_get {B} (P Q : SyncSession -> Prop) (k : SyncSession -> M B) :
  (forall a, hoare (fun s => P s /\ s = a) (k a) Q) -> hoare P (get ≫= k) Q.
Proof. intros Hk s HP. unfold_m. simpl. by apply Hk. Qed.

Lemma hoare_weaken {A} (P P' Q Q' : SyncSession -> Prop) (m : M A) :
  hoare P' m Q' -> (forall s, P s -> P' s) -> (forall s, Q' s -> Q s) -> hoare P m Q.
Proof.
  intros Hm HP HQ s Hs. specialize (Hm s (HP s Hs)).
  destruct (m s); simpl in *; auto.
Qed.

Lemma hoare_frames {A} (R : relation SyncSession) (P Q : SyncSession -> Prop) (m : M A) :
  frames R m -> (forall s s', P s -> R s s' -> Q s') -> hoare P m Q.
Proof.
  intros Hm HR s HP. specialize (Hm s).
  destruct (m s); simpl in *; eauto.
Qed.

Lemma hoare_stable {A} (m : M A) :
  frames stable m -> hoare dying_has_session m dying_has_session.
Proof.
  intros Hm. eapply hoare_frames; [exact Hm|].
  intros s s' Hinv [Hst Hws] Hd. apply Hws, Hinv. congruence.
Qed.

Lemma hoare_scoped_lock {A} (P Q : SyncSession -> Prop) (m : M A) :
  (forall s b, P s -> P (set_lock_owned b s)) ->
  (forall s b, Q s -> Q (set_lock_owned b s)) ->
  hoare P m Q -> hoare P (scoped_lock m) Q.
Proof.
  intros HP HQ Hm s Hs. simpl. specialize (Hm _ (HP s true Hs)).
  destruct (m (set_lock_owned true s)); simpl in *; auto.
Qed.

Lemma dying_has_session_lock s b :
  dying_has_session s -> dying_has_session (set_lock_owned b s).
Proof. by destruct s. Qed.

(** [advance_to]: the state is the one asked for, where [enter_state] leaves
    the state alone. *)
Lemma advance_to_state st enter :
  frames same_state enter ->
  hoare (fun _ => True) (advance_to st enter) (fun s => m_state s = st).
Proof.
  intros He s _. unfold advance_to. run_m.
  destruct (lock_owned s); [|destruct (debug_assertions (env s)); [done|]];
    (destruct (bool_decide (st <> m_state s)); [|destruct (debug_assertions (env s)); [done|]]);
    specialize (He (set_m_state st s));
    (destruct (enter (set_m_state st s)); [| done |]); simpl in *;
    unfold same_state in He; rewrite He; by destruct s.
Qed.

Lemma Dying_enter_state_inv :
  hoare (fun s => m_state s = Dying) Dying_enter_state dying_has_session.
Proof.
  intros s Hs. unfold Dying_enter_state. run_m.
  destruct (m_session s) as [ws|] eqn:Hws.
  - unfold wire_call. run_m. destruct s; simpl in *. subst. simpl. intros _. eauto.
  - pose proof (advance_to_state Inactive Inactive_enter_state
                  (frames_Inactive_enter_state same_state) s I) as Hin.
    destruct (advance_to Inactive Inactive_enter_state s); simpl in *; [|done|];
      intros Hd; congruence.
Qed.

Lemma Active_enter_state_inv :
  hoare (fun s => m_state s = Active) Active_enter_state (fun s => m_state s <> Dying).
Proof.
  unfold Active_enter_state. apply hoare_get. intros a.
  destruct (match user (m_config a) with
            | Some u => access_token_refresh_required u
            | None => false
            end).
  - eapply (hoare_bind _ (fun s => m_state s = WaitingForAccessToken)).
    + eapply hoare_weaken; [apply advance_to_state| |]; [|done|done].
      unfold WaitingForAccessToken_enter_state. frame_auto.
    + intros s ->. done.
    + intros _. eapply (hoare_frames same_state); [frame_auto|].
      intros s s' Hs Hss. unfold same_state in Hss. congruence.
  - eapply (hoare_frames same_state); [frame_auto|].
    intros s s' [Hs _] Hss. unfold same_state in Hss. congruence.
Qed.

Lemma advance_state_inv st (P : SyncSession -> Prop) :
  hoare P (advance_state st) dying_has_session.
Proof.
  intros s _. unfold advance_state.
  destruct st.
  - (* Active *)
    unfold advance_to. run_m.
    destruct (lock_owned s); [|destruct (debug_assertions (env s)); [done|]];
      (destruct (bool_decide (Active <> m_state s));
         [|destruct (debug_assertions (env s)); [done|]]);
      pose proof (Active_enter_state_inv (set_m_state Active s)) as Ha;
      (destruct (Active_enter_state (set_m_state Active s)); [| done |]); simpl in *;
      intros Hd; apply Ha in Hd; try done; by destruct s.
  - (* Dying *)
    unfold advance_to. run_m.
    destruct (lock_owned s); [|destruct (debug_assertions (env s)); [done|]];
      (destruct (bool_decide (Dying <> m_state s));
         [|destruct (debug_assertions (env s)); [done|]]);
      pose proof (Dying_enter_state_inv (set_m_state Dying s)) as Ha;
      (destruct (Dying_enter_state (set_m_state Dying s)); [| done |]); simpl in *;
      apply Ha; by destruct s.
  - pose proof (advance_to_state Inactive Inactive_enter_state
                  (frames_Inactive_enter_state same_state) s I) as Hin.
    destruct (advance_to Inactive Inactive_enter_state s); simpl in *; [|done|];
      intros Hd; congruence.
  - assert (frames same_state WaitingForAccessToken_enter_state) as Hf
      by (unfold WaitingForAccessToken_enter_state; frame_auto).
    pose proof (advance_to_state WaitingForAccessToken _ Hf s I) as Hin.
    destruct (advance_to WaitingForAccessToken WaitingForAccessToken_enter_state s);
      simpl in *; [|done|]; intros Hd; congruence.
Qed.

Lemma hoare_emit e : hoare dying_has_session (emit e) dying_has_session.
Proof. intros s Hs. simpl. by destruct s. Qed.

Ltac inv_step :=
  lazymatch goal with
  | |- hoare _ (emit _) _ => apply hoare_emit
  | |- hoare _ (mbind _ _) _ =>
      apply (hoare_bind _ dying_has_session); [|done|intros ?]
  | |- hoare _ (advance_state _) _ => apply advance_state_inv
  | |- hoare _ (scoped_lock _) _ =>
      apply hoare_scoped_lock; [apply dying_has_session_lock|apply dying_has_session_lock|]
  | |- hoare _ (when ?c _) _ => destruct c; simpl
  | |- hoare _ (if ?c then _ else _) _ => destruct c
  | |- hoare _ (match ?x with _ => _ end) _ => destruct x
  end.

Ltac inv_auto := repeat first [ solve [apply hoare_stable; frame_auto] | inv_step ].

Lemma handle_error_inv e : hoare dying_has_session (handle_error e) dying_has_session.
Proof.
  unfold handle_error, handle_error_classification, handle_error_client_resync,
    handle_error_delivery, revive_if_needed, state_revive_if_needed, state_handle_error.
  inv_auto.
Qed.

Lemma revive_if_needed_inv : hoare dying_has_session revive_if_needed dying_has_session.
Proof. unfold revive_if_needed, state_revive_if_needed. inv_auto. Qed.

Lemma apply_op_inv op : hoare dying_has_session (apply_op op) dying_has_session.
Proof.
  destruct op; simpl; try apply handle_error_inv;
    try (intros s Hs; simpl; by destruct s);
    unfold close, log_out, revive_if_needed, handle_reconnect, detach_from_sync_manager,
      shutdown_and_wait, update_access_token, nonsync_transact_notify, wait_for_upload_completion,
      wait_for_download_completion, handle_progress_update, did_drop_external_reference,
      update_configuration, handle_refresh, update_access_token, dying_wait_completed,
      completion_wait_completed, connection_state_changed,
      state_close, state_log_out, state_revive_if_needed, state_handle_reconnect,
      state_shutdown_and_wait, state_access_token_updated, state_nonsync_transact_notify;
    inv_auto; try apply handle_error_inv; try apply revive_if_needed_inv.
Qed.

Lemma run_inv ops s s' :
  dying_has_session s -> run ops s = Ok tt s' -> dying_has_session s'.
Proof.
  revert s. induction ops as [|op ops IH]; intros s Hs Hrun; simpl in Hrun.
  - by inversion Hrun; subst.
  - pose proof (apply_op_inv op s Hs) as Hop.
    destruct (apply_op op s) as [[] s1|r s1|ex s1]; simpl in *; [|done|]; eauto.
Qed.

Lemma Dying_enter_state_without_session (s : SyncSession) :
  m_session s = None ->
  lock_owned s = true ->
  (debug_assertions (env s) = true -> m_state s <> Dying) ->
  advance_state Dying s = advance_state Inactive (set_m_state Dying s).
Proof.
  intros Hws Hlock Hst. unfold advance_state at 1. unfold Dying_enter_state.
  change (advance_to Inactive Inactive_enter_state) with (advance_state Inactive).
  unfold advance_to. unfold_m. unfold bind_m, REALM_ASSERT, modify, get.
  rewrite Hlock.
  assert ((if bool_decide (Dying <> m_state s) then Ok () s
           else if debug_assertions (env s) then Aborted assertion_failed s else Ok () s)
          = Ok () s) as ->.
  { case_bool_decide as Hd; [done|]. destruct (debug_assertions (env s)); [|done].
    exfalso. apply Hst; [done|]. destruct (m_state s); try done; exfalso; by apply Hd. }
  replace (m_session (set_m_state Dying s)) with (@None WireSession) by (by destruct s).
  reflexivity.
Qed.

Lemma advance_state_Dying_without_session (s : SyncSession) :
  m_session s = None ->
  lock_owned s = true ->
  (debug_assertions (env s) = true -> m_state s <> Dying) ->
  is_Some (m_sync_manager s) ->
  advance_state Dying s = Ok tt (entered_inactive s).
Proof.
  intros Hws Hlock Hst Hmgr. rewrite Dying_enter_state_without_session by done.
  rewrite advance_state_Inactive_eq.
  - reflexivity.
  - by destruct s.
  - by destruct s.
  - by destruct s.
Qed.

Lemma advance_state_Dying_detached (s : SyncSession) :
  m_session s = None ->
  lock_owned s = true ->
  (debug_assertions (env s) = true -> m_state s <> Dying) ->
  m_sync_manager s = None ->
  advance_state Dying s = Aborted null_dereference (detached_inactive s).
Proof.
  intros Hws Hlock Hst Hmgr. rewrite Dying_enter_state_without_session by done.
  rewrite advance_state_Inactive_detached.
  - reflexivity.
  - by destruct s.
  - by destruct s.
  - by destruct s.
Qed.

(** C10.  Entering [Dying] without a wire session advances at once to
    [Inactive]: the session is [Inactive] when the call ends, and the call
    returns where the pointer to the sync manager is not null; and after any
    run of a new session that does not abort, a dying session has its wire
    session. *)
Theorem dying_session_has_wire_session
    (s : SyncSession) (realm_path : string) (config : SyncConfig)
    (force_client_resync : bool) (sync_manager : option SyncManager) (e : Environment)
    (ops : list Op) (s' : SyncSession) :
  (m_session s = None ->
   lock_owned s = true ->
   (debug_assertions (env s) = true -> m_state s <> Dying) ->
   m_state (final (advance_state Dying s)) = Inactive
   /\ (is_Some (m_sync_manager s) ->
       exists s1, advance_state Dying s = Ok tt s1 /\ m_state s1 = Inactive))
  /\ (run ops (make_SyncSession realm_path config force_client_resync sync_manager e)
      = Ok tt s' ->
      m_state s' = Dying -> is_Some (m_session s')).
Proof.
  split.
  - intros Hws Hlock Hst. split.
    + destruct (m_sync_manager s) as [m|] eqn:Hm.
      * by rewrite advance_state_Dying_without_session.
      * by rewrite advance_state_Dying_detached.
    + intros Hmgr. exists (entered_inactive s). split; [|done].
      by apply advance_state_Dying_without_session.
  - intros Hrun. eapply run_inv; [|exact Hrun]. intros Hd. discriminate.
Qed.

End WithExternals.

(** *** The theorems at work on a session *)

Lemma entering_Inactive_cancels_every_wait_witness :
  exists s',
    advance_state Inactive (set_lock_owned true (a_session Active false Manual)) = Ok tt s'
    /\ m_completion_callbacks s' = ∅.
Proof.
  destruct (entering_Inactive_cancels_every_wait
              (set_lock_owned true (a_session Active false Manual)))
    as (s' & evs & Heq & _ & _ & Hempty & _).
  - reflexivity.
  - simpl. discriminate.
  - simpl. eauto.
  - exists s'. split; assumption.
Defined.

(** C4.  A session that waits for its access token with two completion
    callbacks pending is detached from its sync manager:
    [detach_from_sync_manager] shuts it down first, but
    [WaitingForAccessToken] has no [shutdown_and_wait] of its own, so the
    session is left waiting, its callbacks pending, the pointer null.  Logging
    out then enters [Inactive]: [Inactive::enter_state] swaps the map out and
    calls [unregister], which aborts on the null pointer before any callback
    is called.  The session is [Inactive], its map empty, and neither
    callback has been called. *)
Theorem detached_session_drops_its_waits :
  let s0 := make_SyncSession "/data/realm" (a_config true Manual) false
                             (Some the_sync_manager) an_environment in
  let ops := [op_wait_for_upload_completion 5%N; op_wait_for_download_completion 6%N;
              op_revive_if_needed; op_detach_from_sync_manager] in
  exists s1 s2,
    @run example_externals ops s0 = Ok tt s1
    /\ m_state s1 = WaitingForAccessToken
    /\ m_completion_callbacks s1 = {[ 1%N := (upload, 5%N); 2%N := (download, 6%N) ]}
    /\ m_sync_manager s1 = None
    /\ log_out s1 = Aborted null_dereference s2
    /\ advance_state Inactive (set_lock_owned true s1)
       = Aborted null_dereference s2
    /\ m_state s2 = Inactive
    /\ m_completion_callbacks s2 = ∅
    /\ List.filter is_completion (events s2) = [].
Proof.
  cbv zeta. eexists. eexists.
  split; [vm_compute; reflexivity|].
  split; [reflexivity|]. split; [vm_compute; reflexivity|]. split; [reflexivity|].
  split; [vm_compute; reflexivity|].
  split; [vm_compute; reflexivity|].
  split; [reflexivity|]. split; [reflexivity|]. reflexivity.
Qed.


Lemma handle_error_calls_handler_at_most_once_witness :
  exists evs,
    events (final (@handle_error example_externals
                     (an_error ProtocolError.bad_changeset true)
                     (a_session Dying false Manual)))
    = events (a_session Dying false Manual) ++ evs
    /\ handler_calls evs = 0%nat.
Proof.
  destruct (@handle_error_calls_handler_at_most_once example_externals
              (an_error ProtocolError.bad_changeset true) (a_session Dying false Manual))
    as (evs & Hev & _ & Hin).
  exists evs. split; [exact Hev|].
  refine (proj2 (Hin _ _ _ _ _)); [vm_compute; reflexivity|reflexivity].
Defined.

Lemma classification_is_total_but_for_token_expired_witness :
  (exists cl r s',
     @classify example_externals NS_error (an_error ProtocolError.bad_server_version true)
               (a_session Active false Manual) = Ok r s'
     /\ @classified_as example_externals cl (a_session Active false Manual) NS_error
                       (an_error ProtocolError.bad_server_version true) r s')
  /\ @classify example_externals NS_error (an_error ProtocolError.token_expired true)
               (a_session Active false Manual)
     = Aborted assertion_failed (a_session Active false Manual).
Proof.
  split.
  - refine (proj1 (@classification_is_total_but_for_token_expired example_externals
                     (a_session Active false Manual) NS_error
                     (an_error ProtocolError.bad_server_version true)
                     (ex_intro _ (a_user false) eq_refl)) _ _).
    + left. exists ProtocolError.bad_server_version. split; [reflexivity|discriminate].
    + right. simpl. eauto.
  - apply (proj2 (@classification_is_total_but_for_token_expired example_externals
                    (a_session Active false Manual) NS_error
                    (an_error ProtocolError.token_expired true)
                    (ex_intro _ (a_user false) eq_refl))).
    reflexivity.
Defined.

Lemma dying_session_has_wire_session_witness :
  (exists s1,
     advance_state Dying
                   (set_m_session None (set_lock_owned true (a_session Active false Manual)))
     = Ok tt s1 /\ m_state s1 = Inactive)
  /\ exists s',
       @run example_externals [op_revive_if_needed; op_close]
            (make_SyncSession "/data/realm" (a_config false Manual) false
                              (Some the_sync_manager) an_environment)
       = Ok tt s'
       /\ m_state s' = Dying /\ is_Some (m_session s').
Proof.
  split.
  - refine (proj2 (proj1 (@dying_session_has_wire_session example_externals
                     (set_m_session None (set_lock_owned true (a_session Active false Manual)))
                     "" (a_config false Manual) false None an_environment []
                     (make_SyncSession "" (a_config false Manual) false None an_environment))
                   _ _ _) _).
    + reflexivity.
    + reflexivity.
    + simpl. discriminate.
    + simpl. eauto.
  - eexists. split; [vm_compute; reflexivity|]. split; [reflexivity|].
    refine (proj2 (@dying_session_has_wire_session example_externals
                     (a_session Active false Manual)
                     "/data/realm" (a_config false Manual) false (Some the_sync_manager)
                     an_environment [op_revive_if_needed; op_close] _) _ _);
      [vm_compute; reflexivity|reflexivity].
Defined.

End SessionSpec.

(** * Further properties of the codec *)

Module CodecMore.
Import Codec CodecSpec.

(** ** Byte strings, continued *)

Lemma string_length_app (a b : string) :
  String.length (a +:+ b) = (String.length a + String.length b)%nat.
Proof. induction a as [|x a IH]; [reflexivity|]. unroll_append. by rewrite IH. Qed.


Lemma substring_split (s : string) (n : nat) :
  (n <= String.length s)%nat ->
  s = substring 0 n s +:+ substring n (String.length s - n) s.
Proof.
  revert n. induction s as [|x s IH]; intros n Hn.
  - destruct n; [reflexivity|]. simpl in Hn. lia.
  - destruct n as [|n].
    + rewrite Nat.sub_0_r, substring_0_all. reflexivity.
    + simpl in Hn. change (String.length (String x s) - S n)%nat
        with (String.length s - n)%nat. unroll_append. f_equal. apply IH. lia.
Qed.

Lemma length_substring_0 (s : string) (n : nat) :
  (n <= String.length s)%nat -> String.length (substring 0 n s) = n.
Proof.
  revert n. induction s as [|x s IH]; intros n Hn.
  - destruct n; [reflexivity|]. simpl in Hn. lia.
  - destruct n as [|n]; [reflexivity|]. simpl in Hn. unroll_append.
    simpl. f_equal. apply IH. lia.
Qed.

(** ** The authorization header *)

(** [parse_authorization_header] gives back the token of a header made by
    [make_authorization_header] when the token has four bytes or more, and
    nothing when it has fewer; and a header it accepts is "Bearer " followed
    by the token it returns, of four bytes or more. *)
Theorem authorization_header_round_trip :
  (forall t, parse_authorization_header (make_authorization_header t)
             = if (4 <=? String.length t)%nat then Some t else None)
  /\ (forall h t, parse_authorization_header h = Some t ->
                  h = make_authorization_header t /\ (4 <= String.length t)%nat).
Proof.
  split.
  - intros t. unfold parse_authorization_header, make_authorization_header, size.
    rewrite string_length_app.
    change (String.length "Bearer ") with 7%nat.
    destruct (4 <=? String.length t)%nat eqn:Hlen.
    + apply Nat.leb_le in Hlen.
      replace (N.of_nat (7 + String.length t) <? N.of_nat 7 + 4)%N with false
        by (symmetry; apply N.ltb_ge; lia).
      assert (substring 0 7 ("Bearer " +:+ t) = "Bearer ") as ->
        by apply (substring_0_app "Bearer " t).
      replace (7 + String.length t - 7)%nat with (String.length t) by lia.
      assert (substring 7 (String.length t) ("Bearer " +:+ t) = t) as ->
        by apply (substring_skip_app "Bearer " t).
      reflexivity.
    + apply Nat.leb_gt in Hlen.
      replace (N.of_nat (7 + String.length t) <? N.of_nat 7 + 4)%N with true
        by (symmetry; apply N.ltb_lt; lia).
      reflexivity.
  - intros h t. unfold parse_authorization_header, make_authorization_header, size.
    change (String.length "Bearer ") with 7%nat.
    destruct (N.of_nat (String.length h) <? N.of_nat 7 + 4)%N eqn:Hlen; [done|].
    apply N.ltb_ge in Hlen.
    destruct (String.eqb (substring 0 7 h) "Bearer ") eqn:Hpre; [|done].
    simpl. intros [= <-]. apply String.eqb_eq in Hpre.
    split.
    + rewrite <- Hpre at 1. apply substring_split. lia.
    + pose proof (substring_split h 7 ltac:(lia)) as Hsplit.
      apply (f_equal String.length) in Hsplit.
      rewrite string_length_app, length_substring_0 in Hsplit by lia. lia.
Qed.

Lemma authorization_header_round_trip_witness :
  "Bearer abcd" = make_authorization_header "abcd" /\ (4 <= String.length "abcd")%nat.
Proof.
  apply (proj2 authorization_header_round_trip "Bearer abcd" "abcd"). reflexivity.
Defined.

(** ** The body of an upload *)

(** The records of a list of changesets, one after another. *)
Fixpoint changeset_records (changesets : list (N * N * N * N * string)) : string :=
  match changesets with
  | [] => ""
  | c :: changesets =>
      changeset_record c.1.1.1.1 c.1.1.1.2 c.1.1.2 c.1.2 c.2
      +:+ changeset_records changesets
  end.

Lemma add_changeset_step (b : UploadMessageBuilder) (c : N * N * N * N * string) :
  m_body_buffer (add_changeset b c.1.1.1.1 c.1.1.1.2 c.1.1.2 c.1.2 c.2)
  = m_body_buffer b +:+ changeset_record c.1.1.1.1 c.1.1.1.2 c.1.1.2 c.1.2 c.2.
Proof. unfold add_changeset, changeset_record; simpl. flatten_out. reflexivity. Qed.

(** Adding changesets to a builder appends their records to the body in the
    order of the calls and counts them, modulo 2^64; the compression buffer
    is not touched and the compressor is not called. *)
Theorem add_changesets_accumulates (b : UploadMessageBuilder)
    (changesets : list (N * N * N * N * string)) :
  (m_num_changesets b < 2 ^ 64)%N ->
  let b' := add_changesets b changesets in
  m_body_buffer b' = m_body_buffer b +:+ changeset_records changesets
  /\ m_num_changesets b'
     = ((m_num_changesets b + N.of_nat (length changesets)) mod 2 ^ 64)%N
  /\ m_compression_buffer b' = m_compression_buffer b
  /\ compress_log b' = compress_log b.
Proof.
  intros Hn. simpl. unfold add_changesets.
  revert b Hn. induction changesets as [|c cs IH]; intros b Hn.
  - simpl. rewrite string_app_nil_r, N.add_0_r, N.mod_small by done. done.
  - cbn [foldl].
    destruct (IH (add_changeset b c.1.1.1.1 c.1.1.1.2 c.1.1.2 c.1.2 c.2))
      as (Hbody & Hnum & Hbuf & Hlog).
    { simpl. apply N.mod_lt. done. }
    rewrite Hbody, Hnum, Hbuf, Hlog. rewrite add_changeset_step.
    split; [|split; [|done]].
    + cbn [changeset_records]. by rewrite string_app_assoc'.
    + simpl m_num_changesets. rewrite N.Div0.add_mod_idemp_l. f_equal. simpl length. lia.
Qed.

Lemma add_changesets_accumulates_witness :
  m_body_buffer (add_changesets (make_upload_message_builder "")
                                [(1, 2, 3, 4, "ab"); (5, 6, 7, 8, "c")]%N)
  = "1 2 3 4 2 ab5 6 7 8 1 c".
Proof.
  rewrite (proj1 (add_changesets_accumulates (make_upload_message_builder "")
                    [(1, 2, 3, 4, "ab"); (5, 6, 7, 8, "c")]%N eq_refl)).
  vm_compute. reflexivity.
Defined.

(** ** Header lines *)

(** No byte of the string is a line feed. *)
Fixpoint no_lf (s : string) : bool :=
  match s with
  | "" => true
  | String c s => negb (Ascii.eqb c "010") && no_lf s
  end.

Lemma no_lf_app (a b : string) : no_lf (a +:+ b) = no_lf a && no_lf b.
Proof.
  induction a as [|x a IH]; [reflexivity|]. unroll_append. simpl.
  rewrite IH. by rewrite andb_assoc.
Qed.

Lemma no_lf_pretty_N_go (x : N) (s : string) :
  no_lf s = true -> no_lf (pretty_N_go x s) = true.
Proof.
  revert s. induction (N.lt_wf_0 x) as [x _ IH]; intros s Hs.
  assert (x = 0 \/ 0 < x)%N as [->|Hx] by lia.
  - by rewrite pretty_N_go_0.
  - rewrite pretty_N_go_step by done. apply IH.
    + by apply N.div_lt.
    + simpl. rewrite Hs. unfold pretty_N_char. by repeat case_match.
Qed.

Lemma no_lf_pretty_N (n : N) : no_lf (pretty n) = true.
Proof.
  unfold pretty, pretty_N. destruct (decide (n = 0%N)); [reflexivity|].
  by apply no_lf_pretty_N_go.
Qed.

Lemma no_lf_pretty_Z (z : Z) : no_lf (pretty z) = true.
Proof.
  destruct z as [|p|p]; [reflexivity|apply (no_lf_pretty_N (Npos p))|].
  change (no_lf ("-" +:+ pretty (Npos p)) = true). rewrite no_lf_app.
  rewrite (no_lf_pretty_N (Npos p)). reflexivity.
Qed.

Lemma no_lf_flag (b : bool) : no_lf (if b then "1" else "0") = true.
Proof. by destruct b. Qed.

Lemma prefix_lf (c : ascii) (s : string) :
  String.prefix (String "010" "") (String c s) = Ascii.eqb "010" c.
Proof.
  cbn [String.prefix]. destruct (ascii_dec "010" c) as [<-|Hne].
  - by destruct s.
  - symmetry. by apply Ascii.eqb_neq.
Qed.

Lemma index_lf_cons (c : ascii) (s : string) :
  index 0 (String "010" "") (String c s)
  = if Ascii.eqb "010" c then Some 0%nat
    else match index 0 (String "010" "") s with
         | Some n => Some (S n)
         | None => None
         end.
Proof.
  change (index 0 (String "010" "") (String c s))
    with (if String.prefix (String "010" "") (String c s) then Some 0%nat
          else match index 0 (String "010" "") s with
               | Some n => Some (S n)
               | None => None
               end).
  by rewrite prefix_lf.
Qed.

(** The first line feed of a line without one, followed by a line feed and
    anything, is at the end of the line. *)
Lemma first_newline_line (line rest : string) :
  no_lf line = true ->
  first_newline (line +:+ String "010" rest) = Some (String.length line).
Proof.
  unfold first_newline. induction line as [|c line IH]; intros Hline.
  - change ("" +:+ String "010" rest) with (String "010" rest).
    by rewrite index_lf_cons.
  - simpl in Hline. apply andb_true_iff in Hline as [Hc Hline].
    change (String c line +:+ String "010" rest)
      with (String c (line +:+ String "010" rest)).
    rewrite index_lf_cons, IH by done.
    rewrite Ascii.eqb_sym. apply negb_true_iff in Hc. by rewrite Hc.
Qed.

Ltac no_lf_auto :=
  rewrite ?no_lf_app, ?no_lf_pretty_N, ?no_lf_pretty_Z, ?no_lf_flag; reflexivity.

(** Where a message is a header line, its line feed and a payload. *)
Lemma framed (line payload : string) :
  no_lf line = true ->
  let header := line +:+ String "010" "" in
  let msg := header +:+ payload in
  first_newline msg = Some (String.length header - 1)%nat
  /\ substring 0 (String.length header) msg = header
  /\ String.length msg = (String.length header + String.length payload)%nat
  /\ substring (String.length header) (String.length payload) msg = payload.
Proof.
  intros Hline header msg. subst header msg. repeat split.
  - rewrite string_app_assoc'.
    change (String "010" "" +:+ payload) with (String "010" payload).
    rewrite first_newline_line by done.
    rewrite string_length_app. simpl. f_equal. lia.
  - apply substring_0_app.
  - apply string_length_app.
  - apply substring_skip_app.
Qed.




(** The header line of [upload], without its line feed. *)
Definition upload_line (session_ident : N) (is_body_compressed : bool)
    (uncompressed_body_size compressed_body_size pcv psv lsv : N) : string :=
  "upload " +:+ pretty session_ident +:+ " " +:+ (if is_body_compressed then "1" else "0") +:+
  " " +:+ pretty uncompressed_body_size +:+ " " +:+ pretty compressed_body_size +:+
  " " +:+ pretty pcv +:+ " " +:+ pretty psv +:+ " " +:+ pretty lsv.

Lemma upload_header_line sid flag usz csz pcv psv lsv :
  upload_header sid flag usz csz pcv psv lsv
  = upload_line sid flag usz csz pcv psv lsv +:+ String "010" ""
  /\ no_lf (upload_line sid flag usz csz pcv psv lsv) = true.
Proof.
  split.
  - unfold upload_header, upload_line. by rewrite !string_app_assoc'.
  - unfold upload_line. no_lf_auto.
Qed.

(** What [make_upload_message] sends: whether the body goes out compressed,
    the compressed size it declares, and the payload. *)
Definition upload_flag (allocate_and_compress : string -> string -> N * string)
    (b : UploadMessageBuilder) : bool :=
  (1024 <? size (m_body_buffer b))%N
  && ((allocate_and_compress (m_body_buffer b) (m_compression_buffer b)).1
      <? size (m_body_buffer b))%N.

Definition upload_payload (allocate_and_compress : string -> string -> N * string)
    (b : UploadMessageBuilder) : string :=
  let c := allocate_and_compress (m_body_buffer b) (m_compression_buffer b) in
  if upload_flag allocate_and_compress b then substring 0 (N.to_nat c.1) c.2
  else m_body_buffer b.

Lemma upload_message_layout
    (allocate_and_compress : string -> string -> N * string)
    (b : UploadMessageBuilder) (protocol_version : Z) (out : OutputBuffer)
    (session_ident pcv psv lsv : N) :
  let c := allocate_and_compress (m_body_buffer b) (m_compression_buffer b) in
  let flag := upload_flag allocate_and_compress b in
  (make_upload_message allocate_and_compress b protocol_version out
                       session_ident pcv psv lsv).1
  = out +:+ upload_header session_ident flag (size (m_body_buffer b))
                          (if flag then c.1 else 0%N) pcv psv lsv
        +:+ upload_payload allocate_and_compress b.
Proof.
  intros c flag. subst c flag.
  unfold make_upload_message, upload_payload, upload_flag, g_max_uncompressed.
  destruct (1024 <? size (m_body_buffer b))%N eqn:Hbig.
  - destruct (allocate_and_compress (m_body_buffer b) (m_compression_buffer b))
      as [sz buf]. simpl.
    destruct (sz <? size (m_body_buffer b))%N eqn:Hsmall; simpl.
    + unfold upload_header, write. flatten_out. reflexivity.
    + unfold upload_header. flatten_out. reflexivity.
  - simpl. rewrite N.ltb_irrefl. simpl. unfold upload_header. flatten_out. reflexivity.
Qed.

(** An [upload] message is framed: it is its header followed by its
    payload, the body where the flag is 0 and the first bytes of the
    compression buffer, as many as the compressed size, where it is 1; its
    header ends at its first line feed, whatever bytes the payload holds; and
    where the compressor returns a size within its buffer (when its output is
    used), the payload has as many bytes as the header declares, the
    compressed size when the flag is set and the uncompressed size otherwise,
    and is what that many bytes after the header are. *)
Theorem upload_message_frames
    (allocate_and_compress : string -> string -> N * string)
    (b : UploadMessageBuilder) (protocol_version : Z) (session_ident pcv psv lsv : N) :
  let c := allocate_and_compress (m_body_buffer b) (m_compression_buffer b) in
  let flag := upload_flag allocate_and_compress b in
  let declared := if flag then c.1 else size (m_body_buffer b) in
  let header := upload_header session_ident flag (size (m_body_buffer b))
                              (if flag then c.1 else 0%N) pcv psv lsv in
  let payload := if flag then substring 0 (N.to_nat c.1) c.2 else m_body_buffer b in
  let msg := (make_upload_message allocate_and_compress b protocol_version ""
                                  session_ident pcv psv lsv).1 in
  msg = header +:+ payload
  /\ first_newline msg = Some (String.length header - 1)%nat
  /\ substring 0 (String.length header) msg = header
  /\ ((flag = true -> (c.1 <= size c.2)%N) ->
      String.length msg = (String.length header + N.to_nat declared)%nat
      /\ substring (String.length header) (N.to_nat declared) msg = payload).
Proof.
  intros c flag declared header payload msg.
  assert (payload = upload_payload allocate_and_compress b) as Hpay by reflexivity.
  assert (msg = header +:+ payload) as Hmsg.
  { subst msg header. rewrite Hpay. by rewrite upload_message_layout. }
  destruct (upload_header_line session_ident flag (size (m_body_buffer b))
              (if flag then c.1 else 0%N) pcv psv lsv) as [Hhead Hline].
  fold header in Hhead.
  destruct (framed _ payload Hline) as (H1 & H2 & H3 & H4).
  rewrite <- Hhead, <- Hmsg in H1, H2, H3, H4.
  split; [exact Hmsg|]. split; [exact H1|]. split; [exact H2|].
  intros Hc.
  assert (String.length payload = N.to_nat declared) as Hlen.
  { subst declared payload. destruct flag.
    - apply length_substring_0. specialize (Hc eq_refl). unfold size in Hc. lia.
    - unfold size. by rewrite Nat2N.id. }
  rewrite Hlen in H3, H4. split; [exact H3|exact H4].
Qed.

Lemma upload_message_frames_witness :
  String.length (make_upload_message squeeze (mkBuilder (filler 1025) "" 1 []) 1 ""
                                     7 1 2 3).1
  = 27%nat.
Proof.
  rewrite (proj1 (proj2 (proj2 (proj2
             (upload_message_frames squeeze (mkBuilder (filler 1025) "" 1 []) 1 7 1 2 3)))
             ltac:(intros _; vm_compute; discriminate))).
  vm_compute. reflexivity.
Defined.

(** The header line of [download]. *)
Definition download_line (session_ident download_server_version download_client_version
    latest_server_version : N) (latest_server_version_salt : Z)
    (upload_client_version upload_server_version downloadable_bytes : N)
    (body_is_compressed : bool) (uncompressed_body_size compressed_body_size : N)
    : string :=
  "download " +:+ pretty session_ident +:+ " " +:+ pretty download_server_version +:+
  " " +:+ pretty download_client_version +:+ " " +:+ pretty latest_server_version +:+
  " " +:+ pretty latest_server_version_salt +:+ " " +:+ pretty upload_client_version +:+
  " " +:+ pretty upload_server_version +:+ " " +:+ pretty downloadable_bytes +:+
  " " +:+ (if body_is_compressed then "1" else "0") +:+
  " " +:+ pretty uncompressed_body_size +:+ " " +:+ pretty compressed_body_size.

(** A [download] message is its header line, with the eleven fields in
    order, a line feed, and the first bytes of the body: as many as the
    compressed size says when the body is compressed, as the uncompressed
    size says otherwise.  The header ends at the first line feed of the
    message, and the payload has the length declared where the body has that
    many bytes. *)
Theorem download_message_frames (protocol_version : Z)
    (session_ident dsv dcv lsv : N) (salt : Z) (ucv usv downloadable num_changesets : N)
    (body : string) (uncompressed_body_size compressed_body_size : N)
    (body_is_compressed : bool) :
  let body_size := if body_is_compressed then compressed_body_size
                   else uncompressed_body_size in
  (body_size <= size body)%N ->
  let header := download_line session_ident dsv dcv lsv salt ucv usv downloadable
                              body_is_compressed uncompressed_body_size
                              compressed_body_size +:+ String "010" "" in
  let msg := (make_download_message protocol_version "" session_ident dsv dcv lsv salt
                ucv usv downloadable num_changesets body uncompressed_body_size
                compressed_body_size body_is_compressed).1 in
  first_newline msg = Some (String.length header - 1)%nat
  /\ substring 0 (String.length header) msg = header
  /\ String.length msg = (String.length header + N.to_nat body_size)%nat
  /\ substring (String.length header) (N.to_nat body_size) msg
     = substring 0 (N.to_nat body_size) body.
Proof.
  intros body_size Hsize header msg.
  assert (msg = header +:+ substring 0 (N.to_nat body_size) body) as Hmsg.
  { subst msg header body_size. unfold make_download_message, download_line, write. simpl.
    flatten_out. reflexivity. }
  assert (no_lf (download_line session_ident dsv dcv lsv salt ucv usv downloadable
                   body_is_compressed uncompressed_body_size compressed_body_size) = true)
    as Hline by (unfold download_line; no_lf_auto).
  destruct (framed _ (substring 0 (N.to_nat body_size) body) Hline) as (H1 & H2 & H3 & H4).
  fold header in H1, H2, H3, H4. rewrite <- Hmsg in H1, H2, H3, H4.
  rewrite length_substring_0 in H3, H4 by (unfold size in Hsize; lia).
  done.
Qed.

Lemma download_message_frames_witness :
  String.length (make_download_message 1 "" 7 1 2 3 (-4) 5 6 100 1 "abcdef" 6 0 false).1
  = 40%nat.
Proof.
  rewrite (proj1 (proj2 (proj2 (download_message_frames 1 7 1 2 3 (-4) 5 6 100 1 "abcdef"
                                  6 0 false ltac:(vm_compute; discriminate))))).
  vm_compute. reflexivity.
Defined.

(** *** The other messages *)

(** The messages that are a line: [unbind], [mark], [alloc] and [unbound].
    The builder leaves what is in the buffer and appends the fields, a space
    between them, and a line feed, which is the only one of the message. *)
Theorem control_messages_are_single_lines (out : OutputBuffer)
    (session_ident request_ident : N) :
  let line_of (message line : string) :=
    message = out +:+ line +:+ String "010" ""
    /\ no_lf line = true
    /\ first_newline (line +:+ String "010" "") = Some (String.length line) in
  line_of (make_unbind_message out session_ident) ("unbind " +:+ pretty session_ident)
  /\ line_of (make_mark_message out session_ident request_ident)
             ("mark " +:+ pretty session_ident +:+ " " +:+ pretty request_ident)
  /\ line_of (make_alloc_message out session_ident) ("alloc " +:+ pretty session_ident)
  /\ line_of (make_unbound_message out session_ident) ("unbound " +:+ pretty session_ident).
Proof.
  assert (Hline : forall line, no_lf line = true ->
            first_newline (line +:+ String "010" "") = Some (String.length line)).
  { intros line Hl. by rewrite first_newline_line. }
  cbv zeta. repeat split;
    try (unfold make_unbind_message, make_mark_message, make_alloc_message,
           make_unbound_message; flatten_out; reflexivity);
    try no_lf_auto; apply Hline; no_lf_auto.
Qed.

(** A [refresh] message is its header line, which announces the length of the
    signed user token, and the token: the header ends at the first line feed
    of the message, and the token follows, whole, whatever bytes it holds. *)
Theorem refresh_message_frames (session_ident : N) (signed_user_token : string) :
  let header := "refresh " +:+ pretty session_ident +:+ " "
                  +:+ pretty (size signed_user_token) +:+ String "010" "" in
  let msg := make_refresh_message "" session_ident signed_user_token in
  first_newline msg = Some (String.length header - 1)%nat
  /\ substring 0 (String.length header) msg = header
  /\ String.length msg = (String.length header + String.length signed_user_token)%nat
  /\ substring (String.length header) (String.length signed_user_token) msg
     = signed_user_token.
Proof.
  intros header msg.
  assert (msg = header +:+ signed_user_token) as ->.
  { subst msg header. unfold make_refresh_message. simpl. flatten_out. reflexivity. }
  subst header.
  pose proof (framed ("refresh " +:+ pretty session_ident +:+ " "
                        +:+ pretty (size signed_user_token)) signed_user_token) as Hf.
  cbv zeta in Hf. rewrite !string_app_assoc' in Hf. rewrite !string_app_assoc'.
  apply Hf. no_lf_auto.
Qed.

(** An [error] message is its header line, with the code, the length of the
    text, the flag [try_again] and the session, and the first bytes of the
    text, as many as the header says, where the text has that many. *)
Theorem error_message_frames (protocol_version error_code : Z) (message : string)
    (message_size : N) (try_again : bool) (session_ident : N) :
  (message_size <= size message)%N ->
  let header := "error " +:+ pretty error_code +:+ " " +:+ pretty message_size +:+ " "
                  +:+ (if try_again then "1" else "0") +:+ " " +:+ pretty session_ident
                  +:+ String "010" "" in
  let msg := make_error_message protocol_version "" error_code message message_size
                                try_again session_ident in
  first_newline msg = Some (String.length header - 1)%nat
  /\ substring 0 (String.length header) msg = header
  /\ String.length msg = (String.length header + N.to_nat message_size)%nat
  /\ substring (String.length header) (N.to_nat message_size) msg
     = substring 0 (N.to_nat message_size) message.
Proof.
  intros Hsize header msg.
  assert (msg = header +:+ substring 0 (N.to_nat message_size) message) as ->.
  { subst msg header. unfold make_error_message, write. simpl. flatten_out. reflexivity. }
  subst header.
  pose proof (framed ("error " +:+ pretty error_code +:+ " " +:+ pretty message_size +:+ " "
                        +:+ (if try_again then "1" else "0") +:+ " "
                        +:+ pretty session_ident)
                     (substring 0 (N.to_nat message_size) message)) as Hf.
  cbv zeta in Hf. rewrite !string_app_assoc' in Hf. rewrite !string_app_assoc'.
  rewrite length_substring_0 in Hf by (unfold size in Hsize; lia).
  apply Hf. no_lf_auto.
Qed.

Lemma error_message_frames_witness :
  String.length (make_error_message 1 "" 203 "bad token" 9 false 7) = 25%nat.
Proof.
  rewrite (proj1 (proj2 (proj2 (error_message_frames 1 203 "bad token" 9 false 7
                                  ltac:(vm_compute; discriminate))))).
  vm_compute. reflexivity.
Defined.

End CodecMore.

(** * Further properties of the progress tracker *)

Module ProgressMore.
Import Progress ProgressSpec.

(** After [unregister_callback] no update calls the callback of the token;
    the other registrations are as they were; and unregistering again
    changes nothing. *)
Theorem unregister_callback_silences (n : SyncProgressNotifier) (token : N)
    (u : UpdateArgs) :
  calls_of token (update (unregister_callback n token) u).2 = []
  /\ (forall other, other <> token ->
        calls_of other (update (unregister_callback n token) u).2
        = calls_of other (update n u).2)
  /\ unregister_callback (unregister_callback n token) token = unregister_callback n token.
Proof.
  repeat split.
  - destruct (decide (u_download_version u = 0%N)) as [Hv|Hv].
    + by rewrite update_ignored.
    + destruct (update_lookup (unregister_callback n token) u token Hv) as [_ ->].
      simpl. by rewrite lookup_delete_eq.
  - intros other Hne. destruct (decide (u_download_version u = 0%N)) as [Hv|Hv].
    + by rewrite !update_ignored.
    + destruct (update_lookup (unregister_callback n token) u other Hv) as [_ ->].
      destruct (update_lookup n u other Hv) as [_ ->].
      simpl. by rewrite lookup_delete_ne.
  - unfold unregister_callback. simpl. f_equal. apply map_eq. intros k.
    destruct (decide (k = token)) as [->|Hne].
    + by rewrite !lookup_delete_eq.
    + by rewrite !lookup_delete_ne.
Qed.








(** A streaming registration is never removed by updates: after any sequence
    of updates it is registered as it was. *)
Theorem streaming_registration_stays (n : SyncProgressNotifier) (us : list UpdateArgs)
    (token : N) (p : NotifierPackage) :
  m_packages n !! token = Some p ->
  is_streaming p = true ->
  m_packages (run_updates n us).1 !! token = Some p.
Proof.
  revert n. induction us as [|u us IH]; intros n Hp Hs; [done|].
  simpl. destruct (update n u) as [n1 calls1] eqn:Hu.
  destruct (run_updates n1 us) as [n2 calls2] eqn:Hr. simpl.
  assert (m_packages n1 !! token = Some p) as Hp1.
  { destruct (decide (u_download_version u = 0%N)) as [Hv|Hv].
    - rewrite update_ignored in Hu by done. by inversion Hu; subst.
    - destruct (update_lookup n u token Hv) as [Hl _]. rewrite Hu in Hl. simpl in Hl.
      rewrite Hl, Hp. simpl. by destruct (create_invocation_streaming p u Hs) as [_ ->]. }
  specialize (IH n1 Hp1 Hs). by rewrite Hr in IH.
Qed.

Lemma streaming_registration_stays_witness :
  m_packages (run_updates registered_streaming shrinking_download).1 !! 1%N
  = Some (mkPackage 100%N None 0 true true).
Proof. apply streaming_registration_stays; reflexivity. Defined.

(** A non-streaming registration with a captured baseline is called with
    that baseline; it stays registered, unchanged, while transferred is below
    the baseline, and is removed by the update that reports transferred at or
    above it. *)
Theorem non_streaming_registration_expires (n : SyncProgressNotifier) (u : UpdateArgs)
    (token : N) (p : NotifierPackage) (baseline : N) :
  u_download_version u <> 0%N ->
  m_packages n !! token = Some p ->
  is_streaming p = false ->
  captured_transferrable p = Some baseline ->
  calls_of token (update n u).2 = [(transferred_of (is_download p) u, baseline)]
  /\ m_packages (update n u).1 !! token
     = if (baseline <=? transferred_of (is_download p) u)%N then None else Some p.
Proof.
  intros Hv Hp Hs Hc. destruct (update_lookup n u token Hv) as [Hl Hcalls].
  rewrite Hp in Hl, Hcalls. simpl in Hl.
  destruct (create_invocation_captured p u baseline Hs Hc) as [Hr Ha].
  by rewrite Hcalls, Hl, Hr, Ha.
Qed.

Lemma non_streaming_registration_expires_witness :
  m_packages (update (mkNotifier {[ 1%N := mkPackage 100%N (Some 10%N) 0 false false ]}
                                 None 0 2)
                     (mkUpdate 0 0 15 20 1 2)).1 !! 1%N = None.
Proof.
  rewrite (proj2 (non_streaming_registration_expires
                    (mkNotifier {[ 1%N := mkPackage 100%N (Some 10%N) 0 false false ]}
                                None 0 2)
                    (mkUpdate 0 0 15 20 1 2) 1 (mkPackage 100%N (Some 10%N) 0 false false)
                    10 ltac:(discriminate) eq_refl eq_refl eq_refl)).
  reflexivity.
Defined.

(** Registering a callback disturbs no registration: the packages registered
    stay as they are, under their tokens, and only the token handed out can
    come to hold a package.  The callback is called at most once, on the
    spot, and not at all before the first progress has been received; the
    token returned is the one handed out, or 0 where the callback was called
    and the registration skipped, as can happen to a registration that is not
    streaming only. *)
Theorem register_callback_keeps_registrations (n : SyncProgressNotifier) (f : Callback)
    (direction : NotifierType) (streaming : bool) :
  let token := m_progress_notifier_token n in
  let r := register_callback n f direction streaming in
  (forall k p, m_packages n !! k = Some p -> m_packages r.1.2 !! k = Some p)
  /\ (forall k, k <> token -> m_packages r.1.2 !! k = m_packages n !! k)
  /\ m_progress_notifier_token r.1.2 = incr64 token
  /\ m_current_progress r.1.2 = m_current_progress n
  /\ (length r.2 <= 1)%nat
  /\ (forall c, c ∈ r.2 -> c.1 = token /\ c.2.1.1 = f)
  /\ (m_current_progress n = None -> r.2 = [] /\ r.1.1 = token)
  /\ (r.1.1 = token
      \/ (r.1.1 = 0%N /\ streaming = false /\ m_packages r.1.2 = m_packages n
          /\ length r.2 = 1%nat)).
Proof.
  intros token r. subst r token. unfold register_callback.
  assert (Hemp : forall (p : NotifierPackage) k q,
            m_packages n !! k = Some q ->
            emplace (m_progress_notifier_token n) p (m_packages n) !! k = Some q).
  { intros p k q Hk. unfold emplace.
    destruct (m_packages n !! m_progress_notifier_token n) eqn:Ht; [done|].
    rewrite lookup_insert_ne; [done|]. intros <-. congruence. }
  assert (Hemp' : forall (p : NotifierPackage) k,
            k <> m_progress_notifier_token n ->
            emplace (m_progress_notifier_token n) p (m_packages n) !! k = m_packages n !! k).
  { intros p k Hk. unfold emplace.
    destruct (m_packages n !! m_progress_notifier_token n) eqn:Ht; [done|].
    by rewrite lookup_insert_ne. }
  destruct (m_current_progress n) as [current|] eqn:Hcur; simpl;
    [unfold create_invocation; simpl; destruct streaming; simpl;
     [|destruct (bool_decide (direction = download)); simpl;
       [destruct (downloadable current <=? downloaded current)%N; simpl
       |destruct (snapshot_version current <? m_local_transaction_version n)%N; simpl;
        [|destruct (uploadable current <=? uploaded current)%N; simpl]]]|];
    repeat match goal with
           | |- _ /\ _ => split
           | |- forall _, _ => intro
           | Hx : _ ∈ [] |- _ => by apply elem_of_nil in Hx
           | Hx : _ ∈ [_] |- _ => apply list_elem_of_singleton in Hx; subst
           | |- _ \/ _ => first [left; reflexivity | right]
           end;
    simpl; auto; try discriminate; try lia.
Qed.

(** Registering, not streaming, for a transfer that the latest progress shows
    complete (for uploads: the local version reached as well): the callback is
    called once, on the spot, with that progress; nothing is registered, later
    updates do not call the callback, and the token returned is 0. *)
Theorem registering_for_a_complete_transfer (n : SyncProgressNotifier) (f : Callback)
    (direction : NotifierType) (current : Progress) (u : UpdateArgs) :
  m_current_progress n = Some current ->
  (direction = download -> (downloadable current <= downloaded current)%N) ->
  (direction = upload ->
   (m_local_transaction_version n <= snapshot_version current)%N
   /\ (uploadable current <= uploaded current)%N) ->
  let token := m_progress_notifier_token n in
  let r := register_callback n f direction false in
  r.1.1 = 0%N
  /\ r.2 = [(token, (f, if bool_decide (direction = download)
                       then downloaded current else uploaded current,
                     if bool_decide (direction = download)
                     then downloadable current else uploadable current))]
  /\ m_packages r.1.2 = m_packages n
  /\ (m_packages n !! token = None -> calls_of token (update r.1.2 u).2 = []).
Proof.
  intros Hcur Hd Hu token r. subst r token. unfold register_callback. rewrite Hcur.
  unfold create_invocation. simpl.
  assert (Hquiet : forall n',
            m_packages n' = m_packages n ->
            m_packages n !! m_progress_notifier_token n = None ->
            calls_of (m_progress_notifier_token n) (update n' u).2 = []).
  { intros n' Hn' Hnone. destruct (decide (u_download_version u = 0%N)) as [Hv|Hv].
    - by rewrite update_ignored.
    - destruct (update_lookup n' u (m_progress_notifier_token n) Hv) as [_ ->].
      by rewrite Hn', Hnone. }
  destruct direction; simpl.
  - destruct (Hu eq_refl) as [Hv Hup].
    replace (snapshot_version current <? m_local_transaction_version n)%N with false
      by (symmetry; apply N.ltb_ge; lia).
    simpl. replace (uploadable current <=? uploaded current)%N with true
      by (symmetry; apply N.leb_le; lia).
    simpl. split; [done|]. split; [done|]. split; [done|]. by apply Hquiet.
  - replace (downloadable current <=? downloaded current)%N with true
      by (symmetry; apply N.leb_le; auto).
    simpl. split; [done|]. split; [done|]. split; [done|]. by apply Hquiet.
Qed.

Lemma registering_for_a_complete_transfer_witness :
  (register_callback (mkNotifier ∅ (Some (mkProgress 10 20 10 20 3)) 2 1) 7%N download false).1.1
  = 0%N.
Proof.
  apply (registering_for_a_complete_transfer
           (mkNotifier ∅ (Some (mkProgress 10 20 10 20 3)) 2 1) 7%N download
           (mkProgress 10 20 10 20 3) (mkUpdate 0 0 0 0 1 1) eq_refl).
  - intros _. simpl. lia.
  - intros Hx. discriminate Hx.
Defined.

End ProgressMore.

(** * Further properties of the session *)

Module SessionMore.
Import Session SessionSpec.

(** The entries of a map are iterated by strictly increasing key. *)
Lemma map_iter_increasing {V} (m : gmap N V) :
  StronglySorted N.lt (map_iter m).*1.
Proof.
  assert (Hs : StronglySorted (@key_le V) (map_iter m)).
  { apply StronglySorted_merge_sort.
    - intros a b c. unfold key_le. lia.
    - intros a b. unfold key_le. lia. }
  pose proof (NoDup_fst_map_iter m) as Hnd.
  induction Hs as [|a l Hs IH Hall]; simpl; [constructor|].
  rewrite fmap_cons in Hnd. apply NoDup_cons in Hnd as [Ha Hnd].
  constructor; [by apply IH|].
  apply Forall_forall. intros k Hk. apply list_elem_of_fmap in Hk as [b [-> Hb]].
  rewrite Forall_forall in Hall. specialize (Hall b Hb). unfold key_le in Hall.
  assert (a.1 <> b.1); [|lia].
  intros Heq. apply Ha. rewrite Heq. apply list_elem_of_fmap. eauto.
Qed.

Section WithExternals.
Context `{Externals}.

Ltac unfold_m := unfold mbind, mret, M_bind, M_ret in *.
Ltac run_m := unfold_m; simpl.
Ltac unfold_setters :=
  cbv [set_m_state set_m_connection_state set_m_config set_m_force_client_resync
       set_m_session set_m_completion_callbacks set_m_completion_request_counter
       set_m_death_count set_m_server_url set_m_progress_notifier set_m_sync_manager
       set_lock_owned set_events set_env m_state m_connection_state m_config
       m_force_client_resync m_realm_path m_session m_completion_callbacks
       m_completion_request_counter m_death_count m_server_url m_progress_notifier
       m_sync_manager lock_owned events env].
Ltac same_events := repeat (progress (rewrite <- ?app_assoc, ?app_nil_r; simpl)); reflexivity.

(** *** Cancelling the pending waits *)

(** The ids of the completion callbacks called in a trace, in order. *)
Definition completion_ids (evs : list Event) : list N :=
  omap (fun e => match e with EvCompletion id _ _ _ => Some id | _ => None end) evs.

Lemma cancel_pending_waits_eq (ec : error_code) (s : SyncSession) :
  cancel_pending_waits ec s
  = Ok tt (set_events (events s ++ completions ec (m_completion_callbacks s))
             (set_lock_owned false (set_m_completion_callbacks ∅ s))).
Proof.
  unfold cancel_pending_waits. run_m. rewrite for_each_emit. by destruct s.
Qed.

Lemma completion_ids_completions ec (m : gmap N (NotifierType * Callback)) :
  completion_ids (completions ec m) = (map_iter m).*1.
Proof.
  unfold completions, completion_ids.
  induction (map_iter m) as [|w l IH]; [done|]. cbn. f_equal. exact IH.
Qed.

(** [cancel_pending_waits] always returns; it leaves the map of pending
    completion callbacks empty and the lock released, changes neither the
    state nor the wire session, and adds to the trace one call for each
    callback that was pending, with the error code given, by increasing id,
    and nothing else. *)
Theorem cancel_pending_waits_calls_each_once (ec : error_code) (s : SyncSession) :
  exists s' evs,
    cancel_pending_waits ec s = Ok tt s'
    /\ m_completion_callbacks s' = ∅
    /\ lock_owned s' = false
    /\ m_state s' = m_state s
    /\ m_session s' = m_session s
    /\ events s' = events s ++ evs
    /\ length evs = size (m_completion_callbacks s)
    /\ StronglySorted N.lt (completion_ids evs)
    /\ (forall id direction callback,
          m_completion_callbacks s !! id = Some (direction, callback) ->
          List.filter (is_completion_of id) evs = [EvCompletion id direction callback ec])
    /\ (forall e, e ∈ evs ->
          exists id direction callback,
            e = EvCompletion id direction callback ec
            /\ m_completion_callbacks s !! id = Some (direction, callback)).
Proof.
  exists (set_events (events s ++ completions ec (m_completion_callbacks s))
            (set_lock_owned false (set_m_completion_callbacks ∅ s))),
         (completions ec (m_completion_callbacks s)).
  split; [apply cancel_pending_waits_eq|].
  repeat split; try (by destruct s).
  - apply length_completions.
  - rewrite completion_ids_completions. apply map_iter_increasing.
  - intros id d f Hm. by apply completions_of.
  - intros e He. unfold completions in He.
    apply list_elem_of_fmap in He as [[id [d cb]] [-> Hin]].
    exists id, d, cb. split; [done|]. by apply elem_of_map_iter.
Qed.

(** *** A completion callback is called once *)

Lemma completion_wait_completed_eq (id : N) (ec : error_code) (s : SyncSession) :
  completion_wait_completed id ec s
  = Ok tt (set_events
             (events s ++ match m_completion_callbacks s !! id with
                          | Some (direction, callback) =>
                              [EvCompletion id direction callback ec]
                          | None => []
                          end)
             (set_lock_owned false
                (set_m_completion_callbacks (delete id (m_completion_callbacks s)) s))).
Proof.
  unfold completion_wait_completed. run_m.
  destruct s as [st cs cfg frc path ws cbs cnt dc url pn mgr lk ev en]. simpl.
  destruct (cbs !! id) as [[d f]|]; simpl; [done|]. by rewrite app_nil_r.
Qed.

(** When the wait of a completion callback completes, the callback is called
    with the error code of the wait if it is still pending, and is pending no
    more: the closure called again does nothing to the trace, and no
    cancellation of the pending waits calls the callback after it. *)
Theorem completion_callback_is_called_once (id : N) (ec : error_code) (s : SyncSession) :
  exists s1,
    completion_wait_completed id ec s = Ok tt s1
    /\ events s1
       = events s ++ match m_completion_callbacks s !! id with
                     | Some (direction, callback) => [EvCompletion id direction callback ec]
                     | None => []
                     end
    /\ m_completion_callbacks s1 = delete id (m_completion_callbacks s)
    /\ m_state s1 = m_state s
    /\ (forall ec', exists s2,
          completion_wait_completed id ec' s1 = Ok tt s2 /\ events s2 = events s1)
    /\ (forall ec', exists s2 evs,
          cancel_pending_waits ec' s1 = Ok tt s2
          /\ events s2 = events s1 ++ evs
          /\ List.filter (is_completion_of id) evs = []).
Proof.
  eexists. split; [apply completion_wait_completed_eq|].
  split; [by destruct s|]. split; [by destruct s|]. split; [by destruct s|]. split.
  - intros ec'. eexists. split; [apply completion_wait_completed_eq|].
    destruct s as [st cs cfg frc path ws cbs cnt dc url pn mgr lk ev en]. simpl.
    rewrite lookup_delete_eq. by rewrite app_nil_r.
  - intros ec'. do 2 eexists. split; [apply cancel_pending_waits_eq|].
    split; [by destruct s|].
    destruct s as [st cs cfg frc path ws cbs cnt dc url pn mgr lk ev en]. simpl.
    unfold completions. apply filter_completion_absent.
    apply not_elem_of_map_iter. apply lookup_delete_eq.
Qed.

(** *** Closing, logging out and shutting down *)

Lemma bind_ok {A B} (m : M A) (k : A -> M B) (s s' : SyncSession) (a : A) :
  m s = Ok a s' -> (m ≫= k) s = k a s'.
Proof. intros Hm. unfold_m. unfold bind_m. by rewrite Hm. Qed.

Lemma bind_get {B} (k : SyncSession -> M B) (s : SyncSession) :
  (get ≫= k) s = k s s.
Proof. reflexivity. Qed.

(** The outcome of a call that unregisters the session: it returns, leaving
    [attached], where the pointer to the sync manager is not null, and aborts
    on the pointer, leaving [detached], where it is null. *)
Definition unregistering (s attached detached : SyncSession) : Outcome unit :=
  match m_sync_manager s with
  | Some _ => Ok tt attached
  | None => Aborted null_dereference detached
  end.

Lemma locked_advance_state_Inactive_outcome (s : SyncSession) :
  m_state s <> Inactive ->
  scoped_lock (advance_state Inactive) s
  = unregistering s (entered_inactive s) (detached_inactive s).
Proof.
  intros Hst. unfold scoped_lock, unregistering.
  destruct (m_sync_manager s) as [m|] eqn:Hm.
  - rewrite advance_state_Inactive_eq; [by destruct s|by destruct s| |].
    + intros _. by destruct s.
    + destruct s; simpl in *; subst; eauto.
  - rewrite advance_state_Inactive_detached; [by destruct s|by destruct s| |].
    + intros _. by destruct s.
    + by destruct s.
Qed.

Lemma locked_advance_state_Inactive (s : SyncSession) :
  m_state s <> Inactive ->
  is_Some (m_sync_manager s) ->
  scoped_lock (advance_state Inactive) s = Ok tt (entered_inactive s).
Proof.
  intros Hst [m Hm]. rewrite locked_advance_state_Inactive_outcome by done.
  unfold unregistering. by rewrite Hm.
Qed.

(** The session that [Dying::enter_state] leaves where there is a wire
    session: the death count is one more, and the wire session is asked to
    call back, with that count, when the upload completes. *)
Definition entered_dying (ws : WireSession) (s : SyncSession) : SyncSession :=
  set_lock_owned false
    (set_m_session
       (Some (mkWire (ws_realm_path ws) (ws_signed_user_token ws) (ws_realm_identifier ws)
                     (ws_client_reset_config ws)
                     (ws_calls ws ++ [async_wait_for_upload_completion
                                        (DyingWaiter (incr64 (m_death_count s)))])))
       (set_m_death_count (incr64 (m_death_count s)) (set_m_state Dying s))).

Lemma advance_state_Dying_eq (s : SyncSession) (ws : WireSession) :
  m_session s = Some ws ->
  lock_owned s = true ->
  m_state s <> Dying ->
  advance_state Dying s = Ok tt (set_lock_owned true (entered_dying ws s)).
Proof.
  intros Hws Hlock Hst. unfold advance_state, advance_to, Dying_enter_state, wire_call.
  destruct s as [st cs cfg frc path ws0 cbs cnt dc url pn mgr lk ev en]. simpl in *.
  subst ws0 lk. run_m. rewrite bool_decide_true by congruence. reflexivity.
Qed.

Lemma close_to_dying (s : SyncSession) (ws : WireSession) :
  m_state s = Active ->
  stop_policy (m_config s) = AfterChangesUploaded ->
  m_session s = Some ws ->
  close s = Ok tt (entered_dying ws s).
Proof.
  intros Hst Hpol Hws. unfold close, state_close, scoped_lock. rewrite bind_get. cbv beta.
  replace (m_state (set_lock_owned true s)) with Active by (by destruct s).
  replace (m_config (set_lock_owned true s)) with (m_config s) by (by destruct s).
  rewrite Hpol. rewrite (advance_state_Dying_eq _ ws); [|by destruct s..|].
  - by destruct s.
  - destruct s; simpl in *; congruence.
Qed.

Lemma close_while_waiting (s : SyncSession) :
  m_state s = WaitingForAccessToken ->
  is_Some (m_sync_manager s) ->
  close s = Ok tt (entered_inactive s).
Proof.
  intros Hst Hmgr. unfold close, state_close, scoped_lock. rewrite bind_get. cbv beta.
  replace (m_state (set_lock_owned true s)) with WaitingForAccessToken by (by destruct s).
  rewrite advance_state_Inactive_eq; [by destruct s|by destruct s| |by destruct s].
  intros _. destruct s; simpl in *; congruence.
Qed.

(** [close], in every state and whether or not the pointer to the sync
    manager is null.  It makes an active session inactive under the stop
    policy [Immediately], leaves it as it is under [LiveIndefinitely], and
    makes it dying under [AfterChangesUploaded] (inactive, for want of a wire
    session); it makes a session that waits for its access token inactive; it
    leaves a dying session as it is, with the wait it has; and of an inactive
    session it only unregisters the session again.  Where it makes the session
    inactive or unregisters it, it returns if the pointer is not null and
    aborts on the pointer if it is: the session is then left inactive, its
    map of completion callbacks emptied and none of them called. *)
Theorem close_outcome (s : SyncSession) :
  close s
  = match m_state s with
    | Active =>
        match stop_policy (m_config s), m_session s with
        | Immediately, _ => unregistering s (entered_inactive s) (detached_inactive s)
        | LiveIndefinitely, _ => Ok tt (set_lock_owned false s)
        | AfterChangesUploaded, Some ws => Ok tt (entered_dying ws s)
        | AfterChangesUploaded, None =>
            unregistering s (entered_inactive s) (detached_inactive s)
        end
    | WaitingForAccessToken => unregistering s (entered_inactive s) (detached_inactive s)
    | Dying => Ok tt (set_lock_owned false s)
    | Inactive =>
        unregistering s
          (set_events (events s ++ [EvUnregisterSession (m_realm_path s)])
                      (set_lock_owned false s))
          (set_lock_owned false s)
    end.
Proof.
  destruct (m_state s) eqn:Hst.
  - destruct (stop_policy (m_config s)) eqn:Hpol.
    + unfold close, state_close. unfold scoped_lock at 1. rewrite bind_get. cbv beta.
      replace (m_state (set_lock_owned true s)) with Active by (by destruct s).
      replace (m_config (set_lock_owned true s)) with (m_config s) by (by destruct s).
      rewrite Hpol. cbv beta iota.
      change (match advance_state Inactive (set_lock_owned true s) with
              | Ok a s' => Ok a (set_lock_owned false s')
              | Aborted r s' => Aborted r s'
              | Thrown ex s' => Thrown ex (set_lock_owned false s')
              end) with (scoped_lock (advance_state Inactive) s).
      apply locked_advance_state_Inactive_outcome. congruence.
    + unfold close, state_close, scoped_lock. rewrite bind_get. cbv beta.
      replace (m_state (set_lock_owned true s)) with Active by (by destruct s).
      replace (m_config (set_lock_owned true s)) with (m_config s) by (by destruct s).
      rewrite Hpol. by destruct s.
    + destruct (m_session s) as [ws|] eqn:Hws; [by apply close_to_dying|].
      unfold close, state_close, scoped_lock, unregistering. rewrite bind_get. cbv beta.
      replace (m_state (set_lock_owned true s)) with Active by (by destruct s).
      replace (m_config (set_lock_owned true s)) with (m_config s) by (by destruct s).
      rewrite Hpol. destruct (m_sync_manager s) as [m|] eqn:Hm.
      * rewrite advance_state_Dying_without_session;
          [by destruct s|by destruct s|by destruct s| |].
        -- intros _. destruct s; simpl in *; congruence.
        -- destruct s; simpl in *; subst; eauto.
      * rewrite advance_state_Dying_detached;
          [by destruct s|by destruct s|by destruct s| |by destruct s].
        intros _. destruct s; simpl in *; congruence.
  - unfold close, state_close, scoped_lock. rewrite bind_get. cbv beta.
    replace (m_state (set_lock_owned true s)) with Dying by (by destruct s).
    by destruct s.
  - unfold close, state_close, scoped_lock, unregister, sync_manager_call, unregistering.
    rewrite bind_get. cbv beta.
    destruct s as [st cs cfg frc path ws0 cbs cnt dc url pn mgr lk ev en].
    simpl in *. subst st. destruct mgr; reflexivity.
  - unfold close, state_close. unfold scoped_lock at 1. rewrite bind_get. cbv beta.
    replace (m_state (set_lock_owned true s)) with WaitingForAccessToken by (by destruct s).
    cbv beta iota.
    change (match advance_state Inactive (set_lock_owned true s) with
            | Ok a s' => Ok a (set_lock_owned false s')
            | Aborted r s' => Aborted r s'
            | Thrown ex s' => Thrown ex (set_lock_owned false s')
            end) with (scoped_lock (advance_state Inactive) s).
    apply locked_advance_state_Inactive_outcome. congruence.
Qed.

(** The session once [wait_for_session_terminations] has been called. *)
Definition terminations_awaited (s : SyncSession) : SyncSession :=
  set_events (events s ++ [EvWaitForSessionTerminations]) s.

(** [log_out] and [shutdown_and_wait], in every state and whether or not the
    pointer to the sync manager is null.  [log_out] leaves an inactive session
    as it is, and tears down any other as by entering [Inactive].
    [shutdown_and_wait] tears down an active or dying session in the same
    way, and leaves an inactive session and one that waits for its access
    token in its state; it then waits for the sessions of the client to
    terminate.  Where they tear down, they return if the pointer is not null
    and abort on the pointer if it is: the session is then left inactive, its
    map of completion callbacks emptied and none of them called, and
    [shutdown_and_wait] has not waited. *)
Theorem log_out_and_shutdown_outcomes (s : SyncSession) :
  log_out s
  = (if decide (m_state s = Inactive) then Ok tt (set_lock_owned false s)
     else unregistering s (entered_inactive s) (detached_inactive s))
  /\ shutdown_and_wait s
     = match m_state s with
       | Active | Dying =>
           unregistering s (terminations_awaited (entered_inactive s))
                         (detached_inactive s)
       | Inactive | WaitingForAccessToken =>
           Ok tt (terminations_awaited (set_lock_owned false s))
       end.
Proof.
  split.
  - unfold log_out, state_log_out. unfold scoped_lock at 1. rewrite bind_get. cbv beta.
    replace (m_state (set_lock_owned true s)) with (m_state s) by (by destruct s).
    destruct (m_state s) eqn:Hst; cbv beta iota;
      try (change (match advance_state Inactive (set_lock_owned true s) with
                   | Ok a s' => Ok a (set_lock_owned false s')
                   | Aborted r s' => Aborted r s'
                   | Thrown ex s' => Thrown ex (set_lock_owned false s')
                   end) with (scoped_lock (advance_state Inactive) s);
           rewrite locked_advance_state_Inactive_outcome by congruence);
      try rewrite decide_False by congruence; try rewrite decide_True by done;
      try reflexivity.
  - unfold shutdown_and_wait, state_shutdown_and_wait. unfold_m. unfold bind_m at 1.
    unfold scoped_lock at 1. unfold bind_m, get.
    replace (m_state (set_lock_owned true s)) with (m_state s) by (by destruct s).
    destruct (m_state s) eqn:Hst; cbv beta iota;
      try (change (match advance_state Inactive (set_lock_owned true s) with
                   | Ok a s' => Ok a (set_lock_owned false s')
                   | Aborted r s' => Aborted r s'
                   | Thrown ex s' => Thrown ex (set_lock_owned false s')
                   end) with (scoped_lock (advance_state Inactive) s);
           rewrite locked_advance_state_Inactive_outcome by congruence;
           unfold unregistering; destruct (m_sync_manager s); reflexivity);
      by destruct s.
Qed.

(** *** Who calls the error handler *)

Ltac tc := try (solve [typeclasses eauto]).

Ltac frame_leaf :=
  simpl;
  first [ reflexivity
        | apply frame_lock | apply frame_callbacks | apply frame_counter
        | apply frame_death_count | apply frame_connection | apply frame_server_url
        | apply frame_progress | apply frame_force | apply frame_config | apply frame_env
        | apply frame_manager
        | apply frame_session | apply frame_state
        | (apply frame_events; reflexivity)
        | (eapply frame_wire; eassumption) ].

Ltac frame_step :=
  lazymatch goal with
  | |- frames _ (mbind _ _) => apply frames_bind; tc; [|intros ?]
  | |- frames _ (mret _) => apply frames_ret; tc
  | |- frames _ (ret _) => apply frames_ret; tc
  | |- frames _ get => apply frames_get; tc
  | |- frames _ unlock => apply frames_unlock; tc
  | |- frames _ (modify _) => apply frames_modify; tc; intros ?; frame_leaf
  | |- frames _ (emit _) => apply frames_emit; tc; reflexivity
  | |- frames _ (when ?c _) => destruct c; simpl
  | |- frames _ (scoped_lock _) => apply frames_scoped_lock; tc
  | |- frames _ (for_each _ _) => apply frames_for_each; tc; intros ?
  | |- frames _ (REALM_ASSERT _) => apply frames_assert; tc
  | |- frames _ (REALM_ASSERT_RELEASE _) => apply frames_assert_release; tc
  | |- frames _ (abort _) => apply frames_abort; tc
  | |- frames _ (throw _) => apply frames_throw; tc
  | |- frames _ (if ?c then _ else _) => destruct c eqn:?
  | |- frames _ (match ?x with _ => _ end) => destruct x eqn:?
  end.

Create HintDb session_frames.

Hint Resolve frames_unregister frames_cancel_pending_waits
  frames_initiate_access_token_refresh frames_update_error_and_mark_file_for_deletion
  frames_wire_call frames_refresh_if_session frames_add_completion_callback
  frames_classify_bad_authentication frames_classify frames_do_create_sync_session
  frames_create_sync_session frames_Inactive_enter_state frames_advance_state
  frames_revive_if_needed frames_state_handle_error frames_handle_error_client_resync
  frames_handle_error_classification frames_sync_manager_call : session_frames.

Ltac frame_auto := repeat first [ solve [eauto with session_frames typeclass_instances] | frame_step ].

(** The events that can bring an error to the session: [handle_error], the
    result of a token refresh, and a change of the connection state that
    carries an error. *)
Definition reports_errors (op : Op) : bool :=
  match op with
  | op_handle_error _ | op_handle_refresh _ | op_connection_state_changed _ (Some _) => true
  | _ => false
  end.

Lemma frames_quiet_apply_op (op : Op) :
  reports_errors op = false -> frames quiet (apply_op op).
Proof.
  intros Hop. destruct op as [| | | | | | | | | | | | | | | | |st [e|]|]; try discriminate Hop;
    simpl;
    unfold close, log_out, revive_if_needed, handle_reconnect, detach_from_sync_manager,
      shutdown_and_wait, update_access_token, nonsync_transact_notify, wait_for_upload_completion,
      wait_for_download_completion, handle_progress_update, did_drop_external_reference,
      update_configuration, dying_wait_completed, completion_wait_completed,
      connection_state_changed, state_close, state_log_out, state_revive_if_needed,
      state_handle_reconnect, state_shutdown_and_wait, state_access_token_updated,
      state_nonsync_transact_notify;
    try solve [frame_auto].
  intros s. apply quiet_same_events. by destruct s.
Qed.

(** Only an error brought to the session makes it call the error handler of
    the application: a run of operations and callbacks of which none is
    [handle_error], the result of a token refresh or a connection state change
    with an error adds no call of the error handler to the trace, however it
    ends. *)
Theorem only_errors_reach_the_error_handler (ops : list Op) (s : SyncSession) :
  Forall (fun op => reports_errors op = false) ops ->
  exists evs,
    events (final (run ops s)) = events s ++ evs /\ handler_calls evs = 0%nat.
Proof.
  intros Hops. change (quiet s (final (run ops s))).
  revert s. induction Hops as [|op ops Hop Hops IH]; intros s; simpl; [reflexivity|].
  pose proof (frames_quiet_apply_op op Hop s) as Hq.
  destruct (apply_op op s) as [[] s1|r s1|ex s1]; simpl in *.
  - etrans; [exact Hq|apply IH].
  - exact Hq.
  - etrans; [exact Hq|apply IH].
Qed.

(** *** Errors that are not reported *)

(** The codes for which the switches of [handle_error] say: not real errors,
    don't need to be reported to the binding. *)
Definition informational (ec : error_code) : bool :=
  match ec with
  | protocol_error_code (Some ProtocolError.connection_closed)
  | protocol_error_code (Some ProtocolError.other_error)
  | protocol_error_code (Some ProtocolError.session_closed)
  | protocol_error_code (Some ProtocolError.other_session_error)
  | protocol_error_code (Some ProtocolError.disabled_session)
  | client_error_code (Some ClientError.connection_closed)
  | client_error_code (Some ClientError.pong_timeout) => true
  | _ => false
  end.

Lemma classify_informational ns (e : SyncError) (s : SyncSession) :
  informational (error_code_of e) = true -> classify ns e s = Ok Return s.
Proof.
  intros Hi. unfold classify.
  destruct (error_code_of e) as [[c|]|[c|]| | | | |]; try discriminate Hi;
    destruct c; try discriminate Hi; reflexivity.
Qed.

Lemma classification_of_informational (e : SyncError) (s : SyncSession) ns e' s' :
  informational (error_code_of e) = true ->
  handle_error_classification e s <> Ok (Continue ns e') s'.
Proof.
  intros Hi. unfold handle_error_classification. unfold_m. unfold bind_m.
  destruct (scoped_lock (state_handle_error e) s) as [[] s1|r s1|ex s1]; [|done..].
  unfold get. destruct (_ && _).
  - destruct (handle_error_client_resync s1); simpl; congruence.
  - rewrite classify_informational by done. congruence.
Qed.

(** An error with one of the codes that need not be reported never reaches
    the error handler; and unless it asks for a client reset, or is fatal and
    meets a dying session, [handle_error] does nothing at all: no event, no
    change of the session. *)
Theorem informational_errors_are_not_reported (e : SyncError) (s : SyncSession) :
  informational (error_code_of e) = true ->
  (exists evs,
     events (final (handle_error e s)) = events s ++ evs /\ handler_calls evs = 0%nat)
  /\ (is_client_reset_requested e = false ->
      (m_state s = Dying -> is_fatal e = false) ->
      handle_error e s = Ok tt (set_lock_owned false s)).
Proof.
  intros Hi. split.
  - pose proof (frames_handle_error_classification quiet e s) as Hq.
    pose proof (classification_of_informational e s) as Hc.
    unfold handle_error. unfold_m. unfold bind_m.
    destruct (handle_error_classification e s) as [[|ns e'] s1|r s1|ex s1]; simpl in *;
      [exact Hq| |exact Hq..].
    exfalso. by eapply Hc.
  - intros Hreset Hd. unfold handle_error, handle_error_classification.
    unfold_m. unfold bind_m at 1. unfold bind_m at 1.
    rewrite first_refusal_declined by done. unfold bind_m, get.
    rewrite Hreset. simpl. by rewrite classify_informational.
Qed.

(** *** Errors that cost the file *)

(** The error as the error handler receives it: with the path of the file,
    and the path of the backup where one is made. *)
Definition annotated (backup : bool) (s : SyncSession) (e : SyncError) : SyncError :=
  let e := set_user_info c_original_file_path_key (m_realm_path s) e in
  if backup then set_user_info c_recovery_file_path_key (recovery_file_path s) e else e.

Definition file_action (backup : bool) (u : SyncUser) (s : SyncSession) : Event :=
  EvFileAction (m_realm_path s) (partition_value (m_config s)) (identity u)
               (if backup then BackUpThenDeleteRealm else DeleteRealm)
               (if backup then recovery_file_path s else "").

Lemma classify_marks_file ns (e : SyncError) (s : SyncSession) (u : SyncUser) backup :
  marks_file (error_code_of e) = Some backup ->
  user (m_config s) = Some u ->
  is_Some (m_sync_manager s) ->
  classify ns e s
  = Ok (Continue NS_inactive (annotated backup s e))
       (set_events (events s ++ [file_action backup u s]) s).
Proof.
  intros Hm Hu [m Hmgr]. unfold classify, classify_protocol_error.
  destruct (error_code_of e) as [[c|]|[c|]| | | | |] eqn:Hec; try discriminate Hm;
    destruct c; try discriminate Hm; injection Hm as <-;
    unfold update_error_and_mark_file_for_deletion, sync_manager_call; run_m;
    rewrite Hmgr, Hu; reflexivity.
Qed.

Lemma classify_marks_file_detached ns (e : SyncError) (s : SyncSession) backup :
  marks_file (error_code_of e) = Some backup ->
  m_sync_manager s = None ->
  classify ns e s = Aborted null_dereference s.
Proof.
  intros Hm Hmgr. unfold classify, classify_protocol_error.
  destruct (error_code_of e) as [[c|]|[c|]| | | | |] eqn:Hec; try discriminate Hm;
    destruct c; try discriminate Hm;
    unfold update_error_and_mark_file_for_deletion, sync_manager_call; run_m;
    rewrite Hmgr; reflexivity.
Qed.

Lemma manual_or_no_reset (e : SyncError) (s : SyncSession) :
  (is_client_reset_requested e = true -> client_resync_mode (m_config s) = Manual) ->
  is_client_reset_requested e && bool_decide (client_resync_mode (m_config s) <> Manual)
  = false.
Proof.
  intros Hm. destruct (is_client_reset_requested e); [|done].
  rewrite Hm by done. reflexivity.
Qed.

Definition handler_call (s : SyncSession) (e : SyncError) : list Event :=
  match error_handler (m_config s) with
  | Some h => [EvErrorHandler h e]
  | None => []
  end.

Lemma locked_cancel_pending_waits_eq (ec : error_code) (s : SyncSession) :
  scoped_lock (cancel_pending_waits ec) s
  = Ok tt (set_events (events s ++ completions ec (m_completion_callbacks s))
             (set_lock_owned false (set_m_completion_callbacks ∅ s))).
Proof.
  unfold scoped_lock. rewrite cancel_pending_waits_eq. by destruct s.
Qed.

(** The delivery to a session that is not inactive (and whose pointer to the
    sync manager is not null, where the session is to become inactive). *)
Lemma handle_error_delivery_eq ns (e : SyncError) (s : SyncSession) :
  m_state s <> Inactive ->
  (ns = NS_inactive -> is_Some (m_sync_manager s)) ->
  handle_error_delivery ns e s
  = Ok tt
      match ns with
      | NS_none =>
          if cancel_waits_on_nonfatal_error (m_config s) then
            set_events (events s ++ completions (error_code_of e) (m_completion_callbacks s)
                                 ++ handler_call s e)
                       (set_lock_owned false (set_m_completion_callbacks ∅ s))
          else set_events (events s ++ handler_call s e) s
      | NS_error =>
          set_events (events s ++ completions (error_code_of e) (m_completion_callbacks s)
                               ++ handler_call s e)
                     (set_lock_owned false (set_m_completion_callbacks ∅ s))
      | NS_inactive =>
          let s1 := entered_inactive s in
          set_events
            (events s
               ++ (if is_client_reset_requested e
                   then completions (error_code_of e) (m_completion_callbacks s) else [])
               ++ [EvUnregisterSession (m_realm_path s)]
               ++ connection_change (m_connection_state s)
               ++ (if is_client_reset_requested e then []
                   else completions operation_aborted (m_completion_callbacks s))
               ++ handler_call s e) s1
      end.
Proof.
  intros Hst Hmgr. unfold handle_error_delivery. unfold_m. unfold bind_m at 1.
  unfold get at 1.
  rewrite bool_decide_false by done. unfold handler_call, bind_m, when, get.
  assert (Hfin : forall (c : SyncConfig) s1,
            match error_handler c with
            | Some h => emit (EvErrorHandler h e)
            | None => ret ()
            end s1
            = Ok tt (set_events (events s1 ++ match error_handler c with
                                              | Some h => [EvErrorHandler h e]
                                              | None => []
                                              end) s1)).
  { intros c s1. destruct (error_handler c); simpl; [done|].
    rewrite app_nil_r. by destruct s1. }
  destruct ns.
  - destruct (cancel_waits_on_nonfatal_error (m_config s)).
    + rewrite locked_cancel_pending_waits_eq. rewrite Hfin.
      destruct s. simpl. by rewrite <- app_assoc.
    + simpl. rewrite Hfin. by destruct s.
  - specialize (Hmgr eq_refl). destruct (is_client_reset_requested e).
    + rewrite locked_cancel_pending_waits_eq.
      rewrite locked_advance_state_Inactive by (by destruct s). rewrite Hfin.
      unfold entered_inactive. destruct s. simpl.
      rewrite completions_empty. repeat (progress (rewrite <- ?app_assoc, ?app_nil_r; simpl)).
      reflexivity.
    + cbv beta iota. unfold ret at 1. cbv beta iota.
      rewrite locked_advance_state_Inactive by done. rewrite Hfin.
      unfold entered_inactive. destruct s. simpl.
      repeat (progress (rewrite <- ?app_assoc; simpl)). reflexivity.
  - rewrite locked_cancel_pending_waits_eq. rewrite Hfin.
    destruct s. simpl. by rewrite <- app_assoc.
Qed.

Lemma error_code_of_annotated backup s e :
  error_code_of (annotated backup s e) = error_code_of e.
Proof. unfold annotated. by destruct backup. Qed.

(** *** What the state makes of the error *)

(** [Dying::handle_error] makes the session inactive at a fatal error; the
    other states leave the error alone. *)
Definition dying_fatal (e : SyncError) (s : SyncSession) : bool :=
  bool_decide (m_state s = Dying) && is_fatal e.

Lemma first_refusal_eq (e : SyncError) (s : SyncSession) :
  scoped_lock (state_handle_error e) s
  = if dying_fatal e s then unregistering s (entered_inactive s) (detached_inactive s)
    else Ok tt (set_lock_owned false s).
Proof.
  unfold dying_fatal. case_bool_decide as Hst; simpl.
  - destruct (is_fatal e) eqn:Hf.
    + rewrite <- locked_advance_state_Inactive_outcome by congruence.
      unfold scoped_lock, state_handle_error. rewrite bind_get.
      replace (m_state (set_lock_owned true s)) with Dying by (by destruct s).
      rewrite Hf. reflexivity.
    + apply first_refusal_declined. congruence.
  - apply first_refusal_declined. congruence.
Qed.

Lemma handle_error_after_refusal (e : SyncError) (s s0 : SyncSession) :
  (is_client_reset_requested e = true -> client_resync_mode (m_config s) = Manual) ->
  scoped_lock (state_handle_error e) s = Ok tt s0 ->
  m_config s0 = m_config s ->
  handle_error e s
  = match classify (if is_fatal e then NS_error else NS_none) e s0 with
    | Ok Return s1 => Ok tt s1
    | Ok (Continue ns e') s1 => handle_error_delivery ns e' s1
    | Aborted r s1 => Aborted r s1
    | Thrown ex s1 => Thrown ex s1
    end.
Proof.
  intros Hm H0 Hc. unfold handle_error, handle_error_classification. unfold_m.
  unfold bind_m at 1. unfold bind_m at 1. unfold bind_m at 1. rewrite H0.
  unfold bind_m at 1. unfold get. rewrite Hc. rewrite manual_or_no_reset by done.
  unfold bind_m.
  destruct (classify _ e s0) as [[|ns e'] s1|r s1|ex s1]; reflexivity.
Qed.

Lemma handle_error_refusal_aborts (e : SyncError) (s s0 : SyncSession) r :
  scoped_lock (state_handle_error e) s = Aborted r s0 ->
  handle_error e s = Aborted r s0.
Proof.
  intros H0. unfold handle_error, handle_error_classification. unfold_m.
  unfold bind_m at 1. unfold bind_m at 1. unfold bind_m at 1. by rewrite H0.
Qed.

(** *** Errors that cost the file, continued *)

(** The session with the file marked for deletion. *)
Definition file_marked (backup : bool) (u : SyncUser) (s : SyncSession) : SyncSession :=
  set_events (events s ++ [file_action backup u s]) s.

(** An error that costs the file, where the session has a user and does not
    take the error by a client resync.  The error handler is to receive the
    error with the path of the file and, with a backup, the path of the
    backup.  Where the pointer to the sync manager is null, [handle_error]
    aborts on it, having done nothing but, at a fatal error to a dying
    session, made the session inactive as far as the use of the pointer.
    Where it is not null: [handle_error] marks the file for deletion, with a
    backup unless the code is [permission_denied]; an inactive session it
    leaves at that; a dying session, the error fatal, it has first made
    inactive, and leaves at that too; any other session it makes inactive,
    calling each pending completion callback exactly once, with the code of
    the error where the error asks for a client reset and with
    [operation_aborted] otherwise, and at the end calls the error handler, if
    there is one. *)
Theorem file_errors_mark_the_file_and_deactivate
    (e : SyncError) (s : SyncSession) (u : SyncUser) (backup : bool) :
  marks_file (error_code_of e) = Some backup ->
  (is_client_reset_requested e = true -> client_resync_mode (m_config s) = Manual) ->
  user (m_config s) = Some u ->
  let e' := annotated backup (set_lock_owned false s) e in
  let code := if is_client_reset_requested e' then error_code_of e else operation_aborted in
  handle_error e s
  = match m_sync_manager s with
    | None =>
        Aborted null_dereference
                (if dying_fatal e s then detached_inactive s else set_lock_owned false s)
    | Some _ =>
        Ok tt
           (if bool_decide (m_state s = Inactive)
            then file_marked backup u (set_lock_owned false s)
            else if dying_fatal e s then file_marked backup u (entered_inactive s)
            else
              set_events
                (events s
                   ++ [file_action backup u (set_lock_owned false s)]
                   ++ (if is_client_reset_requested e'
                       then completions code (m_completion_callbacks s) else [])
                   ++ [EvUnregisterSession (m_realm_path s)]
                   ++ connection_change (m_connection_state s)
                   ++ (if is_client_reset_requested e' then []
                       else completions code (m_completion_callbacks s))
                   ++ handler_call s e')
                (entered_inactive s))
    end
  /\ user_info e' !! (if backup then c_recovery_file_path_key
                      else c_original_file_path_key)
     = Some (if backup then recovery_file_path (set_lock_owned false s)
             else m_realm_path s)
  /\ (c_original_file_path_key <> c_recovery_file_path_key ->
      user_info e' !! c_original_file_path_key = Some (m_realm_path s)).
Proof.
  intros Hm Hreset Hu. cbv zeta. split; [|split].
  - pose proof (first_refusal_eq e s) as Hfirst.
    destruct (m_sync_manager s) as [m|] eqn:Hmgr.
    + case_bool_decide as Hst.
      * assert (dying_fatal e s = false) as Hdf
          by (unfold dying_fatal; rewrite bool_decide_false by congruence; done).
        rewrite Hdf in Hfirst.
        rewrite (handle_error_after_refusal e s _ Hreset Hfirst) by (by destruct s).
        rewrite (classify_marks_file _ _ _ u backup);
          [|done|by destruct s|destruct s; simpl in *; subst; eauto].
        rewrite handle_error_delivery_Inactive by (by destruct s).
        unfold file_marked, file_action. by destruct s.
      * destruct (dying_fatal e s) eqn:Hdf.
        -- unfold unregistering in Hfirst. rewrite Hmgr in Hfirst.
           rewrite (handle_error_after_refusal e s _ Hreset Hfirst) by (by destruct s).
           rewrite (classify_marks_file _ _ _ u backup);
             [|done|by destruct s|destruct s; simpl in *; subst; eauto].
           rewrite handle_error_delivery_Inactive by (by destruct s).
           unfold file_marked, file_action. by destruct s.
        -- rewrite (handle_error_after_refusal e s _ Hreset Hfirst) by (by destruct s).
           rewrite (classify_marks_file _ _ _ u backup);
             [|done|by destruct s|destruct s; simpl in *; subst; eauto].
           rewrite handle_error_delivery_eq;
             [|by destruct s|intros _; destruct s; simpl in *; subst; eauto].
           f_equal.
           pose proof (error_code_of_annotated backup (set_lock_owned false s) e) as Hce.
           remember (annotated backup (set_lock_owned false s) e) as e' eqn:He'.
           rewrite Hce. clear He' Hce. unfold handler_call.
           destruct (is_client_reset_requested e'); destruct s; simpl;
             repeat (progress (rewrite <- ?app_assoc; simpl)); reflexivity.
    + destruct (dying_fatal e s) eqn:Hdf.
      * unfold unregistering in Hfirst. rewrite Hmgr in Hfirst.
        by apply handle_error_refusal_aborts.
      * rewrite (handle_error_after_refusal e s _ Hreset Hfirst) by (by destruct s).
        rewrite (classify_marks_file_detached _ _ _ backup); [done|done|by destruct s].
  - unfold annotated, set_user_info. destruct backup; simpl.
    + by rewrite lookup_insert_eq.
    + rewrite lookup_insert_eq. by destruct s.
  - intros Hne. unfold annotated, set_user_info. destruct backup; simpl.
    + rewrite lookup_insert_ne by done. rewrite lookup_insert_eq. by destruct s.
    + rewrite lookup_insert_eq. by destruct s.
Qed.

(** *** Errors that are delivered as they are *)

(** The errors that [handle_error] hands to the error handler without more
    ado, and whether it flags them as unrecognized: the errors of the two sync
    categories that are neither informational, nor cost the file, nor concern
    the authentication, unflagged; the errors outside of the two categories,
    flagged, but for the HTTP status 401 where the session has a user. *)
Definition delivered_flag (s : SyncSession) (ec : error_code) : option bool :=
  if informational ec then None
  else if bool_decide (is_Some (marks_file ec)) then None
  else
    match ec with
    | protocol_error_code (Some ProtocolError.token_expired)
    | protocol_error_code (Some ProtocolError.bad_authentication) => None
    | protocol_error_code _ | client_error_code _ => Some false
    | websocket_bad_response_401_unauthorized =>
        match user (m_config s) with Some _ => None | None => Some true end
    | _ => Some true
    end.

Lemma classify_delivered ns (e : SyncError) (s : SyncSession) flag :
  delivered_flag s (error_code_of e) = Some flag ->
  classify ns e s = Ok (Continue ns (if flag then set_unrecognized e else e)) s.
Proof.
  intros Hf. unfold classify, classify_protocol_error, classify_client_error.
  unfold delivered_flag in Hf.
  destruct (error_code_of e) as [[c|]|[c|]| | | | |] eqn:Hec; try destruct c;
    simpl in Hf; try discriminate Hf; try (injection Hf as <-; reflexivity).
  all: run_m; destruct (user (m_config s)); try discriminate Hf;
    injection Hf as <-; reflexivity.
Qed.

(** Such an error, where the session does not take it by a client resync.
    An inactive session does nothing with it.  A dying session, the error
    fatal, is made inactive (the call aborts on a null pointer to the sync
    manager), its pending completion callbacks called with
    [operation_aborted], and the error handler is not called.  In any other
    session [handle_error] changes neither the state nor the wire session; a
    fatal error, or any under [cancel_waits_on_nonfatal_error], calls each
    pending completion callback with the code of the error and leaves none
    pending, any other leaves them pending; and the error handler, if there is
    one, is called once, at the end. *)
Theorem plain_errors_are_delivered (e : SyncError) (s : SyncSession) (flag : bool) :
  delivered_flag s (error_code_of e) = Some flag ->
  (is_client_reset_requested e = true -> client_resync_mode (m_config s) = Manual) ->
  let e' := if flag then set_unrecognized e else e in
  handle_error e s
  = if bool_decide (m_state s = Inactive) then Ok tt (set_lock_owned false s)
    else if dying_fatal e s
    then unregistering s (entered_inactive s) (detached_inactive s)
    else
      Ok tt
        (if is_fatal e || cancel_waits_on_nonfatal_error (m_config s) then
           set_events (events s ++ completions (error_code_of e) (m_completion_callbacks s)
                                ++ handler_call s e')
                      (set_lock_owned false (set_m_completion_callbacks ∅ s))
         else set_events (events s ++ handler_call s e') (set_lock_owned false s)).
Proof.
  intros Hf Hreset e'.
  pose proof (first_refusal_eq e s) as Hfirst.
  case_bool_decide as Hst.
  - assert (dying_fatal e s = false) as Hdf
      by (unfold dying_fatal; rewrite bool_decide_false by congruence; done).
    rewrite Hdf in Hfirst.
    rewrite (handle_error_after_refusal e s _ Hreset Hfirst) by (by destruct s).
    rewrite (classify_delivered _ _ _ flag) by (by destruct s).
    by rewrite handle_error_delivery_Inactive by (by destruct s).
  - destruct (dying_fatal e s) eqn:Hdf.
    + unfold unregistering in *. destruct (m_sync_manager s) as [m|] eqn:Hmgr.
      * rewrite (handle_error_after_refusal e s _ Hreset Hfirst) by (by destruct s).
        rewrite (classify_delivered _ _ _ flag) by (by destruct s).
        by rewrite handle_error_delivery_Inactive by (by destruct s).
      * by apply handle_error_refusal_aborts.
    + rewrite (handle_error_after_refusal e s _ Hreset Hfirst) by (by destruct s).
      rewrite (classify_delivered _ _ _ flag) by (by destruct s).
      rewrite handle_error_delivery_eq; [|by destruct s|by destruct (is_fatal e)].
      fold e'.
      assert (error_code_of e' = error_code_of e) as -> by (subst e'; by destruct flag).
      destruct (is_fatal e); simpl.
      * by destruct s.
      * replace (m_config (set_lock_owned false s)) with (m_config s) by (by destruct s).
        destruct (cancel_waits_on_nonfatal_error (m_config s)); by destruct s.
Qed.

(** The session once a refresh of the access token has been asked for. *)
Definition refresh_asked (s : SyncSession) : SyncSession :=
  set_events (events s ++ [EvRefreshCustomData]) s.

(** The HTTP status 401 at the connection, in a session with a user that
    does not take the error by a client resync: [handle_error] asks for a
    refresh of the access token, and that is all; neither the error handler
    nor a completion callback is called.  Only a dying session, the error
    fatal, is first made inactive (the call aborts on a null pointer to the
    sync manager, before it asks). *)
Theorem unauthorized_response_asks_for_a_token
    (e : SyncError) (s : SyncSession) (u : SyncUser) :
  error_code_of e = websocket_bad_response_401_unauthorized ->
  (is_client_reset_requested e = true -> client_resync_mode (m_config s) = Manual) ->
  user (m_config s) = Some u ->
  handle_error e s
  = if dying_fatal e s
    then unregistering s (refresh_asked (entered_inactive s)) (detached_inactive s)
    else Ok tt (refresh_asked (set_lock_owned false s)).
Proof.
  intros Hec Hreset Hu.
  pose proof (first_refusal_eq e s) as Hfirst.
  assert (Hcl : forall ns s0, m_config s0 = m_config s ->
            classify ns e s0 = Ok Return (refresh_asked s0)).
  { intros ns s0 Hc. unfold classify. rewrite Hec. run_m. rewrite Hc, Hu. reflexivity. }
  destruct (dying_fatal e s) eqn:Hdf.
  - unfold unregistering in *. destruct (m_sync_manager s) as [m|] eqn:Hmgr.
    + rewrite (handle_error_after_refusal e s _ Hreset Hfirst) by (by destruct s).
      by rewrite Hcl by (by destruct s).
    + by apply handle_error_refusal_aborts.
  - rewrite (handle_error_after_refusal e s _ Hreset Hfirst) by (by destruct s).
    by rewrite Hcl by (by destruct s).
Qed.

(** The session once the user has been invalidated. *)
Definition user_invalidated (s : SyncSession) : SyncSession :=
  set_events (events s ++ [EvUserInvalidate]) s.

Lemma classify_bad_authentication_closed ns (e : SyncError) (s : SyncSession) u :
  error_code_of e = protocol_error_code (Some ProtocolError.bad_authentication) ->
  user (m_config s) = Some u ->
  classify ns e s
  = Ok (Continue NS_none e)
       (set_events (events s ++ completions (error_code_of e) (m_completion_callbacks s)
                             ++ [EvUserInvalidate])
                   (set_lock_owned false (set_m_completion_callbacks ∅ s))).
Proof.
  intros Hec Hu. unfold classify. rewrite Hec.
  unfold classify_protocol_error, classify_bad_authentication.
  unfold_m. unfold bind_m at 1. unfold bind_m at 1. unfold scoped_lock, bind_m at 1.
  unfold get at 1. unfold bind_m at 1. rewrite cancel_pending_waits_eq.
  replace (m_config (set_lock_owned true s)) with (m_config s) by (by destruct s).
  rewrite Hu. unfold ret. cbv beta iota. rewrite bool_decide_true by eauto.
  unfold when, emit, modify, bind_m. cbv beta iota.
  destruct s. unfold_setters. rewrite ?Hec. same_events.
Qed.

(** The server refusing the authentication, in a session with a user that
    does not take the error by a client resync: each pending completion
    callback is called with the code of the error and none is left pending,
    the user is invalidated, and the error handler, if there is one, is
    called; the session stays in its state, on its wire session.  An inactive
    session does the same but for the call of the error handler.  A dying
    session, the error fatal, is first made inactive (the call aborts on a
    null pointer to the sync manager), its pending completion callbacks called
    with [operation_aborted]; the user is then invalidated, and the error
    handler is not called. *)
Theorem bad_authentication_invalidates_the_user
    (e : SyncError) (s : SyncSession) (u : SyncUser) :
  error_code_of e = protocol_error_code (Some ProtocolError.bad_authentication) ->
  (is_client_reset_requested e = true -> client_resync_mode (m_config s) = Manual) ->
  user (m_config s) = Some u ->
  handle_error e s
  = if dying_fatal e s
    then unregistering s (user_invalidated (entered_inactive s)) (detached_inactive s)
    else
      Ok tt (set_events
               (events s ++ completions (error_code_of e) (m_completion_callbacks s)
                        ++ [EvUserInvalidate]
                        ++ (if bool_decide (m_state s = Inactive) then []
                            else handler_call s e))
               (set_lock_owned false (set_m_completion_callbacks ∅ s))).
Proof.
  intros Hec Hreset Hu.
  pose proof (first_refusal_eq e s) as Hfirst.
  destruct (dying_fatal e s) eqn:Hdf.
  - unfold unregistering in *. destruct (m_sync_manager s) as [m|] eqn:Hmgr.
    + rewrite (handle_error_after_refusal e s _ Hreset Hfirst) by (by destruct s).
      rewrite (classify_bad_authentication_closed _ _ _ u) by (done || by destruct s).
      rewrite handle_error_delivery_Inactive by (by destruct s).
      unfold user_invalidated, entered_inactive. destruct s. unfold_setters.
      rewrite completions_empty. same_events.
    + by apply handle_error_refusal_aborts.
  - rewrite (handle_error_after_refusal e s _ Hreset Hfirst) by (by destruct s).
    rewrite (classify_bad_authentication_closed _ _ _ u) by (done || by destruct s).
    case_bool_decide as Hst.
    + rewrite handle_error_delivery_Inactive by (by destruct s).
      destruct s. unfold_setters. same_events.
    + rewrite handle_error_delivery_eq; [|by destruct s|done].
      unfold handler_call.
      destruct (cancel_waits_on_nonfatal_error (m_config _)) eqn:Hc;
        destruct s; unfold_setters; rewrite ?completions_empty; same_events.
Qed.

(** *** Registering the pending waits with a new wire session *)

(** The ids under which callbacks are registered, one after another, from a
    request counter on. *)
Fixpoint registered (counter : N) (l : list (N * (NotifierType * Callback)))
    : list (N * (NotifierType * Callback)) :=
  match l with
  | [] => []
  | w :: l => ((counter + 1)%N, w.2) :: registered (counter + 1) l
  end.

(** The call by which a callback is registered with the wire session. *)
Definition wait_call (w : N * (NotifierType * Callback)) : WireCall :=
  if bool_decide (w.2.1 = download)
  then async_wait_for_download_completion (CompletionWaiter w.1)
  else async_wait_for_upload_completion (CompletionWaiter w.1).

Definition add_calls (ws : WireSession) (calls : list WireCall) : WireSession :=
  mkWire (ws_realm_path ws) (ws_signed_user_token ws) (ws_realm_identifier ws)
         (ws_client_reset_config ws) (ws_calls ws ++ calls).

Definition insert_all (l : list (N * (NotifierType * Callback)))
    (m : gmap N (NotifierType * Callback)) : gmap N (NotifierType * Callback) :=
  foldl (fun m kv => <[kv.1:=kv.2]> m) m l.

Lemma add_completion_callback_eq f d (s : SyncSession) ws :
  m_session s = Some ws ->
  (m_completion_request_counter s + 1 < 2 ^ 64)%N ->
  m_completion_callbacks s !! (m_completion_request_counter s + 1)%N = None ->
  add_completion_callback f d s
  = Ok tt (set_m_session
             (Some (add_calls ws [wait_call ((m_completion_request_counter s + 1)%N, (d, f))]))
             (set_m_completion_callbacks
                (<[(m_completion_request_counter s + 1)%N := (d, f)]>
                   (m_completion_callbacks s))
                (set_m_completion_request_counter (m_completion_request_counter s + 1) s))).
Proof.
  intros Hws Hc Hfresh. unfold add_completion_callback, wire_call, wait_call, add_calls.
  destruct s as [st cs cfg frc path ws0 cbs cnt dc url pn mgr lk ev en]. simpl in *. subst ws0.
  run_m. rewrite incr64_small by done. unfold emplace. rewrite Hfresh.
  by destruct (bool_decide (d = download)).
Qed.

Lemma length_registered c l : length (registered c l) = length l.
Proof. revert c. induction l as [|w l IH]; intros c; simpl; [done|]. by rewrite IH. Qed.

Lemma register_loop (l : list (N * (NotifierType * Callback))) (s : SyncSession) ws :
  m_session s = Some ws ->
  (m_completion_request_counter s + N.of_nat (length l) < 2 ^ 64)%N ->
  (forall k, is_Some (m_completion_callbacks s !! k) ->
             (k <= m_completion_request_counter s)%N) ->
  for_each l (fun w => add_completion_callback w.2.2 w.2.1) s
  = Ok tt (set_m_session
             (Some (add_calls ws (map wait_call (registered (m_completion_request_counter s) l))))
             (set_m_completion_callbacks
                (insert_all (registered (m_completion_request_counter s) l)
                            (m_completion_callbacks s))
                (set_m_completion_request_counter
                   (m_completion_request_counter s + N.of_nat (length l)) s))).
Proof.
  revert s ws. induction l as [|[k [d f]] l IH]; intros s ws Hws Hc Hkeys.
  - simpl. unfold add_calls. rewrite app_nil_r, N.add_0_r.
    destruct s; simpl in *; subst. by destruct ws.
  - simpl in Hc. cbn [for_each]. erewrite bind_ok.
    2: { apply (add_completion_callback_eq _ _ _ ws Hws); [lia|].
         destruct (m_completion_callbacks s !! (m_completion_request_counter s + 1)%N) eqn:Hk;
           [|done].
         assert (m_completion_request_counter s + 1 <= m_completion_request_counter s)%N
           by (apply Hkeys; eauto). lia. }
    cbv beta.
    rewrite (IH _ (add_calls ws [wait_call ((m_completion_request_counter s + 1)%N, (d, f))])).
    + destruct s as [st cs cfg frc path ws0 cbs cnt dc url pn mgr lk ev en].
      unfold add_calls. simpl in *. unfold_setters. simpl. rewrite <- app_assoc. simpl.
      do 2 f_equal. lia.
    + by destruct s.
    + destruct s; simpl in *. lia.
    + intros k' Hk'.
      destruct s as [st cs cfg frc path ws0 cbs cnt dc url pn mgr lk ev en]. simpl in *.
      destruct (decide (k' = (cnt + 1)%N)) as [->|Hne]; [lia|].
      rewrite lookup_insert_ne in Hk' by done. apply Hkeys in Hk'. lia.
Qed.

(** The keys of the registrations increase, from above the counter. *)
Lemma registered_keys c l k v :
  (k, v) ∈ registered c l -> (c < k)%N.
Proof.
  revert c. induction l as [|w l IH]; intros c Hin; simpl in Hin.
  - by apply elem_of_nil in Hin.
  - apply elem_of_cons in Hin as [[= -> ->]|Hin]; [lia|]. apply IH in Hin. lia.
Qed.

Lemma insert_all_lookup_ne l m k :
  k ∉ l.*1 -> insert_all l m !! k = m !! k.
Proof.
  revert m. induction l as [|[k' v'] l IH]; intros m Hk; simpl; [done|].
  rewrite fmap_cons in Hk. apply not_elem_of_cons in Hk as [Hne Hk].
  rewrite IH by done. simpl. by rewrite lookup_insert_ne.
Qed.

Lemma insert_all_registered c l m k v :
  (k, v) ∈ registered c l -> insert_all (registered c l) m !! k = Some v.
Proof.
  revert c m. induction l as [|w l IH]; intros c m Hin; simpl in Hin.
  - by apply elem_of_nil in Hin.
  - simpl. apply elem_of_cons in Hin as [[= -> ->]|Hin].
    + rewrite insert_all_lookup_ne.
      * simpl. by rewrite lookup_insert_eq.
      * intros Hin. apply list_elem_of_fmap in Hin as [[k' v'] [Heq Hin]]. simpl in Heq.
        subst k'. apply registered_keys in Hin. lia.
    + by apply IH.
Qed.

Lemma size_insert_all_registered c l :
  size (insert_all (registered c l) ∅) = length l.
Proof.
  assert (Hgen : forall (m : gmap N (NotifierType * Callback)) c,
            (forall k, is_Some (m !! k) -> (k <= c)%N) ->
            size (insert_all (registered c l) m) = (size m + length l)%nat).
  { induction l as [|w l IH]; intros m c' Hm; simpl; [lia|].
    rewrite IH.
    - rewrite map_size_insert_None; [lia|].
      destruct (m !! (c' + 1)%N) eqn:Hk; [|done].
      assert (c' + 1 <= c')%N by (apply Hm; eauto). lia.
    - intros k Hk. destruct (decide (k = (c' + 1)%N)) as [->|Hne]; [lia|].
      rewrite lookup_insert_ne in Hk by done. apply Hm in Hk. lia. }
  rewrite (Hgen ∅ c); [by rewrite map_size_empty|].
  intros k [x Hx]. by rewrite lookup_empty in Hx.
Qed.

(** The wire session that [do_create_sync_session] makes. *)
Definition new_wire_session (u : SyncUser) (s : SyncSession) : WireSession :=
  mkWire (m_realm_path s) (access_token u) (partition_value (m_config s))
         (if m_force_client_resync s
          then Some (mkClientReset (m_realm_path s +:+ ".resync")
                       (if bool_decide (client_resync_mode (m_config s) <> Recover)
                        then Some false else None))
          else None)
         [].

(** The session that [Active::enter_state] leaves where it makes the wire
    session: bound, and asked to call back for each completion callback that
    was pending, under a new id. *)
Definition activated (u : SyncUser) (s : SyncSession) : SyncSession :=
  let l := registered (m_completion_request_counter s)
                      (map_iter (m_completion_callbacks s)) in
  mkSession Active (m_connection_state s) (m_config s) (m_force_client_resync s)
            (m_realm_path s)
            (Some (add_calls (new_wire_session u s) (bind :: map wait_call l)))
            (insert_all l ∅)
            (m_completion_request_counter s + N.of_nat (size (m_completion_callbacks s)))
            (m_death_count s) (sync_route (env s)) (m_progress_notifier s)
            (m_sync_manager s) (lock_owned s)
            (events s ++ if m_force_client_resync s
                         then [EvTryMakeDir (m_realm_path s +:+ ".resync")] else [])
            (env s).

Lemma advance_state_Active_eq (s : SyncSession) (u : SyncUser) :
  lock_owned s = true ->
  m_state s <> Active ->
  m_session s = None ->
  user (m_config s) = Some u ->
  access_token_refresh_required u = false ->
  is_Some (m_sync_manager s) ->
  server_url_ok (env s) = true ->
  (m_completion_request_counter s + N.of_nat (size (m_completion_callbacks s)) < 2 ^ 64)%N ->
  advance_state Active s = Ok tt (activated u s).
Proof.
  intros Hlock Hst Hws Hu Href [m Hmgr] Hurl Hcnt.
  unfold advance_state, advance_to, Active_enter_state, create_sync_session,
    do_create_sync_session, sync_manager_call, wire_call, activated, new_wire_session.
  destruct s as [st cs cfg frc path ws0 cbs cnt dc url pn mgr lk ev en]. simpl in *.
  destruct cfg as [usr pv sp eh crm cw]. simpl in *.
  subst lk ws0 usr mgr. run_m. rewrite bool_decide_true by congruence. simpl.
  rewrite Href. simpl. rewrite Hurl. simpl.
  destruct frc; simpl; unfold_setters;
    (erewrite register_loop;
     [|reflexivity|simpl; by rewrite length_map_iter
      |simpl; intros k [x Hx]; by rewrite lookup_empty in Hx]);
    unfold add_calls; unfold_setters; simpl; rewrite length_map_iter, ?app_nil_r;
    reflexivity.
Qed.

(** Where the wire session cannot be made: the pointer to the sync manager is
    null, or the URL of the server is not accepted.  The state has been set
    by then. *)
Lemma advance_state_Active_fails (s : SyncSession) (u : SyncUser) :
  lock_owned s = true ->
  m_state s <> Active ->
  m_session s = None ->
  user (m_config s) = Some u ->
  access_token_refresh_required u = false ->
  advance_state Active s
  = match m_sync_manager s with
    | None => Aborted null_dereference (set_m_state Active s)
    | Some _ =>
        if server_url_ok (env s) then advance_state Active s
        else Thrown BadServerUrl (set_m_state Active s)
    end.
Proof.
  intros Hlock Hst Hws Hu Href.
  destruct (m_sync_manager s) as [m|] eqn:Hmgr;
    [destruct (server_url_ok (env s)) eqn:Hurl; [reflexivity|]|];
    unfold advance_state, advance_to, Active_enter_state, create_sync_session,
      do_create_sync_session, sync_manager_call;
    destruct s as [st cs cfg frc path ws0 cbs cnt dc url pn mgr lk ev en]; simpl in *;
    destruct cfg as [usr pv sp eh crm cw]; simpl in *;
    subst lk ws0 usr mgr; run_m; rewrite bool_decide_true by congruence; simpl;
    rewrite Href; simpl; rewrite ?Hurl; reflexivity.
Qed.

Lemma registered_lookup c l (i : nat) :
  registered c l !! i = (fun w => ((c + 1 + N.of_nat i)%N, w.2)) <$> l !! i.
Proof.
  revert c i. induction l as [|w l IH]; intros c i; [done|].
  destruct i as [|i]; simpl.
  - by rewrite N.add_0_r.
  - rewrite IH. destruct (l !! i); simpl; [|done].
    replace (c + 1 + 1 + N.of_nat i)%N with (c + 1 + N.pos (Pos.of_succ_nat i))%N by lia.
    reflexivity.
Qed.

Lemma advance_state_Active_enter (s : SyncSession) :
  lock_owned s = true ->
  m_state s <> Active ->
  advance_state Active s = Active_enter_state (set_m_state Active s).
Proof.
  intros Hlock Hst. unfold advance_state, advance_to. unfold_m.
  unfold bind_m, REALM_ASSERT, modify. rewrite Hlock.
  rewrite bool_decide_true by congruence. reflexivity.
Qed.

Lemma revive_if_needed_Inactive (s : SyncSession) :
  m_state s = Inactive ->
  revive_if_needed s
  = match advance_state Active (set_lock_owned true s) with
    | Ok _ s' => Ok tt (set_lock_owned false s')
    | Aborted r s' => Aborted r s'
    | Thrown ex s' => Thrown ex (set_lock_owned false s')
    end.
Proof.
  intros Hst. unfold revive_if_needed, state_revive_if_needed, scoped_lock. unfold_m.
  unfold bind_m at 1. unfold bind_m at 1. unfold get at 1.
  replace (m_state (set_lock_owned true s)) with Inactive by (by destruct s).
  unfold bind_m. by destruct (advance_state Active (set_lock_owned true s)).
Qed.

(** Reviving an inactive session (it has no wire session) whose user needs no
    new access token, the request counter not about to wrap.  Where the
    pointer to the sync manager is not null and the URL of the server is
    accepted, the session becomes active on a new wire session, made for the
    user and the partition (for a client reset exactly where
    [m_force_client_resync] is set), bound, and asked to call back for each
    completion callback that was pending, in the order of their ids, each
    under a new id, from the counter on, under which the session finds that
    callback; no callback is called, none is lost.  Where the pointer is null
    the call aborts on it, and where the URL is not accepted it throws
    [BadServerUrl]: the state is [Active] by then, and nothing else has
    changed. *)
Theorem revive_registers_pending_waits (s : SyncSession) (u : SyncUser) :
  m_state s = Inactive ->
  m_session s = None ->
  user (m_config s) = Some u ->
  access_token_refresh_required u = false ->
  (m_completion_request_counter s + N.of_nat (size (m_completion_callbacks s)) < 2 ^ 64)%N ->
  (is_Some (m_sync_manager s) ->
   server_url_ok (env s) = true ->
   exists s' ws evs,
     revive_if_needed s = Ok tt s'
     /\ m_state s' = Active
     /\ m_session s' = Some ws
     /\ ws_realm_path ws = m_realm_path s
     /\ ws_signed_user_token ws = access_token u
     /\ ws_realm_identifier ws = partition_value (m_config s)
     /\ (is_Some (ws_client_reset_config ws) <-> m_force_client_resync s = true)
     /\ ws_calls ws !! 0%nat = Some bind
     /\ length (ws_calls ws) = S (size (m_completion_callbacks s))
     /\ size (m_completion_callbacks s') = size (m_completion_callbacks s)
     /\ (forall (i : nat) id direction callback,
           map_iter (m_completion_callbacks s) !! i = Some (id, (direction, callback)) ->
           let id' := (m_completion_request_counter s + 1 + N.of_nat i)%N in
           ws_calls ws !! S i = Some (wait_call (id', (direction, callback)))
           /\ m_completion_callbacks s' !! id' = Some (direction, callback))
     /\ events s' = events s ++ evs
     /\ List.filter is_completion evs = []
     /\ handler_calls evs = 0%nat)
  /\ (m_sync_manager s = None ->
      revive_if_needed s
      = Aborted null_dereference (set_m_state Active (set_lock_owned true s)))
  /\ (is_Some (m_sync_manager s) ->
      server_url_ok (env s) = false ->
      revive_if_needed s
      = Thrown BadServerUrl (set_m_state Active (set_lock_owned false s))).
Proof.
  intros Hst Hws Hu Href Hcnt. split; [|split].
  2: { intros Hmgr. rewrite revive_if_needed_Inactive by done.
       rewrite (advance_state_Active_fails _ u);
         [|by destruct s|destruct s; simpl in *; congruence|by destruct s..].
       replace (m_sync_manager (set_lock_owned true s)) with (@None SyncManager)
         by (by destruct s).
       reflexivity. }
  2: { intros [m Hmgr] Hurl. rewrite revive_if_needed_Inactive by done.
       rewrite (advance_state_Active_fails _ u);
         [|by destruct s|destruct s; simpl in *; congruence|by destruct s..].
       replace (m_sync_manager (set_lock_owned true s)) with (Some m) by (by destruct s).
       replace (env (set_lock_owned true s)) with (env s) by (by destruct s).
       rewrite Hurl. by destruct s. }
  intros Hmgr Hurl.
  exists (set_lock_owned false (activated u s)),
    (add_calls (new_wire_session u s)
       (bind :: map wait_call (registered (m_completion_request_counter s)
                                          (map_iter (m_completion_callbacks s))))),
    (if m_force_client_resync s then [EvTryMakeDir (m_realm_path s +:+ ".resync")] else []).
  split.
  { rewrite revive_if_needed_Inactive by done.
    rewrite (advance_state_Active_eq _ u); try (by destruct s).
    destruct s; simpl in *; congruence. }
  split; [done|]. split; [done|]. split; [done|]. split; [done|]. split; [done|].
  split.
  { simpl. destruct (m_force_client_resync s); split; intros Hx; eauto; try done.
    all: by destruct Hx. }
  split; [done|]. split.
  { simpl. by rewrite length_map, length_registered, length_map_iter. }
  split.
  { simpl. by rewrite size_insert_all_registered, length_map_iter. }
  split.
  { intros i id d f Hi id'. simpl.
    assert (registered (m_completion_request_counter s)
                       (map_iter (m_completion_callbacks s)) !! i
            = Some (id', (d, f))) as Hr.
    { rewrite registered_lookup. rewrite Hi. reflexivity. }
    split.
    - rewrite list_lookup_fmap. rewrite Hr. reflexivity.
    - apply insert_all_registered. by apply list_elem_of_lookup_2 in Hr. }
  split; [by destruct s|].
  split; destruct (m_force_client_resync s); reflexivity.
Qed.

(** The result of a token refresh that succeeded, with a session that waits
    for its access token and has no wire session (the user as above): the
    session becomes active as by being revived, where the pointer to the sync
    manager is not null and the URL of the server is accepted; and where not,
    the call ends as [revive_if_needed] does. *)
Theorem successful_refresh_activates_the_session (s : SyncSession) (u : SyncUser) :
  m_state s = WaitingForAccessToken ->
  m_session s = None ->
  user (m_config s) = Some u ->
  refresh_token_expired u = false ->
  access_token_refresh_required u = false ->
  (m_completion_request_counter s + N.of_nat (size (m_completion_callbacks s)) < 2 ^ 64)%N ->
  (is_Some (m_sync_manager s) ->
   server_url_ok (env s) = true ->
   handle_refresh None s = Ok tt (set_lock_owned false (activated u s)))
  /\ handle_refresh None s = revive_if_needed (set_m_state Inactive s).
Proof.
  intros Hst Hws Hu Hexp Href Hcnt.
  assert (handle_refresh None s
          = match advance_state Active (set_lock_owned true s) with
            | Ok _ s' => Ok tt (set_lock_owned false s')
            | Aborted r s' => Aborted r s'
            | Thrown ex s' => Thrown ex (set_lock_owned false s')
            end) as Heq.
  { unfold handle_refresh. rewrite bind_get. rewrite Hu, Hexp.
    unfold update_access_token, state_access_token_updated, refresh_if_session, scoped_lock.
    unfold_m. unfold bind_m at 1. unfold get at 1.
    replace (m_state (set_lock_owned true s)) with WaitingForAccessToken by (by destruct s).
    unfold bind_m at 1. unfold bind_m at 1. unfold get at 1.
    replace (m_session (set_lock_owned true s)) with (@None WireSession) by (by destruct s).
    unfold ret at 1. cbv beta iota.
    by destruct (advance_state Active (set_lock_owned true s)) as [[] ?| |]. }
  split.
  - intros Hmgr Hurl. rewrite Heq.
    rewrite (advance_state_Active_eq _ u); try (by destruct s).
    destruct s; simpl in *; congruence.
  - rewrite Heq. rewrite revive_if_needed_Inactive by (by destruct s).
    rewrite !advance_state_Active_enter;
      [|by destruct s|destruct s; simpl in *; congruence
       |by destruct s|destruct s; simpl in *; congruence].
    replace (set_m_state Active (set_lock_owned true (set_m_state Inactive s)))
      with (set_m_state Active (set_lock_owned true s)) by (by destruct s).
    reflexivity.
Qed.

(** *** The wait of a dying session *)

Lemma dying_wait_completed_outcome (n : N) (s : SyncSession) :
  dying_wait_completed n s
  = if bool_decide (m_state s = Dying) && bool_decide (m_death_count s = n)
    then unregistering s (entered_inactive s) (detached_inactive s)
    else Ok tt (set_lock_owned false s).
Proof.
  unfold dying_wait_completed. unfold scoped_lock at 1. rewrite bind_get. cbv beta.
  replace (m_state (set_lock_owned true s)) with (m_state s) by (by destruct s).
  replace (m_death_count (set_lock_owned true s)) with (m_death_count s) by (by destruct s).
  destruct (bool_decide (m_state s = Dying)) eqn:Hst; simpl.
  - apply bool_decide_eq_true in Hst.
    destruct (bool_decide (m_death_count s = n)); simpl; [|by destruct s].
    rewrite <- locked_advance_state_Inactive_outcome by congruence. reflexivity.
  - by destruct s.
Qed.

Lemma dying_wait_completed_eq (n : N) (s : SyncSession) :
  is_Some (m_sync_manager s) ->
  dying_wait_completed n s
  = Ok tt (if bool_decide (m_state s = Dying) && bool_decide (m_death_count s = n)
           then entered_inactive s else set_lock_owned false s).
Proof.
  intros [m Hm]. rewrite dying_wait_completed_outcome. unfold unregistering.
  rewrite Hm. by destruct (_ && _).
Qed.

Lemma incr64_changes (x : N) : (x < 2 ^ 64)%N -> incr64 x <> x.
Proof.
  intros Hx. unfold incr64. destruct (decide (x + 1 < 2 ^ 64)%N) as [Hlt|Hge].
  - rewrite N.mod_small by done. lia.
  - replace (x + 1)%N with (2 ^ 64)%N by lia. rewrite N.Div0.mod_same. lia.
Qed.

Lemma incr64_bound (x : N) : (incr64 x < 2 ^ 64)%N.
Proof. unfold incr64. apply N.mod_upper_bound. lia. Qed.

(** What registering a completion callback with a session that has its wire
    session leaves as it is. *)
Definition kept (s s' : SyncSession) : Prop :=
  m_state s' = m_state s /\ m_death_count s' = m_death_count s
  /\ m_config s' = m_config s /\ events s' = events s /\ lock_owned s' = lock_owned s
  /\ m_sync_manager s' = m_sync_manager s
  /\ is_Some (m_session s').

Lemma add_completion_callback_kept f d (s : SyncSession) :
  is_Some (m_session s) ->
  exists s', add_completion_callback f d s = Ok tt s' /\ kept s s'.
Proof.
  intros [ws Hws]. unfold add_completion_callback, wire_call, kept.
  destruct s as [st cs cfg frc path ws0 cbs cnt dc url pn mgr lk ev en]. simpl in *. subst ws0.
  run_m. eexists. split; [reflexivity|]. simpl. eauto 10.
Qed.

Lemma register_loop_kept (l : list (N * (NotifierType * Callback))) (s : SyncSession) :
  is_Some (m_session s) ->
  exists s', for_each l (fun w => add_completion_callback w.2.2 w.2.1) s = Ok tt s'
             /\ kept s s'.
Proof.
  revert s. induction l as [|w l IH]; intros s Hws.
  - exists s. split; [done|]. unfold kept. eauto 10.
  - destruct (add_completion_callback_kept w.2.2 w.2.1 s Hws) as (s1 & Heq & Hk).
    destruct (IH s1) as (s' & Heq' & Hk'); [apply Hk|].
    exists s'. split.
    + cbn [for_each]. erewrite bind_ok by exact Heq. exact Heq'.
    + unfold kept in *. intuition congruence.
Qed.

(** Reviving a dying session: it becomes active on the wire session it has,
    or waits for an access token; the death count stays. *)
Lemma revive_dying (s : SyncSession) :
  m_state s = Dying ->
  is_Some (m_session s) ->
  exists s',
    revive_if_needed s = Ok tt s'
    /\ (m_state s' = Active \/ m_state s' = WaitingForAccessToken)
    /\ m_death_count s' = m_death_count s
    /\ m_config s' = m_config s
    /\ m_sync_manager s' = m_sync_manager s
    /\ is_Some (m_session s')
    /\ handler_calls (drop (length (events s)) (events s')) = 0%nat.
Proof.
  intros Hst [ws Hws].
  unfold revive_if_needed, state_revive_if_needed, advance_state, advance_to,
    Active_enter_state, WaitingForAccessToken_enter_state, initiate_access_token_refresh.
  destruct s as [st cs cfg frc path ws0 cbs cnt dc url pn mgr lk ev en]. simpl in *.
  subst st ws0. run_m.
  destruct (match user cfg with
            | Some u => access_token_refresh_required u
            | None => false
            end) eqn:Href; simpl.
  - destruct (user cfg) as [u|]; [|done]. simpl.
    eexists. split; [reflexivity|]. simpl.
    split; [by right|]. split; [done|]. split; [done|]. split; [done|]. split; [eauto|].
    by rewrite drop_app_length.
  - unfold_setters.
    match goal with |- context [for_each _ _ ?s0] => set (s1 := s0) end.
    destruct (register_loop_kept (map_iter cbs) s1) as (s' & Heq & Hk).
    { subst s1. simpl. eauto. }
    rewrite Heq. simpl. eexists. split; [reflexivity|].
    destruct Hk as (Hk1 & Hk2 & Hk3 & Hk4 & Hk5 & Hk6 & Hk7).
    destruct s'. subst s1. simpl in *. subst.
    split; [by left|]. split; [done|]. split; [done|]. split; [done|]. split; [done|].
    by rewrite drop_all.
Qed.

(** The callback of the wait of a dying session carries the death count of
    its time.  Closing an active session with a wire session (its pointer to
    the sync manager not null) under [AfterChangesUploaded] makes it dying, the wire session asked to call
    back with the new count; that callback makes the dying session inactive.
    Once the session has been revived the callback does nothing, be the
    session active, waiting for its token, or closed again and dying on a
    later wait, whose callback alone ends it. *)
Theorem stale_dying_wait_is_ignored (s : SyncSession) (ws : WireSession) :
  m_state s = Active ->
  m_session s = Some ws ->
  stop_policy (m_config s) = AfterChangesUploaded ->
  is_Some (m_sync_manager s) ->
  let d := incr64 (m_death_count s) in
  exists s1 s2 s3,
    close s = Ok tt s1
    /\ m_state s1 = Dying
    /\ m_session s1 = Some (add_calls ws [async_wait_for_upload_completion (DyingWaiter d)])
    /\ dying_wait_completed d s1 = Ok tt (entered_inactive s1)
    /\ revive_if_needed s1 = Ok tt s2
    /\ m_state s2 <> Dying
    /\ dying_wait_completed d s2 = Ok tt (set_lock_owned false s2)
    /\ close s2 = Ok tt s3
    /\ dying_wait_completed d s3 = Ok tt (set_lock_owned false s3)
    /\ (m_state s3 = Dying ->
        dying_wait_completed (incr64 d) s3 = Ok tt (entered_inactive s3)).
Proof.
  intros Hst Hws Hpol Hmgr d.
  assert (close s = Ok tt (entered_dying ws s)) as Hclose.
  { by apply close_to_dying. }
  destruct (revive_dying (entered_dying ws s))
    as (s2 & Hrev & Hst2 & Hdc2 & Hcfg2 & Hmgr2 & Hws2 & _);
    [by destruct s|by (destruct s; simpl; eauto)|].
  assert (m_death_count s2 = d) as Hd2 by (rewrite Hdc2; by destruct s).
  assert (is_Some (m_sync_manager (entered_dying ws s))) as Hmgr1 by (by destruct s).
  assert (is_Some (m_sync_manager s2)) as Hmgr2' by (by rewrite Hmgr2).
  assert (exists s3, close s2 = Ok tt s3
                     /\ ((m_state s2 = Active /\ exists ws2, m_session s2 = Some ws2
                                                            /\ s3 = entered_dying ws2 s2)
                         \/ (m_state s2 = WaitingForAccessToken
                             /\ s3 = entered_inactive s2)))
    as (s3 & Hclose2 & Hs3).
  { destruct Hst2 as [Hact|Hwait].
    - destruct Hws2 as [ws2 Hws2]. exists (entered_dying ws2 s2). split.
      + apply close_to_dying; [done| |done]. rewrite Hcfg2. by destruct s.
      + left. eauto.
    - exists (entered_inactive s2). split; [by apply close_while_waiting|]. by right. }
  assert (is_Some (m_sync_manager s3)) as Hmgr3.
  { destruct Hs3 as [(_ & ws2 & _ & ->)|(_ & ->)]; by destruct s2. }
  exists (entered_dying ws s), s2, s3.
  split; [exact Hclose|]. split; [by destruct s|]. split; [by destruct s|].
  split.
  { rewrite dying_wait_completed_eq by done.
    replace (m_state (entered_dying ws s)) with Dying by (by destruct s).
    replace (m_death_count (entered_dying ws s)) with d by (by destruct s).
    by rewrite !bool_decide_true. }
  split; [exact Hrev|].
  split; [destruct Hst2; congruence|].
  split.
  { rewrite dying_wait_completed_eq by done.
    rewrite (bool_decide_false (m_state s2 = Dying)); [done|].
    destruct Hst2; congruence. }
  split; [exact Hclose2|].
  rewrite !dying_wait_completed_eq by done.
  destruct Hs3 as [(Hact & ws2 & Hws2' & ->)|(Hwait & ->)].
  - replace (m_state (entered_dying ws2 s2)) with Dying by (by destruct s2).
    replace (m_death_count (entered_dying ws2 s2)) with (incr64 d)
      by (destruct s2; simpl in *; congruence).
    rewrite (bool_decide_true (Dying = Dying)) by done.
    rewrite (bool_decide_false (incr64 d = d)) by (apply incr64_changes, incr64_bound).
    rewrite bool_decide_true by done. simpl. split; [done|]. done.
  - replace (m_state (entered_inactive s2)) with Inactive by (by destruct s2).
    rewrite !(bool_decide_false (Inactive = Dying)) by done. simpl.
    split; [done|]. intros Hx. discriminate Hx.
Qed.

End WithExternals.

(** *** The theorems at work on a session *)

Lemma only_errors_reach_the_error_handler_witness :
  exists evs,
    events (final (@run example_externals
                     [op_revive_if_needed; op_wait_for_upload_completion 9%N; op_close;
                      op_dying_wait_completed 1]
                     (make_SyncSession "/data/realm" (a_config false Manual) false
                                       (Some the_sync_manager) an_environment)))
    = [] ++ evs
    /\ handler_calls evs = 0%nat.
Proof.
  apply (@only_errors_reach_the_error_handler example_externals
           [op_revive_if_needed; op_wait_for_upload_completion 9%N; op_close;
            op_dying_wait_completed 1]
           (make_SyncSession "/data/realm" (a_config false Manual) false
                             (Some the_sync_manager) an_environment)).
  repeat constructor.
Defined.

Lemma informational_errors_are_not_reported_witness :
  @handle_error example_externals (an_error ProtocolError.session_closed true)
                (a_session Active false Manual)
  = Ok tt (set_lock_owned false (a_session Active false Manual)).
Proof.
  apply (proj2 (@informational_errors_are_not_reported example_externals
                  (an_error ProtocolError.session_closed true)
                  (a_session Active false Manual) eq_refl)).
  - reflexivity.
  - simpl. discriminate.
Defined.

Lemma file_errors_mark_the_file_and_deactivate_witness :
  exists s',
    @handle_error example_externals (an_error ProtocolError.bad_server_version true)
                  (a_session Active false Manual) = Ok tt s'
    /\ m_state s' = Inactive /\ m_completion_callbacks s' = ∅.
Proof.
  eexists. split.
  - apply (@file_errors_mark_the_file_and_deactivate example_externals
             (an_error ProtocolError.bad_server_version true)
             (a_session Active false Manual) (a_user false) true).
    + reflexivity.
    + intros _. reflexivity.
    + reflexivity.
  - split; reflexivity.
Defined.

Lemma plain_errors_are_delivered_witness :
  exists s',
    @handle_error example_externals (an_error ProtocolError.bad_changeset true)
                  (a_session Active false Manual) = Ok tt s'
    /\ m_state s' = Active /\ m_completion_callbacks s' = ∅.
Proof.
  eexists. split.
  - apply (@plain_errors_are_delivered example_externals
             (an_error ProtocolError.bad_changeset true)
             (a_session Active false Manual) false).
    + reflexivity.
    + intros _. reflexivity.
  - split; reflexivity.
Defined.

Lemma unauthorized_response_asks_for_a_token_witness :
  @handle_error example_externals
                (make_SyncError websocket_bad_response_401_unauthorized "401" false)
                (a_session Active false Manual)
  = Ok tt (set_events [EvRefreshCustomData]
                      (set_lock_owned false (a_session Active false Manual))).
Proof.
  apply (@unauthorized_response_asks_for_a_token example_externals
           (make_SyncError websocket_bad_response_401_unauthorized "401" false)
           (a_session Active false Manual) (a_user false)).
  - reflexivity.
  - intros _. reflexivity.
  - reflexivity.
Defined.

Lemma bad_authentication_invalidates_the_user_witness :
  exists s',
    @handle_error example_externals (an_error ProtocolError.bad_authentication true)
                  (a_session Active false Manual) = Ok tt s'
    /\ m_state s' = Active /\ EvUserInvalidate ∈ events s'.
Proof.
  eexists. split.
  - apply (@bad_authentication_invalidates_the_user example_externals
             (an_error ProtocolError.bad_authentication true)
             (a_session Active false Manual) (a_user false)).
    + reflexivity.
    + intros _. reflexivity.
    + reflexivity.
  - split; [reflexivity|]. simpl. apply elem_of_app. right.
    apply elem_of_cons. by left.
Defined.

Lemma revive_registers_pending_waits_witness :
  exists s' ws,
    revive_if_needed (a_session Inactive false Manual) = Ok tt s'
    /\ m_session s' = Some ws
    /\ ws_calls ws !! 2%nat
       = Some (async_wait_for_download_completion (CompletionWaiter 4)).
Proof.
  destruct (proj1 (revive_registers_pending_waits
                     (a_session Inactive false Manual) (a_user false)
                     eq_refl eq_refl eq_refl eq_refl ltac:(vm_compute; reflexivity)))
    as (s' & ws & evs & Heq & _ & Hws & _ & _ & _ & _ & _ & _ & _ & Hcalls & _).
  - simpl. eauto.
  - reflexivity.
  - exists s', ws. split; [exact Heq|]. split; [exact Hws|].
    apply (Hcalls 1%nat 2%N download 6%N). vm_compute. reflexivity.
Defined.

Lemma successful_refresh_activates_the_session_witness :
  handle_refresh None (set_m_session None (a_session WaitingForAccessToken false Manual))
  = revive_if_needed
      (set_m_state Inactive
         (set_m_session None (a_session WaitingForAccessToken false Manual))).
Proof.
  apply (proj2 (successful_refresh_activates_the_session
                  (set_m_session None (a_session WaitingForAccessToken false Manual))
                  (a_user false) eq_refl eq_refl eq_refl eq_refl eq_refl
                  ltac:(vm_compute; reflexivity))).
Defined.

Lemma stale_dying_wait_is_ignored_witness :
  exists s1 s2,
    close (a_session Active false Manual) = Ok tt s1
    /\ revive_if_needed s1 = Ok tt s2
    /\ dying_wait_completed 1 s2 = Ok tt (set_lock_owned false s2).
Proof.
  destruct (stale_dying_wait_is_ignored (a_session Active false Manual)
              (mkWire "/data/realm" "signed-token" "partition" None [bind])
              eq_refl eq_refl eq_refl ltac:(simpl; eauto))
    as (s1 & s2 & s3 & Hclose & _ & _ & _ & Hrev & _ & Hstale & _).
  exists s1, s2. repeat split; assumption.
Defined.

End SessionMore.

(** * Properties of the connection change notifier *)

Module NotifierSpec.
Import ConnectionNotifier.

(** The tokens a list of actions removes, and the callbacks it registers. *)
Definition removes (acts : list Action) : list N :=
  omap (fun a => match a with act_remove t => Some t | act_add _ => None end) acts.

Definition adds (acts : list Action) : list Callback :=
  omap (fun a => match a with act_add f => Some f | act_remove _ => None end) acts.

(** The registrations a dispatch calls: each in its turn, unless a callback
    called before it has removed it. *)
Fixpoint served (behaviour : Callback -> list Action) (removed : list N)
    (pending : list (Callback * N)) : list (Callback * N) :=
  match pending with
  | [] => []
  | c :: pending =>
      if decide (c.2 ∈ removed) then served behaviour removed pending
      else c :: served behaviour (removed ++ removes (behaviour c.1)) pending
  end.

(** What the callbacks called do, one after another. *)
Definition script (behaviour : Callback -> list Action) (called : list (Callback * N))
    : list Action :=
  concat (map (fun c => behaviour c.1) called).

(** Callbacks as [add_callback] registers them, from a token on. *)
Fixpoint tokens_from (token : N) (fs : list Callback) : list (Callback * N) :=
  match fs with
  | [] => []
  | f :: fs => (f, token) :: tokens_from (token + 1) fs
  end.

(** The registrations that a list of removals leaves. *)
Definition without (removed : list N) (l : list (Callback * N)) : list (Callback * N) :=
  filter (fun c => c.2 ∉ removed) l.

Lemma removes_app a b : removes (a ++ b) = removes a ++ removes b.
Proof. unfold removes. by rewrite omap_app. Qed.

Lemma adds_app a b : adds (a ++ b) = adds a ++ adds b.
Proof. unfold adds. by rewrite omap_app. Qed.

Lemma tokens_from_app t fs gs :
  tokens_from t (fs ++ gs) = tokens_from t fs ++ tokens_from (t + N.of_nat (length fs)) gs.
Proof.
  revert t. induction fs as [|f fs IH]; intros t; simpl.
  - by rewrite N.add_0_r.
  - rewrite IH. do 3 f_equal. lia.
Qed.

Lemma without_nil l : without [] l = l.
Proof.
  unfold without. induction l as [|c l IH]; [done|].
  rewrite filter_cons_True by (apply not_elem_of_nil). by rewrite IH.
Qed.

Lemma without_app r l1 l2 : without r (l1 ++ l2) = without r l1 ++ without r l2.
Proof. unfold without. apply filter_app. Qed.

Lemma without_without r1 r2 l : without r2 (without r1 l) = without (r1 ++ r2) l.
Proof.
  unfold without. induction l as [|c l IH]; [done|].
  destruct (decide (c.2 ∈ r1)) as [Hin|Hout].
  - rewrite (filter_cons_False _ _ l) by (intros Hx; by apply Hx).
    rewrite (filter_cons_False _ _ l); [exact IH|].
    intros Hx. apply Hx. apply elem_of_app. by left.
  - rewrite (filter_cons_True (fun c => c.2 ∉ r1)) by done.
    destruct (decide (c.2 ∈ r2)) as [Hin2|Hout2].
    + rewrite filter_cons_False by (intros Hx; by apply Hx).
      rewrite (filter_cons_False (fun c => c.2 ∉ r1 ++ r2)); [exact IH|].
      intros Hx. apply Hx. apply elem_of_app. by right.
    + rewrite filter_cons_True by done.
      rewrite (filter_cons_True (fun c => c.2 ∉ r1 ++ r2)); [by rewrite IH|].
      intros Hx. apply elem_of_app in Hx as [Hx|Hx]; done.
Qed.

Lemma without_absent r l : (forall c, c ∈ l -> c.2 ∉ r) -> without r l = l.
Proof.
  intros Hl. unfold without. induction l as [|c l IH]; [done|].
  rewrite filter_cons_True by (apply Hl; by left).
  rewrite IH; [done|]. intros c' Hc'. apply Hl. by right.
Qed.

Lemma length_without r l : (length (without r l) <= length l)%nat.
Proof. unfold without. apply length_filter. Qed.

Lemma NoDup_without r (l : list (Callback * N)) : NoDup l.*2 -> NoDup (without r l).*2.
Proof.
  intros Hnd. apply (sublist_NoDup (without r l).*2 l.*2); [exact Hnd|].
  apply fmap_sublist. unfold without. apply sublist_filter.
Qed.

(** *** Removing one callback *)

Lemma find_token_None (t : N) (l : list (Callback * N)) :
  t ∉ l.*2 -> find_token t l = None.
Proof.
  induction l as [|c l IH]; intros Ht; simpl; [done|].
  rewrite fmap_cons in Ht. apply not_elem_of_cons in Ht as [Hne Ht].
  rewrite decide_False by done. by rewrite IH.
Qed.

Lemma find_token_app (t : N) (l1 : list (Callback * N)) (f : Callback) l2 :
  t ∉ l1.*2 -> find_token t (l1 ++ (f, t) :: l2) = Some (length l1).
Proof.
  induction l1 as [|c l1 IH]; intros Ht; simpl.
  - by rewrite decide_True.
  - rewrite fmap_cons in Ht. apply not_elem_of_cons in Ht as [Hne Ht].
    rewrite decide_False by done. by rewrite IH.
Qed.

Lemma token_split (t : N) (l : list (Callback * N)) :
  t ∈ l.*2 -> NoDup l.*2 ->
  exists (l1 : list (Callback * N)) (f : Callback) (l2 : list (Callback * N)),
    l = l1 ++ (f, t) :: l2 /\ (t ∉ l1.*2) /\ (t ∉ l2.*2).
Proof.
  induction l as [|[f' t'] l IH]; intros Hin Hnd; [by apply elem_of_nil in Hin|].
  rewrite fmap_cons in Hin, Hnd. apply NoDup_cons in Hnd as [Hout Hnd]. simpl in *.
  destruct (decide (t' = t)) as [->|Hne].
  - exists [], f', l. split; [done|]. split; [apply not_elem_of_nil|done].
  - apply elem_of_cons in Hin as [Heq|Hin]; [congruence|].
    destruct (IH Hin Hnd) as (l1 & f & l2 & -> & H1 & H2).
    exists ((f', t') :: l1), f, l2. split; [done|]. split; [|done].
    rewrite fmap_cons. apply not_elem_of_cons. split; [simpl; congruence|done].
Qed.

Lemma without_one_absent (t : N) (l : list (Callback * N)) :
  t ∉ l.*2 -> without [t] l = l.
Proof.
  intros Ht. apply without_absent. intros c Hc Hx.
  apply list_elem_of_singleton in Hx. apply Ht. rewrite <- Hx.
  apply list_elem_of_fmap. eauto.
Qed.

Lemma without_one_present (t : N) (l1 : list (Callback * N)) (f : Callback) l2 :
  t ∉ l1.*2 -> t ∉ l2.*2 -> without [t] (l1 ++ (f, t) :: l2) = l1 ++ l2.
Proof.
  intros H1 H2. rewrite without_app. rewrite (without_one_absent t l1) by done.
  f_equal. unfold without. rewrite filter_cons_False.
  - by apply without_one_absent.
  - intros Hx. apply Hx. simpl. by left.
Qed.

Lemma decr64_pos (x : N) : (0 < x < 2 ^ 64)%N -> decr64 x = (x - 1)%N.
Proof.
  intros Hx. unfold decr64.
  replace (x + (2 ^ 64 - 1))%N with ((x - 1) + 1 * 2 ^ 64)%N by lia.
  rewrite N.Div0.mod_add. apply N.mod_small. lia.
Qed.

Lemma incr64_next (x : N) : (x + 1 < 2 ^ 64)%N -> incr64 x = (x + 1)%N.
Proof. intros Hx. unfold incr64. by apply N.mod_small. Qed.

Lemma incr64_decr64 (x : N) : (x < 2 ^ 64)%N -> incr64 (decr64 x) = x.
Proof.
  intros Hx. destruct (decide (x = 0%N)) as [->|Hne]; [reflexivity|].
  rewrite decr64_pos by lia. unfold incr64.
  replace (x - 1 + 1)%N with x by lia. by apply N.mod_small.
Qed.

(** [remove_callback] in the midst of a dispatch: [A] are the callbacks up to
    the one running, [B] the ones whose turn is to come, [C] the ones
    registered since the dispatch began. *)
Lemma remove_callback_step (A B C : list (Callback * N)) (T t : N) :
  NoDup (A ++ B).*2 ->
  t ∉ C.*2 ->
  (N.of_nat (length (A ++ B)) < 2 ^ 64 - 1)%N ->
  remove_callback (mkNotifier (A ++ B ++ C) T (decr64 (N.of_nat (length A)))
                              (N.of_nat (length (A ++ B)))) t
  = mkNotifier (without [t] A ++ without [t] B ++ C) T
               (decr64 (N.of_nat (length (without [t] A))))
               (N.of_nat (length (without [t] A ++ without [t] B))).
Proof.
  intros Hnd HC Hlen. unfold remove_callback. simpl.
  rewrite fmap_app in Hnd. apply NoDup_app in Hnd as (HndA & Hdisj & HndB).
  rewrite length_app in Hlen.
  destruct (decide (t ∈ A.*2)) as [HA|HA].
  - destruct (token_split t A HA HndA) as (A1 & f & A2 & -> & H1 & H2).
    assert (t ∉ B.*2) as HB.
    { apply Hdisj. rewrite fmap_app, fmap_cons. apply elem_of_app. right. by left. }
    rewrite <- app_assoc. simpl. rewrite find_token_app by done.
    rewrite delete_middle. rewrite without_one_present by done.
    rewrite (without_one_absent t B) by done.
    rewrite !length_app in *. simpl in *.
    rewrite (decr64_pos (N.of_nat (length A1 + S (length A2)))) by lia.
    rewrite decide_True by (unfold npos; lia).
    replace (N.of_nat (length A1) <=? N.of_nat (length A1 + S (length A2)) - 1)%N
      with true by (symmetry; apply N.leb_le; lia).
    rewrite <- app_assoc. f_equal.
    + f_equal. lia.
    + rewrite decr64_pos by lia. lia.
  - rewrite (without_one_absent t A) by done.
    destruct (decide (t ∈ B.*2)) as [HB|HB].
    + destruct (token_split t B HB HndB) as (B1 & f & B2 & -> & H1 & H2).
      replace (A ++ (B1 ++ (f, t) :: B2) ++ C) with ((A ++ B1) ++ (f, t) :: (B2 ++ C))
        by (by rewrite <- !app_assoc).
      rewrite find_token_app.
      2: { rewrite fmap_app. intros Hx. apply elem_of_app in Hx as [Hx|Hx]; done. }
      rewrite delete_middle. rewrite without_one_present by done.
      rewrite !length_app in *. simpl in *.
      assert ((if decide (decr64 (N.of_nat (length A)) <> npos)
               then if (N.of_nat (length A + length B1) <=? decr64 (N.of_nat (length A)))%N
                    then decr64 (decr64 (N.of_nat (length A)))
                    else decr64 (N.of_nat (length A))
               else decr64 (N.of_nat (length A))) = decr64 (N.of_nat (length A))) as ->.
      { destruct (decide _) as [Hn|Hn]; [|done].
        destruct (decide (length A = 0%nat)) as [H0|H0].
        - exfalso. apply Hn. rewrite H0. reflexivity.
        - rewrite decr64_pos by lia.
          replace (N.of_nat (length A + length B1) <=? N.of_nat (length A) - 1)%N
            with false by (symmetry; apply N.leb_gt; lia).
          done. }
      rewrite <- !app_assoc. f_equal.
      rewrite decr64_pos by lia. lia.
    + rewrite (without_one_absent t B) by done.
      rewrite find_token_None; [done|].
      rewrite !fmap_app. intros Hx.
      apply elem_of_app in Hx as [Hx|Hx]; [done|].
      apply elem_of_app in Hx as [Hx|Hx]; done.
Qed.

(** *** What one callback does *)

Lemma actions_step (acts : list Action) (A B C : list (Callback * N)) (T T0 : N) :
  NoDup (A ++ B).*2 ->
  (forall c, c ∈ C -> (T0 <= c.2)%N) ->
  (T0 <= T)%N ->
  (forall t, t ∈ removes acts -> (t < T0)%N) ->
  (T + N.of_nat (length (adds acts)) < 2 ^ 64)%N ->
  (N.of_nat (length (A ++ B)) < 2 ^ 64 - 1)%N ->
  foldl apply_action
        (mkNotifier (A ++ B ++ C) T (decr64 (N.of_nat (length A)))
                    (N.of_nat (length (A ++ B)))) acts
  = mkNotifier (without (removes acts) A ++ without (removes acts) B
                  ++ C ++ tokens_from T (adds acts))
               (T + N.of_nat (length (adds acts)))
               (decr64 (N.of_nat (length (without (removes acts) A))))
               (N.of_nat (length (without (removes acts) A ++ without (removes acts) B))).
Proof.
  revert A B C T. induction acts as [|[f|t] acts IH]; intros A B C T Hnd HC HT Hrem Hadd Hlen.
  - simpl. rewrite !without_nil, app_nil_r, N.add_0_r. reflexivity.
  - simpl. unfold add_callback. simpl.
    replace ((A ++ B ++ C) ++ [(f, T)]) with (A ++ B ++ (C ++ [(f, T)]))
      by (by rewrite <- !app_assoc).
    simpl in Hadd. rewrite incr64_next by lia.
    rewrite (IH A B (C ++ [(f, T)]) (T + 1)%N); try done.
    + f_equal.
      * by rewrite <- !app_assoc.
      * lia.
    + intros c Hc. apply elem_of_app in Hc as [Hc|Hc]; [by apply HC|].
      apply list_elem_of_singleton in Hc. by subst c.
    + lia.
    + lia.
  - simpl. simpl in Hrem.
    assert (t < T0)%N as Ht by (apply Hrem; by left).
    rewrite remove_callback_step; try done.
    2: { intros Hx. apply list_elem_of_fmap in Hx as [c [-> Hc]]. apply HC in Hc. lia. }
    rewrite (IH (without [t] A) (without [t] B) C T); try done.
    + rewrite !without_without. reflexivity.
    + rewrite <- without_app. by apply NoDup_without.
    + intros t' Ht'. apply Hrem. by right.
    + rewrite <- without_app. pose proof (length_without [t] (A ++ B)). lia.
Qed.

(** *** The loop *)

Lemma served_app_script behaviour removed c pending :
  c.2 ∉ removed ->
  script behaviour (served behaviour removed (c :: pending))
  = behaviour c.1
      ++ script behaviour (served behaviour (removed ++ removes (behaviour c.1)) pending).
Proof. intros Hc. simpl. rewrite decide_False by done. reflexivity. Qed.

Lemma dispatch_loop (behaviour : Callback -> list Action) (P : list (Callback * N)) :
  forall (removed : list N) (A C : list (Callback * N)) (T T0 : N) (calls : list Callback)
         (fuel : nat),
    let B := without removed P in
    let acts := script behaviour (served behaviour removed P) in
    NoDup (A ++ P).*2 ->
    (forall c, c ∈ C -> (T0 <= c.2)%N) ->
    (T0 <= T)%N ->
    (forall t, t ∈ removes acts -> (t < T0)%N) ->
    (T + N.of_nat (length (adds acts)) < 2 ^ 64)%N ->
    (N.of_nat (length (A ++ P)) < 2 ^ 64 - 1)%N ->
    (length P < fuel)%nat ->
    dispatch fuel behaviour
             (mkNotifier (A ++ B ++ C) T (decr64 (N.of_nat (length A)))
                         (N.of_nat (length (A ++ B))))
             calls
    = Done (mkNotifier (without (removes acts) (A ++ B) ++ C ++ tokens_from T (adds acts))
                       (T + N.of_nat (length (adds acts))) npos
                       (N.of_nat (length (without (removes acts) (A ++ B)))))
           (calls ++ (served behaviour removed P).*1).
Proof.
  induction P as [|c P IH]; intros removed A C T T0 calls fuel B acts
    Hnd HC HT Hrem Hadd Hlen Hfuel.
  - subst B acts. simpl in *. rewrite !app_nil_r in *.
    destruct fuel as [|fuel]; [lia|]. simpl.
    rewrite incr64_decr64 by lia. rewrite N.ltb_irrefl.
    rewrite !without_nil. simpl. by rewrite N.add_0_r.
  - destruct (decide (c.2 ∈ removed)) as [Hin|Hout].
    + assert (B = without removed P) as HB.
      { subst B. unfold without. rewrite filter_cons_False; [done|].
        intros Hx. by apply Hx. }
      assert (acts = script behaviour (served behaviour removed P)) as Hacts.
      { subst acts. simpl. by rewrite decide_True. }
      rewrite HB, Hacts. simpl. rewrite decide_True by done.
      apply (IH removed A C T T0); try done.
      * rewrite fmap_app, fmap_cons in Hnd. rewrite fmap_app.
        apply NoDup_app in Hnd as (H1 & H2 & H3). apply NoDup_cons in H3 as [H3 H4].
        apply NoDup_app. split; [done|]. split; [|done].
        intros x Hx Hx'. apply (H2 x Hx). by right.
      * by rewrite <- Hacts.
      * by rewrite <- Hacts.
      * rewrite length_app in *. simpl in Hlen. lia.
      * simpl in Hfuel. lia.
    + assert (B = c :: without removed P) as HB.
      { subst B. unfold without. by rewrite filter_cons_True. }
      assert (acts = behaviour c.1
                ++ script behaviour
                     (served behaviour (removed ++ removes (behaviour c.1)) P)) as Hacts.
      { subst acts. by apply served_app_script. }
      set (B' := without removed P) in *.
      set (acts' := script behaviour
                      (served behaviour (removed ++ removes (behaviour c.1)) P)) in *.
      clearbody B acts. subst B acts.
      rewrite removes_app in Hrem. rewrite adds_app, length_app in Hadd.
      assert (Hlen' : (length (A ++ c :: B') <= length (A ++ c :: P))%nat).
      { rewrite !length_app. simpl. pose proof (length_without removed P).
        fold B' in H. lia. }
      assert (Hnd' : NoDup ((A ++ [c]) ++ B').*2).
      { rewrite <- app_assoc. simpl.
        apply (sublist_NoDup _ (A ++ c :: P).*2); [exact Hnd|].
        apply fmap_sublist. apply sublist_app; [done|]. apply sublist_skip.
        unfold B', without. apply sublist_filter. }
      destruct fuel as [|fuel]; [simpl in Hfuel; lia|]. simpl dispatch.
      rewrite incr64_decr64 by (rewrite length_app in Hlen; lia).
      replace (N.of_nat (length A) <? N.of_nat (length (A ++ c :: B')))%N with true
        by (symmetry; apply N.ltb_lt; rewrite length_app; simpl; lia).
      rewrite Nat2N.id.
      rewrite (lookup_app_r A) by lia. rewrite Nat.sub_diag. simpl.
      replace (A ++ c :: B' ++ C) with ((A ++ [c]) ++ B' ++ C)
        by (by rewrite <- app_assoc).
      replace (N.of_nat (length A)) with (decr64 (N.of_nat (length (A ++ [c])))) at 1.
      2: { rewrite length_app. simpl. rewrite decr64_pos; [lia|].
           rewrite length_app in Hlen. simpl in Hlen. lia. }
      replace (N.of_nat (length (A ++ c :: B')))
        with (N.of_nat (length ((A ++ [c]) ++ B')))
        by (by rewrite <- app_assoc).
      rewrite (actions_step _ _ _ _ _ T0); try done.
      2: { intros t Ht. apply Hrem. apply elem_of_app. by left. }
      2: { lia. }
      2: { rewrite <- app_assoc. simpl. lia. }
      unfold B'. rewrite !without_without.
      rewrite (IH (removed ++ removes (behaviour c.1))
                  (without (removes (behaviour c.1)) (A ++ [c]))
                  (C ++ tokens_from T (adds (behaviour c.1)))
                  (T + N.of_nat (length (adds (behaviour c.1))))%N T0).
      * fold acts'.
        assert (without (removes acts')
                  (without (removes (behaviour c.1)) (A ++ [c])
                     ++ without (removed ++ removes (behaviour c.1)) P)
                = without (removes (behaviour c.1 ++ acts')) (A ++ c :: without removed P))
          as ->.
        { rewrite removes_app. rewrite <- (without_without removed).
          rewrite <- without_app. rewrite without_without. by rewrite <- app_assoc. }
        rewrite adds_app, tokens_from_app, length_app.
        simpl served. rewrite decide_False by done. rewrite fmap_cons.
        f_equal; [f_equal|].
        -- by rewrite <- !app_assoc.
        -- lia.
        -- by rewrite <- app_assoc.
      * fold acts'.
        apply (sublist_NoDup _ (A ++ c :: P).*2); [exact Hnd|].
        apply fmap_sublist.
        replace (A ++ c :: P) with ((A ++ [c]) ++ P) by (by rewrite <- app_assoc).
        apply sublist_app; [|done]. unfold without. apply sublist_filter.
      * intros c' Hc'. apply elem_of_app in Hc' as [Hc'|Hc']; [by apply HC|].
        clear -Hc' HT. revert T HT Hc'.
        induction (adds (behaviour c.1)) as [|f fs IHf]; intros T HT Hc'; simpl in Hc'.
        -- by apply elem_of_nil in Hc'.
        -- apply elem_of_cons in Hc' as [->|Hc']; [done|].
           apply (IHf (T + 1)%N); [lia|done].
      * lia.
      * fold acts'. intros t Ht. apply Hrem. apply elem_of_app. by right.
      * fold acts'. lia.
      * pose proof (length_without (removes (behaviour c.1)) (A ++ [c])).
        rewrite !length_app in *. simpl in *. lia.
      * simpl in Hfuel. lia.
Qed.

Lemma served_sublist behaviour removed (pending : list (Callback * N)) :
  served behaviour removed pending `sublist_of` pending.
Proof.
  revert removed. induction pending as [|c pending IH]; intros removed; simpl; [done|].
  destruct (decide (c.2 ∈ removed)).
  - apply sublist_cons. apply IH.
  - apply sublist_skip. apply IH.
Qed.

Lemma served_inert behaviour (pending : list (Callback * N)) :
  (forall c, c ∈ pending -> behaviour c.1 = []) ->
  served behaviour [] pending = pending.
Proof.
  induction pending as [|c pending IH]; intros Hin; [done|]. cbn [served].
  destruct (decide (c.2 ∈ [])) as [Hx|_]; [by apply elem_of_nil in Hx|].
  rewrite Hin by (by left). simpl. rewrite IH; [done|].
  intros c' Hc'. apply Hin. by right.
Qed.

(** A dispatch that starts with no dispatch under way, the tokens of the
    registered callbacks distinct, where the callbacks called remove only
    callbacks registered before the dispatch began (and neither the tokens
    nor the positions are about to wrap): [invoke_callbacks] returns, without
    reading [m_callbacks] out of range.  It has called the registered
    callbacks in the order of their registration, each once, but for those
    that a callback called before them has removed; the callbacks registered
    during the dispatch are not called.  It leaves registered the callbacks
    that none has removed, followed by the ones registered during the
    dispatch, under the tokens that follow; and no dispatch under way. *)
Theorem dispatch_calls_each_registration_in_turn
    (behaviour : Callback -> list Action) (n : ConnectionChangeNotifier) :
  m_callback_index n = npos ->
  NoDup (m_callbacks n).*2 ->
  (N.of_nat (length (m_callbacks n)) < 2 ^ 64 - 1)%N ->
  let called := served behaviour [] (m_callbacks n) in
  let acts := script behaviour called in
  (forall t, t ∈ removes acts -> (t < m_next_token n)%N) ->
  (m_next_token n + N.of_nat (length (adds acts)) < 2 ^ 64)%N ->
  invoke_callbacks (S (length (m_callbacks n))) behaviour n
  = Done (mkNotifier (without (removes acts) (m_callbacks n)
                        ++ tokens_from (m_next_token n) (adds acts))
                     (m_next_token n + N.of_nat (length (adds acts))) npos
                     (N.of_nat (length (without (removes acts) (m_callbacks n)))))
         called.*1
  /\ called `sublist_of` m_callbacks n
  /\ ((forall c, c ∈ m_callbacks n -> behaviour c.1 = []) -> called = m_callbacks n).
Proof.
  intros Hidx Hnd Hlen called acts Hrem Hadd. split; [|split].
  - unfold invoke_callbacks. destruct n as [P T idx cnt]. simpl in *. subst idx.
    pose proof (dispatch_loop behaviour P [] [] [] T T [] (S (length P))) as Hl.
    simpl in Hl. rewrite without_nil, app_nil_r in Hl.
    apply Hl; try done.
    + intros c Hc. by apply elem_of_nil in Hc.
    + lia.
  - apply served_sublist.
  - apply served_inert.
Qed.

(** *** Callbacks that do nothing *)

Lemma inert_loop (behaviour : Callback -> list Action) (l : list (Callback * N)) (T : N)
    (d : nat) :
  forall (i k : nat) (calls : list Callback) (fuel : nat),
    (k = i + d)%nat ->
    (k <= length l)%nat ->
    (forall c, c ∈ drop i l -> behaviour c.1 = []) ->
    (N.of_nat (length l) < 2 ^ 64 - 1)%N ->
    (d < fuel)%nat ->
    dispatch fuel behaviour (mkNotifier l T (decr64 (N.of_nat i)) (N.of_nat k)) calls
    = Done (mkNotifier l T npos (N.of_nat k)) (calls ++ (take d (drop i l)).*1).
Proof.
  induction d as [|d IH]; intros i k calls fuel Hk Hkl Hin Hlen Hfuel.
  - destruct fuel as [|fuel]; [lia|]. simpl.
    rewrite incr64_decr64 by lia.
    replace (N.of_nat i <? N.of_nat k)%N with false by (symmetry; apply N.ltb_ge; lia).
    by rewrite app_nil_r.
  - destruct fuel as [|fuel]; [lia|]. simpl dispatch.
    rewrite incr64_decr64 by lia.
    replace (N.of_nat i <? N.of_nat k)%N with true by (symmetry; apply N.ltb_lt; lia).
    rewrite Nat2N.id.
    destruct (lookup_lt_is_Some_2 l i) as [c Hc]; [lia|]. rewrite Hc.
    assert (drop i l = c :: drop (S i) l) as Hdrop by (by apply drop_S).
    rewrite Hin by (rewrite Hdrop; by left). simpl foldl.
    replace (N.of_nat i) with (decr64 (N.of_nat (S i))) at 1
      by (rewrite decr64_pos; lia).
    rewrite (IH (S i) k); try lia.
    + rewrite Hdrop. simpl. by rewrite <- app_assoc.
    + intros c' Hc'. apply Hin. rewrite Hdrop. by right.
Qed.

(** Where the first callback, when called, registers a callback and removes
    it again (the others do nothing): the dispatch ends one callback early,
    and the callback registered last before the dispatch is not called. *)
Theorem removing_an_added_callback_skips_the_last
    (behaviour : Callback -> list Action) (n : ConnectionChangeNotifier)
    (f g : Callback) (t : N) (rest : list (Callback * N)) :
  m_callback_index n = npos ->
  m_callbacks n = (f, t) :: rest ->
  rest <> [] ->
  behaviour f = [act_add g; act_remove (m_next_token n)] ->
  (forall c, c ∈ rest -> behaviour c.1 = []) ->
  (forall c, c ∈ m_callbacks n -> c.2 <> m_next_token n) ->
  (N.of_nat (length (m_callbacks n)) < 2 ^ 64 - 1)%N ->
  invoke_callbacks (S (length (m_callbacks n))) behaviour n
  = Done (mkNotifier (m_callbacks n) (incr64 (m_next_token n)) npos
                     (N.of_nat (length rest)))
         (f :: removelast rest.*1).
Proof.
  intros Hidx Hl Hrest Hf Hinert Htok Hlen.
  unfold invoke_callbacks. destruct n as [P T idx cnt]. simpl in *. subst idx P.
  assert (incr64 npos = 0%N) as -> by reflexivity.
  replace (0 <? N.of_nat (length ((f, t) :: rest)))%N with true
    by (symmetry; apply N.ltb_lt; simpl; lia).
  change (((f, t) :: rest) !! N.to_nat 0) with (Some (f, t)). cbv beta iota.
  cbn [fst]. rewrite Hf.
  assert (foldl apply_action
            (mkNotifier ((f, t) :: rest) T 0 (N.of_nat (length ((f, t) :: rest))))
            [act_add g; act_remove T]
          = mkNotifier ((f, t) :: rest) (incr64 T) (decr64 (N.of_nat 1))
                       (N.of_nat (length rest))) as ->.
  { cbn [foldl apply_action snd]. unfold add_callback, remove_callback. simpl.
    rewrite decide_False by (apply (Htok (f, t)); by left).
    assert (find_token T (rest ++ [(g, T)]) = Some (length rest)) as ->.
    { apply find_token_app. intros Hx. apply list_elem_of_fmap in Hx as [c [Hc1 Hc2]].
      apply (Htok c); [by right|done]. }
    simpl. rewrite delete_middle, app_nil_r.
    f_equal. change (length ((f, t) :: rest)) with (S (length rest)) in Hlen.
    rewrite decr64_pos by lia. lia. }
  rewrite (inert_loop behaviour ((f, t) :: rest) (incr64 T) (length rest - 1) 1
             (length rest) [f] (length ((f, t) :: rest))).
  - simpl. rewrite drop_0. f_equal. f_equal.
    rewrite removelast_firstn_len, length_fmap.
    rewrite <- fmap_take. by replace (length rest - 1)%nat with (Nat.pred (length rest)) by lia.
  - destruct rest; [done|]. simpl. lia.
  - simpl. lia.
  - simpl. rewrite drop_0. exact Hinert.
  - exact Hlen.
  - destruct rest; [done|]. simpl. lia.
Qed.

(** *** The theorems at work *)

(** Three callbacks, of which the first, when called, removes the second and
    registers a fourth. *)
Definition three_callbacks : ConnectionChangeNotifier :=
  mkNotifier [(10, 0); (11, 1); (12, 2)]%N 3 npos 0.

Definition first_removes_second (f : Callback) : list Action :=
  if decide (f = 10%N) then [act_remove 1%N; act_add 13%N] else [].

Lemma dispatch_calls_each_registration_in_turn_witness :
  invoke_callbacks 4 first_removes_second three_callbacks
  = Done (mkNotifier [(10, 0); (12, 2); (13, 3)]%N 4 npos 2) [10; 12]%N.
Proof.
  refine (proj1 (dispatch_calls_each_registration_in_turn first_removes_second
                   three_callbacks eq_refl _ _ _ _)).
  - apply (bool_decide_unpack _). vm_compute. exact I.
  - vm_compute. reflexivity.
  - intros t Ht. apply list_elem_of_singleton in Ht. subst t. vm_compute. reflexivity.
  - vm_compute. reflexivity.
Defined.

(** Two callbacks, of which the first, when called, registers a third and
    removes it again. *)
Definition first_adds_and_removes (f : Callback) : list Action :=
  if decide (f = 10%N) then [act_add 12%N; act_remove 2%N] else [].

Lemma removing_an_added_callback_skips_the_last_witness :
  invoke_callbacks 3 first_adds_and_removes (mkNotifier [(10, 0); (11, 1)]%N 2 npos 0)
  = Done (mkNotifier [(10, 0); (11, 1)]%N 3 npos 1) [10%N].
Proof.
  apply (removing_an_added_callback_skips_the_last first_adds_and_removes
           (mkNotifier [(10, 0); (11, 1)]%N 2 npos 0) 10%N 12%N 0%N [(11, 1)]%N).
  - reflexivity.
  - reflexivity.
  - discriminate.
  - reflexivity.
  - intros c Hc. apply list_elem_of_singleton in Hc. subst c. reflexivity.
  - intros c Hc. simpl in Hc.
    apply elem_of_cons in Hc as [->|Hc]; [discriminate|].
    apply list_elem_of_singleton in Hc. subst c. discriminate.
  - vm_compute. reflexivity.
Defined.

End NotifierSpec.
